(** * Screen recorder: the recording session controller of [src/App.jsx]

    A shallow embedding of the React component [ScreenRecorderApp]: its
    state hooks and refs, the handlers it installs, and the part of the
    browser those handlers talk to (clock, timers, media recorder, tracks,
    object URLs).  Handlers are written in a small state-and-exception monad
    so that they read like the JavaScript they come from.

    How the page is modelled:
    - one event at a time (the browser's event loop): a user click, a timer
      firing, a recorder or track event, time passing.  A state setter has
      taken effect when the next event arrives, so a handler reads the state
      of the latest render; refs are read and written in place;
    - the browser answers each call [startRecording] makes with a value or an
      exception.  [startRecording] is asynchronous: a call is suspended at
      each of its two [await]s and other events can reach the page while it
      waits.  The [Page] holds the suspended calls and a [Turn] is a click,
      a promise settling, or any other event; the event [Start r] is the
      special case of a click whose promises settle at once;
    - the page follows the recorder that [mediaRecorderRef] holds; a
      recorder that a later call has replaced there is out of its reach;
    - a [MediaRecorder] behaves as its API says: [stop()] on a recorder that
      is not inactive makes it inactive at once and queues one [stop] event;
      [track.stop()] and [new Blob] cannot throw, [close()] may;
    - every browser call is written to a trace, newest first, together with
      marks for stop requests, stop callbacks and cleanup runs;
    - clock readings and durations are integers; the ratio behind the
      progress bar is a binary64 number, computed as JavaScript computes
      it. *)

From Stdlib Require Import ZArith String Ascii List Bool Lia.
From Stdlib Require PrimFloat Uint63.
From stdpp Require Import base gmap strings pretty list.
Import ListNotations.

Local Open Scope string_scope.
Local Open Scope Z_scope.

#[local] Set Warnings "-clear-no-such-hyp".

(** ** Browser objects *)

(** A [MediaStream]: its video tracks and its audio tracks, by track id. *)
Record MediaStream := {
  videoTracks : list nat;
  audioTracks : list nat }.

Definition getTracks (s : MediaStream) : list nat :=
  (videoTracks s ++ audioTracks s)%list.

(** A [Blob] (also the payload of a [dataavailable] event): opaque bytes with
    a size and a content type. *)
Record Blob := {
  blob_size : Z;
  blob_type : string }.

(** A thrown value; [message] is what [err?.message] reads. *)
Record Exn := { message : option string }.

Inductive RecordingState := inactive | recording | paused.

(** A [MediaRecorder] object.  [stopQueued] is the browser's side of
    [stop()]: the [stop] event has been queued and not yet dispatched.
    [rec_mimeType] is the [mimeType] variable its [onstop] closure captured,
    [rec_options] the options object it was constructed with. *)
Record MediaRecorder := {
  rec_state : RecordingState;
  stopQueued : bool;
  rec_mimeType : string;
  rec_options : option string }.

(** An [AudioContext]; [closeThrows] is how its [close()] behaves. *)
Record AudioContext := { closeThrows : option Exn }.

(** A [setInterval] registration: its period and the clock reading at which
    it was registered or last fired. *)
Record Interval := {
  period : Z;
  lastFired : Z }.

(** ** The component: state hooks and refs (lines 10-25) *)

Record Component := {
  isSupported : bool;
  isRecording : bool;
  elapsedMs : Z;
  previewURL : string;
  error : string;
  mediaRecorderRef : option MediaRecorder;
  chunksRef : list Blob;
  displayStreamRef : option MediaStream;
  micStreamRef : option MediaStream;
  mixedStreamRef : option MediaStream;
  audioCtxRef : option AudioContext;
  tickRef : option positive;
  startTimeRef : Z }.

Definition MAX_DURATION_MS : Z := 3 * 60 * 1000.

(** The period passed to [window.setInterval] in [startTimer]. *)
Definition TICK_MS : Z := 250.

(** ** The browser *)

Record Browser := {
  now : Z;
  hasGetDisplayMedia : bool;
  hasMediaRecorder : bool;
  isTypeSupported : string -> bool;
  ended : gset nat;
  endedListeners : gset nat;
  intervals : gmap positive Interval;
  nextHandle : positive;
  objectURLs : gset string }.

(** ** What a run leaves behind

    Browser calls made by the component, newest first, and three marks
    that record which of the component's own functions ran. *)

Inductive Trigger := ByUser | ByTrackEnded | ByTimeout.

Inductive AudioInput := SystemAudio | Microphone.

Inductive Label :=
  | Requested (t : Trigger)
  | CleanupRun
  | StopCallback
  | GetDisplayMedia
  | GetUserMedia
  | NewAudioContext
  | CreateSource (i : AudioInput)
  | CreateDestination
  | Connect (i : AudioInput)
  | NewMediaStream (s : MediaStream)
  | NewMediaRecorder (opts : option string)
  | RecorderStart
  | RecorderStop
  | SetInterval (id : positive) (ms : Z)
  | ClearInterval (id : positive)
  | NewBlob (b : Blob)
  | CreateObjectURL (u : string)
  | RevokeObjectURL (u : string)
  | TrackStop (t : nat)
  | CloseContext
  | ConsoleError (e : Exn)
  | AnchorClick (href download : string).

Record World := {
  app : Component;
  host : Browser;
  trace : list Label }.

(** ** Field updates *)

Definition withApp (f : Component -> Component) (w : World) : World :=
  {| app := f (app w); host := host w; trace := trace w |}.

Definition withHost (f : Browser -> Browser) (w : World) : World :=
  {| app := app w; host := f (host w); trace := trace w |}.

Definition record (l : Label) (w : World) : World :=
  {| app := app w; host := host w; trace := l :: trace w |}.

Definition set_isSupported (v : bool) (c : Component) : Component :=
  {| isSupported := v; isRecording := isRecording c; elapsedMs := elapsedMs c;
     previewURL := previewURL c; error := error c;
     mediaRecorderRef := mediaRecorderRef c; chunksRef := chunksRef c;
     displayStreamRef := displayStreamRef c; micStreamRef := micStreamRef c;
     mixedStreamRef := mixedStreamRef c; audioCtxRef := audioCtxRef c;
     tickRef := tickRef c; startTimeRef := startTimeRef c |}.

Definition set_isRecording (v : bool) (c : Component) : Component :=
  {| isSupported := isSupported c; isRecording := v; elapsedMs := elapsedMs c;
     previewURL := previewURL c; error := error c;
     mediaRecorderRef := mediaRecorderRef c; chunksRef := chunksRef c;
     displayStreamRef := displayStreamRef c; micStreamRef := micStreamRef c;
     mixedStreamRef := mixedStreamRef c; audioCtxRef := audioCtxRef c;
     tickRef := tickRef c; startTimeRef := startTimeRef c |}.

Definition set_elapsedMs (v : Z) (c : Component) : Component :=
  {| isSupported := isSupported c; isRecording := isRecording c; elapsedMs := v;
     previewURL := previewURL c; error := error c;
     mediaRecorderRef := mediaRecorderRef c; chunksRef := chunksRef c;
     displayStreamRef := displayStreamRef c; micStreamRef := micStreamRef c;
     mixedStreamRef := mixedStreamRef c; audioCtxRef := audioCtxRef c;
     tickRef := tickRef c; startTimeRef := startTimeRef c |}.

Definition set_previewURL (v : string) (c : Component) : Component :=
  {| isSupported := isSupported c; isRecording := isRecording c;
     elapsedMs := elapsedMs c; previewURL := v; error := error c;
     mediaRecorderRef := mediaRecorderRef c; chunksRef := chunksRef c;
     displayStreamRef := displayStreamRef c; micStreamRef := micStreamRef c;
     mixedStreamRef := mixedStreamRef c; audioCtxRef := audioCtxRef c;
     tickRef := tickRef c; startTimeRef := startTimeRef c |}.

Definition set_error (v : string) (c : Component) : Component :=
  {| isSupported := isSupported c; isRecording := isRecording c;
     elapsedMs := elapsedMs c; previewURL := previewURL c; error := v;
     mediaRecorderRef := mediaRecorderRef c; chunksRef := chunksRef c;
     displayStreamRef := displayStreamRef c; micStreamRef := micStreamRef c;
     mixedStreamRef := mixedStreamRef c; audioCtxRef := audioCtxRef c;
     tickRef := tickRef c; startTimeRef := startTimeRef c |}.

Definition set_mediaRecorderRef (v : option MediaRecorder) (c : Component) : Component :=
  {| isSupported := isSupported c; isRecording := isRecording c;
     elapsedMs := elapsedMs c; previewURL := previewURL c; error := error c;
     mediaRecorderRef := v; chunksRef := chunksRef c;
     displayStreamRef := displayStreamRef c; micStreamRef := micStreamRef c;
     mixedStreamRef := mixedStreamRef c; audioCtxRef := audioCtxRef c;
     tickRef := tickRef c; startTimeRef := startTimeRef c |}.

Definition set_chunksRef (v : list Blob) (c : Component) : Component :=
  {| isSupported := isSupported c; isRecording := isRecording c;
     elapsedMs := elapsedMs c; previewURL := previewURL c; error := error c;
     mediaRecorderRef := mediaRecorderRef c; chunksRef := v;
     displayStreamRef := displayStreamRef c; micStreamRef := micStreamRef c;
     mixedStreamRef := mixedStreamRef c; audioCtxRef := audioCtxRef c;
     tickRef := tickRef c; startTimeRef := startTimeRef c |}.

Definition set_displayStreamRef (v : option MediaStream) (c : Component) : Component :=
  {| isSupported := isSupported c; isRecording := isRecording c;
     elapsedMs := elapsedMs c; previewURL := previewURL c; error := error c;
     mediaRecorderRef := mediaRecorderRef c; chunksRef := chunksRef c;
     displayStreamRef := v; micStreamRef := micStreamRef c;
     mixedStreamRef := mixedStreamRef c; audioCtxRef := audioCtxRef c;
     tickRef := tickRef c; startTimeRef := startTimeRef c |}.

Definition set_micStreamRef (v : option MediaStream) (c : Component) : Component :=
  {| isSupported := isSupported c; isRecording := isRecording c;
     elapsedMs := elapsedMs c; previewURL := previewURL c; error := error c;
     mediaRecorderRef := mediaRecorderRef c; chunksRef := chunksRef c;
     displayStreamRef := displayStreamRef c; micStreamRef := v;
     mixedStreamRef := mixedStreamRef c; audioCtxRef := audioCtxRef c;
     tickRef := tickRef c; startTimeRef := startTimeRef c |}.

Definition set_mixedStreamRef (v : option MediaStream) (c : Component) : Component :=
  {| isSupported := isSupported c; isRecording := isRecording c;
     elapsedMs := elapsedMs c; previewURL := previewURL c; error := error c;
     mediaRecorderRef := mediaRecorderRef c; chunksRef := chunksRef c;
     displayStreamRef := displayStreamRef c; micStreamRef := micStreamRef c;
     mixedStreamRef := v; audioCtxRef := audioCtxRef c;
     tickRef := tickRef c; startTimeRef := startTimeRef c |}.

Definition set_audioCtxRef (v : option AudioContext) (c : Component) : Component :=
  {| isSupported := isSupported c; isRecording := isRecording c;
     elapsedMs := elapsedMs c; previewURL := previewURL c; error := error c;
     mediaRecorderRef := mediaRecorderRef c; chunksRef := chunksRef c;
     displayStreamRef := displayStreamRef c; micStreamRef := micStreamRef c;
     mixedStreamRef := mixedStreamRef c; audioCtxRef := v;
     tickRef := tickRef c; startTimeRef := startTimeRef c |}.

Definition set_tickRef (v : option positive) (c : Component) : Component :=
  {| isSupported := isSupported c; isRecording := isRecording c;
     elapsedMs := elapsedMs c; previewURL := previewURL c; error := error c;
     mediaRecorderRef := mediaRecorderRef c; chunksRef := chunksRef c;
     displayStreamRef := displayStreamRef c; micStreamRef := micStreamRef c;
     mixedStreamRef := mixedStreamRef c; audioCtxRef := audioCtxRef c;
     tickRef := v; startTimeRef := startTimeRef c |}.

Definition set_startTimeRef (v : Z) (c : Component) : Component :=
  {| isSupported := isSupported c; isRecording := isRecording c;
     elapsedMs := elapsedMs c; previewURL := previewURL c; error := error c;
     mediaRecorderRef := mediaRecorderRef c; chunksRef := chunksRef c;
     displayStreamRef := displayStreamRef c; micStreamRef := micStreamRef c;
     mixedStreamRef := mixedStreamRef c; audioCtxRef := audioCtxRef c;
     tickRef := tickRef c; startTimeRef := v |}.

Definition set_now (v : Z) (b : Browser) : Browser :=
  {| now := v; hasGetDisplayMedia := hasGetDisplayMedia b;
     hasMediaRecorder := hasMediaRecorder b; isTypeSupported := isTypeSupported b;
     ended := ended b; endedListeners := endedListeners b;
     intervals := intervals b; nextHandle := nextHandle b;
     objectURLs := objectURLs b |}.

Definition set_ended (v : gset nat) (b : Browser) : Browser :=
  {| now := now b; hasGetDisplayMedia := hasGetDisplayMedia b;
     hasMediaRecorder := hasMediaRecorder b; isTypeSupported := isTypeSupported b;
     ended := v; endedListeners := endedListeners b;
     intervals := intervals b; nextHandle := nextHandle b;
     objectURLs := objectURLs b |}.

Definition set_endedListeners (v : gset nat) (b : Browser) : Browser :=
  {| now := now b; hasGetDisplayMedia := hasGetDisplayMedia b;
     hasMediaRecorder := hasMediaRecorder b; isTypeSupported := isTypeSupported b;
     ended := ended b; endedListeners := v;
     intervals := intervals b; nextHandle := nextHandle b;
     objectURLs := objectURLs b |}.

Definition set_intervals (v : gmap positive Interval) (b : Browser) : Browser :=
  {| now := now b; hasGetDisplayMedia := hasGetDisplayMedia b;
     hasMediaRecorder := hasMediaRecorder b; isTypeSupported := isTypeSupported b;
     ended := ended b; endedListeners := endedListeners b;
     intervals := v; nextHandle := nextHandle b;
     objectURLs := objectURLs b |}.

Definition set_nextHandle (v : positive) (b : Browser) : Browser :=
  {| now := now b; hasGetDisplayMedia := hasGetDisplayMedia b;
     hasMediaRecorder := hasMediaRecorder b; isTypeSupported := isTypeSupported b;
     ended := ended b; endedListeners := endedListeners b;
     intervals := intervals b; nextHandle := v;
     objectURLs := objectURLs b |}.

Definition set_objectURLs (v : gset string) (b : Browser) : Browser :=
  {| now := now b; hasGetDisplayMedia := hasGetDisplayMedia b;
     hasMediaRecorder := hasMediaRecorder b; isTypeSupported := isTypeSupported b;
     ended := ended b; endedListeners := endedListeners b;
     intervals := intervals b; nextHandle := nextHandle b;
     objectURLs := v |}.

(** ** The monad of handlers: state plus JavaScript exceptions *)

Inductive Completion (A : Type) :=
  | Normal (a : A)
  | Abrupt (e : Exn).
Arguments Normal {A} a.
Arguments Abrupt {A} e.

Definition JS (A : Type) : Type := World -> Completion A * World.

#[global] Instance JS_ret : MRet JS := fun A a w => (Normal a, w).

#[global] Instance JS_bind : MBind JS := fun A B f m w =>
  match m w with
  | (Normal a, w') => f a w'
  | (Abrupt e, w') => (Abrupt e, w')
  end.

Definition throw {A} (e : Exn) : JS A := fun w => (Abrupt e, w).

(** [try { body } catch (err) { handler err }] *)
Definition tryCatch {A} (body : JS A) (handler : Exn -> JS A) : JS A := fun w =>
  match body w with
  | (Normal a, w') => (Normal a, w')
  | (Abrupt e, w') => handler e w'
  end.

Definition read {A} (f : Component -> A) : JS A := fun w => (Normal (f (app w)), w).
Definition ask {A} (f : Browser -> A) : JS A := fun w => (Normal (f (host w)), w).
Definition update (f : Component -> Component) : JS unit := fun w => (Normal tt, withApp f w).
Definition browser (f : Browser -> Browser) : JS unit := fun w => (Normal tt, withHost f w).
Definition emit (l : Label) : JS unit := fun w => (Normal tt, record l w).

Definition when (b : bool) (m : JS unit) : JS unit := if b then m else mret tt.

(** A browser call whose outcome the host decides. *)
Definition outcome {A} (r : Exn + A) : JS A :=
  match r with
  | inl e => throw e
  | inr a => mret a
  end.

Definition mayThrow (r : option Exn) : JS unit :=
  match r with
  | Some e => throw e
  | None => mret tt
  end.

(** The world a handler leaves behind.  An exception that escapes an event
    handler is reported by the browser and changes nothing else. *)
Definition exec {A} (m : JS A) (w : World) : World := snd (m w).

(** ** JavaScript truthiness for the values the component tests *)

Definition truthy (s : string) : bool :=
  match s with
  | EmptyString => false
  | String _ _ => true
  end.

(** [a || b] on strings *)
Definition orElse (a b : string) : string := if truthy a then a else b.

Fixpoint forEach {A} (f : A -> JS unit) (l : list A) : JS unit :=
  match l with
  | [] => mret tt
  | x :: rest => f x ;; forEach f rest
  end.

(** ** Browser calls *)

Definition Date_now : JS Z := ask now.

(** [window.setInterval(cb, ms)]: a fresh positive handle. *)
Definition setInterval (ms : Z) : JS positive :=
  id ← ask nextHandle;
  t ← ask now;
  browser (fun b =>
    set_nextHandle (Pos.succ id)
      (set_intervals (<[id := {| period := ms; lastFired := t |}]> (intervals b)) b)) ;;
  emit (SetInterval id ms) ;;
  mret id.

Definition clearInterval (id : positive) : JS unit :=
  browser (fun b => set_intervals (delete id (intervals b)) b) ;;
  emit (ClearInterval id).

Definition totalSize (parts : list Blob) : Z :=
  fold_right (fun b acc => blob_size b + acc) 0 parts.

(** [new Blob(parts, { type })] *)
Definition newBlob (parts : list Blob) (ty : string) : JS Blob :=
  let b := {| blob_size := totalSize parts; blob_type := ty |} in
  emit (NewBlob b) ;;
  mret b.

Definition createObjectURL (b : Blob) : JS string :=
  h ← ask nextHandle;
  let url := "blob:" +:+ pretty (Npos h) in
  browser (fun b =>
    set_nextHandle (Pos.succ h) (set_objectURLs ({[url]} ∪ objectURLs b) b)) ;;
  emit (CreateObjectURL url) ;;
  mret url.

Definition revokeObjectURL (url : string) : JS unit :=
  browser (fun b => set_objectURLs (objectURLs b ∖ {[url]}) b) ;;
  emit (RevokeObjectURL url).

(** [track.stop()]: ends the track; on an ended track it changes nothing. *)
Definition trackStop (t : nat) : JS unit :=
  browser (fun b => set_ended ({[t]} ∪ ended b) b) ;;
  emit (TrackStop t).

Definition contextClose (ctx : AudioContext) : JS unit :=
  emit CloseContext ;;
  mayThrow (closeThrows ctx).

(** [recorder.start()] and [recorder.stop()] act on the object held by
    [mediaRecorderRef]. [stop()] inactivates the recorder at once and queues
    its [stop] event. *)
Definition onRecorder (f : MediaRecorder -> MediaRecorder) : JS unit :=
  update (fun c => set_mediaRecorderRef (f <$> mediaRecorderRef c) c).

Definition recorderStop : JS unit :=
  emit RecorderStop ;;
  onRecorder (fun r =>
    {| rec_state := inactive; stopQueued := true;
       rec_mimeType := rec_mimeType r; rec_options := rec_options r |}).

Definition is_inactive (s : RecordingState) : bool :=
  match s with
  | inactive => true
  | _ => false
  end.

(** ** The component's functions *)

(** Lines 27-33. *)
Definition probe : JS unit :=
  g ← ask hasGetDisplayMedia;
  m ← ask hasMediaRecorder;
  update (set_isSupported (g && m)).

(** Lines 62-67. *)
Definition stopTimer : JS unit :=
  t ← read tickRef;
  match t with
  | Some id => clearInterval id ;; update (set_tickRef None)
  | None => mret tt
  end.

(** Lines 164-171. *)
Definition stopRecording : JS unit :=
  tryCatch
    (r ← read mediaRecorderRef;
     match r with
     | Some rec => when (negb (is_inactive (rec_state rec))) recorderStop
     | None => mret tt
     end)
    (fun _ => mret tt) ;;
  stopTimer.

(** The interval callback of lines 52-59. *)
Definition tick : JS unit :=
  t ← Date_now;
  origin ← read startTimeRef;
  let ms := t - origin in
  update (set_elapsedMs ms) ;;
  when (MAX_DURATION_MS <=? ms) (emit (Requested ByTimeout) ;; stopRecording).

(** Lines 49-60. *)
Definition startTimer : JS unit :=
  t ← Date_now;
  update (set_startTimeRef t) ;;
  update (set_elapsedMs 0) ;;
  id ← setInterval TICK_MS;
  update (set_tickRef (Some id)).

Definition cand : list string :=
  [ "video/webm;codecs=vp9,opus";
    "video/webm;codecs=vp8,opus";
    "video/webm" ].

(** Lines 69-76: [cand.find(isTypeSupported) || ""]. *)
Definition pickMimeType (b : Browser) : string :=
  match List.find (isTypeSupported b) cand with
  | Some c => orElse c ""
  | None => ""
  end.

(** Line 150. *)
Definition stopTracks (s : option MediaStream) : JS unit :=
  match s with
  | Some s => forEach trackStop (getTracks s)
  | None => mret tt
  end.

(** Lines 149-162. *)
Definition cleanupStreams : JS unit :=
  emit CleanupRun ;;
  d ← read displayStreamRef; stopTracks d ;;
  m ← read micStreamRef; stopTracks m ;;
  x ← read mixedStreamRef; stopTracks x ;;
  update (set_displayStreamRef None) ;;
  update (set_micStreamRef None) ;;
  update (set_mixedStreamRef None) ;;
  c ← read audioCtxRef;
  match c with
  | Some ctx =>
      tryCatch (contextClose ctx) (fun _ => mret tt) ;;
      update (set_audioCtxRef None)
  | None => mret tt
  end.

(** Lines 111-113: [recorder.ondataavailable]. *)
Definition ondataavailable (data : option Blob) : JS unit :=
  match data with
  | Some d =>
      when (0 <? blob_size d) (update (fun c => set_chunksRef (chunksRef c ++ [d])%list c))
  | None => mret tt
  end.

(** Lines 115-122: [recorder.onstop], with the [mimeType] it closed over. *)
Definition onstop (mimeType : string) : JS unit :=
  emit StopCallback ;;
  stopTimer ;;
  chunks ← read chunksRef;
  blob ← newBlob chunks (orElse mimeType "video/webm");
  url ← createObjectURL blob;
  update (set_previewURL url) ;;
  update (set_isRecording false) ;;
  cleanupStreams.

(** What the browser answers to the calls [startRecording] makes. *)
Record Responses := {
  onGetDisplayMedia : Exn + MediaStream;
  onGetUserMedia : Exn + MediaStream;
  onAudioContext : Exn + AudioContext;
  onSystemSource : option Exn;
  onMicSource : option Exn;
  onDestination : Exn + MediaStream;
  onConnectSystem : option Exn;
  onConnectMic : option Exn;
  onNewMediaRecorder : option Exn;
  onRecorderStart : option Exn }.

Definition failureText (err : Exn) : string :=
  match message err with
  | Some m => orElse m "Failed to start recording. Use Chrome & allow permissions."
  | None => "Failed to start recording. Use Chrome & allow permissions."
  end.

(** Lines 78-147, for a call whose two promises settle before any other
    event reaches the page: the pieces [startClicked], [displayAnswered] and
    [micAnswered] below run one after the other (lemma [one_turn]).  The
    page on which other events fall between them is [Page], further down. *)
Definition startRecording (r : Responses) : JS unit :=
  update (set_error "") ;;
  supported ← read isSupported;
  busy ← read isRecording;
  if negb supported || busy then mret tt else
  stale ← read previewURL;
  when (truthy stale) (revokeObjectURL stale ;; update (set_previewURL "")) ;;
  tryCatch
    (displayStream ← (emit GetDisplayMedia ;; outcome (onGetDisplayMedia r));
     micStream ← (emit GetUserMedia ;; outcome (onGetUserMedia r));
     audioCtx ← (emit NewAudioContext ;; outcome (onAudioContext r));
     emit (CreateSource SystemAudio) ;; mayThrow (onSystemSource r) ;;
     emit (CreateSource Microphone) ;; mayThrow (onMicSource r) ;;
     dest ← (emit CreateDestination ;; outcome (onDestination r));
     emit (Connect SystemAudio) ;; mayThrow (onConnectSystem r) ;;
     emit (Connect Microphone) ;; mayThrow (onConnectMic r) ;;
     let combined :=
       {| videoTracks := videoTracks displayStream;
          audioTracks := audioTracks dest |} in
     emit (NewMediaStream combined) ;;
     mimeType ← ask pickMimeType;
     let opts := if truthy mimeType then Some mimeType else None in
     emit (NewMediaRecorder opts) ;; mayThrow (onNewMediaRecorder r) ;;
     let recorder :=
       {| rec_state := inactive; stopQueued := false;
          rec_mimeType := mimeType; rec_options := opts |} in
     update (set_chunksRef []) ;;
     match videoTracks displayStream with
     | videoTrack :: _ =>
         browser (fun b => set_endedListeners ({[videoTrack]} ∪ endedListeners b) b)
     | [] => mret tt
     end ;;
     update (set_mediaRecorderRef (Some recorder)) ;;
     update (set_displayStreamRef (Some displayStream)) ;;
     update (set_micStreamRef (Some micStream)) ;;
     update (set_mixedStreamRef (Some combined)) ;;
     update (set_audioCtxRef (Some audioCtx)) ;;
     emit RecorderStart ;; mayThrow (onRecorderStart r) ;;
     onRecorder (fun rec =>
       {| rec_state := recording; stopQueued := stopQueued rec;
          rec_mimeType := rec_mimeType rec; rec_options := rec_options rec |}) ;;
     update (set_isRecording true) ;;
     startTimer)
    (fun err =>
     emit (ConsoleError err) ;;
     update (set_error (failureText err)) ;;
     cleanupStreams ;;
     stopTimer ;;
     update (set_isRecording false)).

(** *** The same function, turn by turn

    [startRecording] is an [async] function.  It runs from the click to the
    [await] of line 88 and is suspended; it is resumed when the display
    promise settles, runs to the [await] of line 93 and is suspended again;
    it is resumed a last time when the microphone promise settles and then
    runs to its end.  Other events reach the page in between.  The three
    pieces below are these runs; [startRecording] above is the three of them
    one after the other with nothing in between. *)

(** Lines 140-146: the [catch] block. *)
Definition onRefused (err : Exn) : JS unit :=
  emit (ConsoleError err) ;;
  update (set_error (failureText err)) ;;
  cleanupStreams ;;
  stopTimer ;;
  update (set_isRecording false).

(** Lines 95-139: what runs, in one turn, once both streams are there. *)
Definition onGranted (r : Responses) (displayStream micStream : MediaStream) : JS unit :=
  audioCtx ← (emit NewAudioContext ;; outcome (onAudioContext r));
  emit (CreateSource SystemAudio) ;; mayThrow (onSystemSource r) ;;
  emit (CreateSource Microphone) ;; mayThrow (onMicSource r) ;;
  dest ← (emit CreateDestination ;; outcome (onDestination r));
  emit (Connect SystemAudio) ;; mayThrow (onConnectSystem r) ;;
  emit (Connect Microphone) ;; mayThrow (onConnectMic r) ;;
  let combined :=
    {| videoTracks := videoTracks displayStream;
       audioTracks := audioTracks dest |} in
  emit (NewMediaStream combined) ;;
  mimeType ← ask pickMimeType;
  let opts := if truthy mimeType then Some mimeType else None in
  emit (NewMediaRecorder opts) ;; mayThrow (onNewMediaRecorder r) ;;
  let recorder :=
    {| rec_state := inactive; stopQueued := false;
       rec_mimeType := mimeType; rec_options := opts |} in
  update (set_chunksRef []) ;;
  match videoTracks displayStream with
  | videoTrack :: _ =>
      browser (fun b => set_endedListeners ({[videoTrack]} ∪ endedListeners b) b)
  | [] => mret tt
  end ;;
  update (set_mediaRecorderRef (Some recorder)) ;;
  update (set_displayStreamRef (Some displayStream)) ;;
  update (set_micStreamRef (Some micStream)) ;;
  update (set_mixedStreamRef (Some combined)) ;;
  update (set_audioCtxRef (Some audioCtx)) ;;
  emit RecorderStart ;; mayThrow (onRecorderStart r) ;;
  onRecorder (fun rec =>
    {| rec_state := recording; stopQueued := stopQueued rec;
       rec_mimeType := rec_mimeType rec; rec_options := rec_options rec |}) ;;
  update (set_isRecording true) ;;
  startTimer.

(** Lines 79-88, from the click to the first [await].  The answer says
    whether the call got past the guard and is now waiting for the display
    promise. *)
Definition startClicked : JS bool :=
  update (set_error "") ;;
  supported ← read isSupported;
  busy ← read isRecording;
  if negb supported || busy then mret false else
  stale ← read previewURL;
  when (truthy stale) (revokeObjectURL stale ;; update (set_previewURL "")) ;;
  emit GetDisplayMedia ;;
  mret true.

(** The display promise settles: on a stream the call goes on to line 93
    and waits for the microphone, holding the stream in a local variable;
    on a rejection the [catch] block runs. *)
Definition displayAnswered (a : Exn + MediaStream) : JS (option MediaStream) :=
  match a with
  | inl err => onRefused err ;; mret None
  | inr displayStream => emit GetUserMedia ;; mret (Some displayStream)
  end.

(** The microphone promise settles: the rest of the [try] block, or the
    [catch] block.  Of [r] the answers from the microphone on are used. *)
Definition micAnswered (r : Responses) (displayStream : MediaStream) : JS unit :=
  tryCatch
    (micStream ← outcome (onGetUserMedia r);
     onGranted r displayStream micStream)
    onRefused.

(** ** [new Date().toISOString()] and the string methods of line 179 *)

(** Day number and time of day of a time value (milliseconds since the
    epoch, UTC), and the civil date of a day number in the proleptic
    Gregorian calendar. *)
Definition msPerDay : Z := 86400000.
Definition Day (t : Z) : Z := t / msPerDay.
Definition HourFromTime (t : Z) : Z := (t / 3600000) mod 24.
Definition MinFromTime (t : Z) : Z := (t / 60000) mod 60.
Definition SecFromTime (t : Z) : Z := (t / 1000) mod 60.
Definition msFromTime (t : Z) : Z := t mod 1000.

Definition civil (days : Z) : Z * Z * Z :=
  let z := days + 719468 in
  let era := z / 146097 in
  let doe := z - era * 146097 in
  let yoe := (doe - doe / 1460 + doe / 36524 - doe / 146096) / 365 in
  let doy := doe - (365 * yoe + yoe / 4 - yoe / 100) in
  let mp := (5 * doy + 2) / 153 in
  let d := doy - (153 * mp + 2) / 5 + 1 in
  let m := if mp <? 10 then mp + 3 else mp - 9 in
  let y := yoe + era * 400 + (if m <=? 2 then 1 else 0) in
  (y, m, d).

Definition YearFromTime (t : Z) : Z := fst (fst (civil (Day t))).
Definition MonthFromTime (t : Z) : Z := snd (fst (civil (Day t))).
Definition DateFromTime (t : Z) : Z := snd (civil (Day t)).

Definition digit (n : Z) : ascii :=
  match n mod 10 with
  | 0 => "0" | 1 => "1" | 2 => "2" | 3 => "3" | 4 => "4"
  | 5 => "5" | 6 => "6" | 7 => "7" | 8 => "8" | _ => "9"
  end%char.

(** The last [k] decimal digits of [n], in front of [acc]. *)
Fixpoint digits (k : nat) (n : Z) (acc : string) : string :=
  match k with
  | O => acc
  | S k' => digits k' (n / 10) (String (digit n) acc)
  end.

(** [YYYY-MM-DDTHH:mm:ss.sssZ]; years outside 0..9999 take a sign and six
    digits. *)
Definition toISOString (t : Z) : string :=
  let y := YearFromTime t in
  (if (0 <=? y) && (y <=? 9999) then digits 4 y ""
   else (if y <? 0 then "-" else "+") +:+ digits 6 (Z.abs y) "")
  +:+ "-" +:+ digits 2 (MonthFromTime t) ""
  +:+ "-" +:+ digits 2 (DateFromTime t) ""
  +:+ "T" +:+ digits 2 (HourFromTime t) ""
  +:+ ":" +:+ digits 2 (MinFromTime t) ""
  +:+ ":" +:+ digits 2 (SecFromTime t) ""
  +:+ "." +:+ digits 3 (msFromTime t) ""
  +:+ "Z".

(** [s.replace(/[:.]/g, "-")] *)
Definition colonOrDot (c : ascii) : bool :=
  (Ascii.eqb c ":" || Ascii.eqb c ".")%char.

Fixpoint replaceAll (p : ascii -> bool) (by_ : ascii) (s : string) : string :=
  match s with
  | EmptyString => EmptyString
  | String c rest => String (if p c then by_ else c) (replaceAll p by_ rest)
  end.

(** [s.replace("T", "_")]: a string pattern replaces the first match only. *)
Fixpoint replaceFirst (c by_ : ascii) (s : string) : string :=
  match s with
  | EmptyString => EmptyString
  | String x rest =>
      if Ascii.eqb x c then String by_ rest else String x (replaceFirst c by_ rest)
  end.

(** [s.slice(0, n)] *)
Definition slice0 (n : nat) (s : string) : string := String.substring 0 n s.

Definition timestamp (t : Z) : string :=
  slice0 19 (replaceFirst "T" "_" (replaceAll colonOrDot "-" (toISOString t))).

Definition downloadName (t : Z) : string :=
  "recording_" +:+ timestamp t +:+ ".webm".

(** Lines 173-185. *)
Definition handleDownload : JS unit :=
  url ← read previewURL;
  chunks ← read chunksRef;
  if negb (truthy url) || (length chunks =? 0)%nat then mret tt else
  picked ← ask pickMimeType;
  let mimeType := orElse picked "video/webm" in
  blob ← newBlob chunks mimeType;
  t ← Date_now;
  href ← createObjectURL blob;
  emit (AnchorClick href (downloadName t)).

(** ** What is on screen (lines 197-226) *)

Record View := {
  unsupportedNotice : bool;
  warning : option string;
  startDisabled : bool;
  stopDisabled : bool;
  downloadShown : bool }.

Definition render (c : Component) : View :=
  {| unsupportedNotice := negb (isSupported c);
     warning := if truthy (error c) then Some (error c) else None;
     startDisabled := negb (isSupported c) || isRecording c;
     stopDisabled := negb (isRecording c);
     downloadShown := truthy (previewURL c) |}.

(** ** Events and the event loop *)

Inductive Event :=
  | Mount
  | Start (r : Responses)
  | Stop
  | Download
  | TrackEnded (t : nat)
  | Elapse (d : Z)
  | TimerFires (id : positive)
  | DataAvailable (data : option Blob)
  | RecorderStopped.

(** The [ended] listener of lines 126-128 runs for a live track it was
    registered on. *)
Definition hasEnded (t : nat) (b : Browser) : bool := bool_decide (t ∈ ended b).
Definition isHeard (t : nat) (b : Browser) : bool := bool_decide (t ∈ endedListeners b).

Definition trackEnded (t : nat) : JS unit :=
  gone ← ask (hasEnded t);
  heard ← ask (isHeard t);
  if (gone : bool) then mret tt else
  browser (fun b => set_ended ({[t]} ∪ ended b) b) ;;
  when heard (emit (Requested ByTrackEnded) ;; stopRecording).

(** A registered interval fires: the browser notes the time and runs the
    callback.  A cleared handle never fires. *)
Definition timerFires (id : positive) : JS unit :=
  reg ← ask (fun b => intervals b !! id);
  match (reg : option Interval) with
  | Some iv =>
      browser (fun b =>
        set_intervals (<[id := {| period := period iv; lastFired := now b |}]> (intervals b)) b) ;;
      tick
  | None => mret tt
  end.

(** The browser dispatches [dataavailable] to the recorder while it records
    or while its stop is still queued. *)
Definition dataAvailable (data : option Blob) : JS unit :=
  r ← read mediaRecorderRef;
  match r with
  | Some rec =>
      when (negb (is_inactive (rec_state rec)) || stopQueued rec) (ondataavailable data)
  | None => mret tt
  end.

(** The browser dispatches the queued [stop] event, once. *)
Definition recorderStopped : JS unit :=
  r ← read mediaRecorderRef;
  match r with
  | Some rec =>
      when (stopQueued rec)
        (onRecorder (fun rec =>
           {| rec_state := rec_state rec; stopQueued := false;
              rec_mimeType := rec_mimeType rec; rec_options := rec_options rec |}) ;;
         onstop (rec_mimeType rec))
  | None => mret tt
  end.

Definition handler (e : Event) : JS unit :=
  match e with
  | Mount => probe
  | Start r => startRecording r
  | Stop => emit (Requested ByUser) ;; stopRecording
  | Download => handleDownload
  | TrackEnded t => trackEnded t
  | Elapse d => browser (fun b => set_now (now b + d) b)
  | TimerFires id => timerFires id
  | DataAvailable data => dataAvailable data
  | RecorderStopped => recorderStopped
  end.

Definition step (e : Event) (w : World) : World := exec (handler e) w.

Definition run (sched : list Event) (w : World) : World :=
  fold_left (fun w e => step e w) sched w.

(** The page as first rendered (the [useState] and [useRef] initial values)
    in a browser with the given clock and capabilities. *)
Definition initialComponent : Component :=
  {| isSupported := false; isRecording := false; elapsedMs := 0;
     previewURL := ""; error := "";
     mediaRecorderRef := None; chunksRef := [];
     displayStreamRef := None; micStreamRef := None; mixedStreamRef := None;
     audioCtxRef := None; tickRef := None; startTimeRef := 0 |}.

Definition freshBrowser (clock : Z) (display recorder : bool)
    (supports : string -> bool) : Browser :=
  {| now := clock; hasGetDisplayMedia := display; hasMediaRecorder := recorder;
     isTypeSupported := supports;
     ended := ∅; endedListeners := ∅; intervals := ∅;
     nextHandle := 1%positive; objectURLs := ∅ |}.

Definition boot (b : Browser) : World :=
  step Mount {| app := initialComponent; host := b; trace := [] |}.

(** ** Counting in the trace *)

Definition occurrences (p : Label -> bool) (w : World) : nat :=
  length (List.filter p (trace w)).

Definition isCleanup (l : Label) : bool :=
  match l with CleanupRun => true | _ => false end.
Definition isStopCallback (l : Label) : bool :=
  match l with StopCallback => true | _ => false end.
Definition isNewBlob (l : Label) : bool :=
  match l with NewBlob _ => true | _ => false end.
Definition isRequest (l : Label) : bool :=
  match l with Requested _ => true | _ => false end.
Definition isTimeout (l : Label) : bool :=
  match l with Requested ByTimeout => true | _ => false end.
Definition isSetInterval (l : Label) : bool :=
  match l with SetInterval _ _ => true | _ => false end.

(** The browser calls made between two worlds of one run, oldest first. *)
Definition since (w w' : World) : list Label :=
  rev (take (length (trace w') - length (trace w))%nat (trace w')).

(** [a] is called before [b] in a list of calls, oldest first. *)
Definition before (a b : Label) (calls : list Label) : Prop :=
  exists l1 l2 l3, calls = (l1 ++ a :: l2 ++ b :: l3)%list.

(** ** The worlds handlers leave

    Closed forms of what [stopTimer], [cleanupStreams] and [stopRecording]
    do to a world; the proofs show the handlers compute exactly these. *)

Definition recordAll (ls : list Label) (w : World) : World :=
  {| app := app w; host := host w; trace := (ls ++ trace w)%list |}.

Definition endAll (ts : list nat) (b : Browser) : Browser :=
  set_ended (list_to_set ts ∪ ended b) b.

Definition tracksOf (s : option MediaStream) : list nat :=
  match s with
  | Some s => getTracks s
  | None => []
  end.

(** The world [stopTimer] leaves. *)
Definition timerStopped (w : World) : World :=
  match tickRef (app w) with
  | Some id =>
      withApp (set_tickRef None)
        (record (ClearInterval id)
           (withHost (fun b => set_intervals (delete id (intervals b)) b) w))
  | None => w
  end.

(** The world [cleanupStreams] leaves. *)
Definition released (w : World) : World :=
  let c := app w in
  let ts := (tracksOf (displayStreamRef c) ++ tracksOf (micStreamRef c)
             ++ tracksOf (mixedStreamRef c))%list in
  withApp (fun c => set_audioCtxRef None (set_mixedStreamRef None
             (set_micStreamRef None (set_displayStreamRef None c))))
    (withHost (endAll ts)
       (recordAll ((if audioCtxRef c is Some _ then [CloseContext] else [])
                   ++ rev (map TrackStop (tracksOf (mixedStreamRef c)))
                   ++ rev (map TrackStop (tracksOf (micStreamRef c)))
                   ++ rev (map TrackStop (tracksOf (displayStreamRef c)))
                   ++ [CleanupRun]) w)).

(** The world [stopRecording] leaves. *)
Definition stopRequested (w : World) : World :=
  timerStopped
    match mediaRecorderRef (app w) with
    | Some r =>
        if is_inactive (rec_state r) then w
        else withApp (set_mediaRecorderRef
                        (Some {| rec_state := inactive; stopQueued := true;
                                 rec_mimeType := rec_mimeType r;
                                 rec_options := rec_options r |}))
               (record RecorderStop w)
    | None => w
    end.

(** ** The two ways [startRecording] can end *)

(** The stale preview handle [startRecording] revokes, if any. *)
Definition staleRevoked (w : World) : list Label :=
  if truthy (previewURL (app w)) then [RevokeObjectURL (previewURL (app w))] else [].

(** What a started attempt looks like, seen from the world [w] in which
    [startRecording] was called and the objects the browser handed out. *)
Definition startedFrom (w w' : World) (ds ms : MediaStream) (ac : AudioContext)
    (dest : MediaStream) : Prop :=
  let mimeType := pickMimeType (host w) in
  let opts := if truthy mimeType then Some mimeType else None in
  let combined := {| videoTracks := videoTracks ds; audioTracks := audioTracks dest |} in
  let id := nextHandle (host w) in
  isRecording (app w') = true /\
  mediaRecorderRef (app w') =
    Some {| rec_state := recording; stopQueued := false;
            rec_mimeType := mimeType; rec_options := opts |} /\
  chunksRef (app w') = [] /\
  displayStreamRef (app w') = Some ds /\
  micStreamRef (app w') = Some ms /\
  mixedStreamRef (app w') = Some combined /\
  audioCtxRef (app w') = Some ac /\
  tickRef (app w') = Some id /\
  elapsedMs (app w') = 0 /\
  startTimeRef (app w') = now (host w) /\
  error (app w') = "" /\
  now (host w') = now (host w) /\
  isTypeSupported (host w') = isTypeSupported (host w) /\
  intervals (host w') =
    <[id := {| period := TICK_MS; lastFired := now (host w) |}]> (intervals (host w)) /\
  trace w' =
    (SetInterval id TICK_MS :: RecorderStart :: NewMediaRecorder opts
     :: NewMediaStream combined :: Connect Microphone :: Connect SystemAudio
     :: CreateDestination :: CreateSource Microphone :: CreateSource SystemAudio
     :: NewAudioContext :: GetUserMedia :: GetDisplayMedia
     :: staleRevoked w ++ trace w)%list.

(** What a failed attempt leaves. *)
Definition refusedFrom (w w' : World) : Prop :=
  isRecording (app w') = false /\
  tickRef (app w') = None /\
  intervals (host w') =
    match tickRef (app w) with
    | Some id => delete id (intervals (host w))
    | None => intervals (host w)
    end /\
  elapsedMs (app w') = elapsedMs (app w) /\
  startTimeRef (app w') = startTimeRef (app w) /\
  now (host w') = now (host w) /\
  occurrences isTimeout w' = occurrences isTimeout w /\
  occurrences isSetInterval w' = occurrences isSetInterval w.

(** ** One attempt, from started to stopped *)

(** Events that can reach a page while an attempt is under way, other than
    the user's Start and Download. *)
Definition attemptEvent (e : Event) : bool :=
  match e with
  | Start _ | Download => false
  | _ => true
  end.

(** How far the attempt whose recorder captured [mimeType] has come since
    the world [w0] in which it started recording. *)
Inductive Phase := Recording | Stopping | Stopped.

Definition phaseOf (r : MediaRecorder) : Phase :=
  if negb (is_inactive (rec_state r)) then Recording
  else if stopQueued r then Stopping else Stopped.

Definition attempt (mimeType : string) (w0 w : World) : Prop :=
  exists r,
    mediaRecorderRef (app w) = Some r /\
    rec_mimeType r = mimeType /\
    (is_inactive (rec_state r) = false -> stopQueued r = false) /\
    let done := match phaseOf r with Stopped => 1%nat | _ => 0%nat end in
    occurrences isCleanup w = (done + occurrences isCleanup w0)%nat /\
    occurrences isStopCallback w = (done + occurrences isStopCallback w0)%nat /\
    occurrences isNewBlob w = (done + occurrences isNewBlob w0)%nat /\
    (occurrences isRequest w0 <= occurrences isRequest w)%nat /\
    (phaseOf r = Recording -> occurrences isRequest w = occurrences isRequest w0).

(** What the encoder hands over, as events. *)
Definition emitted (segs : list Blob) : list Event :=
  map (fun b => DataAvailable (Some b)) segs.

(** ** The timer, over whole runs *)

(** A registered interval fires no later than its period after it was
    registered or last fired. *)
Definition onTime (e : Event) (w : World) : bool :=
  match e with
  | TimerFires id =>
      match intervals (host w) !! id with
      | Some iv => now (host w) - lastFired iv <=? period iv
      | None => true
      end
  | _ => true
  end.

Fixpoint punctual (sched : list Event) (w : World) : bool :=
  match sched with
  | [] => true
  | e :: rest => onTime e w && punctual rest (step e w)
  end.

Definition ticks (t : option positive) : nat :=
  match t with
  | Some _ => 1%nat
  | None => 0%nat
  end.

(** What holds of the timer in every world a page can reach. *)
Definition timerInv (w : World) : Prop :=
  (isRecording (app w) = false -> tickRef (app w) = None) /\
  match tickRef (app w) with
  | Some id =>
      exists fired,
        intervals (host w) = {[ id := {| period := TICK_MS; lastFired := fired |} ]} /\
        elapsedMs (app w) = fired - startTimeRef (app w) /\
        elapsedMs (app w) < MAX_DURATION_MS
  | None =>
      intervals (host w) = ∅ /\
      elapsedMs (app w) < MAX_DURATION_MS + TICK_MS
  end /\
  (occurrences isTimeout w + ticks (tickRef (app w)) <= occurrences isSetInterval w)%nat.

(** [n] ticks of interval [id], each exactly one period after the last. *)
Fixpoint steady (id : positive) (n : nat) : list Event :=
  match n with
  | O => []
  | S n' => Elapse TICK_MS :: TimerFires id :: steady id n'
  end.

(** ** Sample inputs *)

Definition everything : Responses :=
  {| onGetDisplayMedia := inr {| videoTracks := [1%nat]; audioTracks := [2%nat] |};
     onGetUserMedia := inr {| videoTracks := []; audioTracks := [3%nat] |};
     onAudioContext := inr {| closeThrows := None |};
     onSystemSource := None;
     onMicSource := None;
     onDestination := inr {| videoTracks := []; audioTracks := [4%nat] |};
     onConnectSystem := None;
     onConnectMic := None;
     onNewMediaRecorder := None;
     onRecorderStart := None |}.

Definition chrome (clock : Z) : Browser :=
  freshBrowser clock true true (fun _ => true).

Definition segment (n : Z) : option Blob :=
  Some {| blob_size := n; blob_type := "video/webm;codecs=vp9,opus" |}.

(** A page that has just started recording in a browser that offers
    everything. *)
Definition recordingWorld : World :=
  run [Start everything] (boot (chrome 1700000000000)).

(** An attempt stopped before the encoder handed over anything. *)
Definition emptyAttempt : World :=
  run [Start everything; Stop; RecorderStopped] (boot (chrome 1700000000000)).

(** An attempt with one segment, completed at clock 1700000000000
    (2023-11-14 22:13:20 UTC). *)
Definition completedAttempt : World :=
  run [Start everything; DataAvailable (segment 1000); Stop; RecorderStopped]
      (boot (chrome 1700000000000)).

(** The file name the download link carries, if the newest call is the
    click on it. *)
Definition lastDownload (w : World) : option string :=
  match trace w with
  | AnchorClick _ name :: _ => Some name
  | _ => None
  end.

(** ** The elapsed-time display (lines 42-47, 209) *)

(** [n.toString()] on an integer. *)
Definition toString (n : Z) : string := pretty n.

Fixpoint repeatChar (n : nat) (c : ascii) : string :=
  match n with
  | O => EmptyString
  | S n' => String c (repeatChar n' c)
  end.

(** [s.padStart(n, c)] with a one-character filler: a string already [n]
    long or longer is returned as it is. *)
Definition padStart (n : nat) (c : ascii) (s : string) : string :=
  repeatChar (n - String.length s) c +:+ s.

(** Lines 42-47.  [Math.floor] of a quotient of integers is [Z.div]; [%] is
    the remainder that takes the sign of the dividend, [Z.rem]. *)
Definition formatTime (ms : Z) : string :=
  let totalSec := ms / 1000 in
  let m := padStart 2 "0" (toString (totalSec / 60)) in
  let s := padStart 2 "0" (toString (Z.rem totalSec 60)) in
  m +:+ ":" +:+ s.

(** Line 209: the text next to the buttons. *)
Definition timerText (c : Component) : string := formatTime (elapsedMs c).

(** ** Leaving the page (lines 35-40)

    The effect has no dependencies, so its cleanup is the closure of the
    first render: the [previewURL] it tests is the initial one. *)
Definition unmount : JS unit :=
  stopRecording ;;
  let previewURL := previewURL initialComponent in
  when (truthy previewURL) (revokeObjectURL previewURL).

(** The clock never runs backwards in a schedule. *)
Definition forward (sched : list Event) : bool :=
  forallb (fun e => match e with Elapse d => 0 <=? d | _ => true end) sched.

(** The timer's origin is not in the future and the elapsed time on display
    is not negative. *)
Definition clockInv (w : World) : Prop :=
  0 <= elapsedMs (app w) /\
  (tickRef (app w) <> None -> startTimeRef (app w) <= now (host w)).

(** The marks in the trace that are not calls into the browser. *)
Definition isMark (l : Label) : bool :=
  match l with
  | Requested _ | CleanupRun | StopCallback => true
  | _ => false
  end.

(** The calls into the browser a run has made, newest first. *)
Definition browserCalls (w : World) : list Label :=
  List.filter (fun l => negb (isMark l)) (trace w).

(** A page that has never been able to do anything. *)
Definition dormant (w : World) : Prop :=
  app w = initialComponent /\
  browserCalls w = [] /\
  intervals (host w) = ∅ /\
  endedListeners (host w) = ∅ /\
  hasGetDisplayMedia (host w) && hasMediaRecorder (host w) = false.

(** ** Where a start can be refused *)

(** The first exception among the browser's answers up to and including the
    construction of the recorder.  While one of these calls throws, nothing
    the attempt has acquired is stored in a ref yet (lines 131-135 come
    later). *)
Definition firstRefusal (r : Responses) : option Exn :=
  match onGetDisplayMedia r with inl e => Some e | inr _ =>
  match onGetUserMedia r with inl e => Some e | inr _ =>
  match onAudioContext r with inl e => Some e | inr _ =>
  match onSystemSource r with Some e => Some e | None =>
  match onMicSource r with Some e => Some e | None =>
  match onDestination r with inl e => Some e | inr _ =>
  match onConnectSystem r with Some e => Some e | None =>
  match onConnectMic r with Some e => Some e | None =>
  onNewMediaRecorder r
  end end end end end end end end.

(** The tracks the component can reach through its three stream refs. *)
Definition heldTracks (c : Component) : list nat :=
  (tracksOf (displayStreamRef c) ++ tracksOf (micStreamRef c)
   ++ tracksOf (mixedStreamRef c))%list.

(** What every start that passes the guard of line 80 does, however it
    ends. *)
Definition startCommon (w w' : World) : Prop :=
  previewURL (app w') = "" /\
  isSupported (app w') = true /\
  objectURLs (host w') =
    (if truthy (previewURL (app w))
     then objectURLs (host w) ∖ {[previewURL (app w)]}
     else objectURLs (host w)) /\
  (truthy (previewURL (app w)) = true ->
   In (RevokeObjectURL (previewURL (app w))) (trace w')) /\
  isTypeSupported (host w') = isTypeSupported (host w).

(** A start refused before the refs were written. *)
Definition refusedEarly (w w' : World) (e : Exn) : Prop :=
  isRecording (app w') = false /\
  error (app w') = failureText e /\
  In (ConsoleError e) (trace w') /\
  displayStreamRef (app w') = None /\
  micStreamRef (app w') = None /\
  mixedStreamRef (app w') = None /\
  audioCtxRef (app w') = None /\
  mediaRecorderRef (app w') = mediaRecorderRef (app w) /\
  chunksRef (app w') = chunksRef (app w) /\
  ended (host w') = list_to_set (heldTracks (app w)) ∪ ended (host w) /\
  endedListeners (host w') = endedListeners (host w).

(** A start refused by [recorder.start()], after the refs were written. *)
Definition refusedLate (w w' : World) (e : Exn) (ds ms dest : MediaStream) : Prop :=
  let mimeType := pickMimeType (host w) in
  let combined := {| videoTracks := videoTracks ds; audioTracks := audioTracks dest |} in
  isRecording (app w') = false /\
  error (app w') = failureText e /\
  In (ConsoleError e) (trace w') /\
  In CloseContext (trace w') /\
  displayStreamRef (app w') = None /\
  micStreamRef (app w') = None /\
  mixedStreamRef (app w') = None /\
  audioCtxRef (app w') = None /\
  mediaRecorderRef (app w') =
    Some {| rec_state := inactive; stopQueued := false; rec_mimeType := mimeType;
            rec_options := if truthy mimeType then Some mimeType else None |} /\
  chunksRef (app w') = [] /\
  ended (host w') =
    list_to_set (getTracks ds ++ getTracks ms ++ getTracks combined) ∪ ended (host w).

(** The [ended] listener of lines 124-129 sits on the first video track of
    the display stream, if it has one. *)
Definition listening (ds : MediaStream) (w w' : World) : Prop :=
  endedListeners (host w') =
    match videoTracks ds with
    | videoTrack :: _ => {[videoTrack]} ∪ endedListeners (host w)
    | [] => endedListeners (host w)
    end.

(** A browser that grants everything [startRecording] asks for. *)
Definition granted (r : Responses) (ds ms dest : MediaStream) : Prop :=
  firstRefusal r = None /\
  onGetDisplayMedia r = inr ds /\
  onGetUserMedia r = inr ms /\
  onDestination r = inr dest.

(** When the page is not recording it holds no stream and no audio
    context. *)
Definition tidy (w : World) : Prop :=
  isRecording (app w) = false ->
  displayStreamRef (app w) = None /\
  micStreamRef (app w) = None /\
  mixedStreamRef (app w) = None /\
  audioCtxRef (app w) = None.

(** The screen is shared but the microphone is refused. *)
Definition micDenied : Responses :=
  {| onGetDisplayMedia := inr {| videoTracks := [1%nat]; audioTracks := [2%nat] |};
     onGetUserMedia := inl {| message := Some "Permission denied" |};
     onAudioContext := inr {| closeThrows := None |};
     onSystemSource := None;
     onMicSource := None;
     onDestination := inr {| videoTracks := []; audioTracks := [4%nat] |};
     onConnectSystem := None;
     onConnectMic := None;
     onNewMediaRecorder := None;
     onRecorderStart := None |}.

(** Everything is granted but [recorder.start()] throws, without a
    message. *)
Definition startThrows : Responses :=
  {| onGetDisplayMedia := inr {| videoTracks := [1%nat]; audioTracks := [2%nat] |};
     onGetUserMedia := inr {| videoTracks := []; audioTracks := [3%nat] |};
     onAudioContext := inr {| closeThrows := None |};
     onSystemSource := None;
     onMicSource := None;
     onDestination := inr {| videoTracks := []; audioTracks := [4%nat] |};
     onConnectSystem := None;
     onConnectMic := None;
     onNewMediaRecorder := None;
     onRecorderStart := Some {| message := None |} |}.

(** What a start that went through leaves in the refs and of the tracks. *)
Definition startedWith (w w' : World) (ds ms dest : MediaStream) : Prop :=
  displayStreamRef (app w') = Some ds /\
  micStreamRef (app w') = Some ms /\
  mixedStreamRef (app w') =
    Some {| videoTracks := videoTracks ds; audioTracks := audioTracks dest |} /\
  audioCtxRef (app w') <> None /\
  ended (host w') = ended (host w).

(** Where the resources of the attempt that started in [w1] are, by the
    phase of its recorder. *)
Definition holding (w1 w : World) : Prop :=
  exists r,
    mediaRecorderRef (app w) = Some r /\
    match phaseOf r with
    | Stopped =>
        isRecording (app w) = false /\
        tickRef (app w) = None /\
        displayStreamRef (app w) = None /\
        micStreamRef (app w) = None /\
        mixedStreamRef (app w) = None /\
        audioCtxRef (app w) = None /\
        (list_to_set (heldTracks (app w1)) : gset nat) ⊆ ended (host w) /\
        In CloseContext (trace w)
    | ph =>
        isRecording (app w) = true /\
        (ph = Stopping -> tickRef (app w) = None) /\
        displayStreamRef (app w) = displayStreamRef (app w1) /\
        micStreamRef (app w) = micStreamRef (app w1) /\
        mixedStreamRef (app w) = mixedStreamRef (app w1) /\
        audioCtxRef (app w) = audioCtxRef (app w1)
    end.

(** The preview on screen, if there is one, is a registered object URL. *)
Definition previewLive (w : World) : Prop :=
  previewURL (app w) = "" \/ previewURL (app w) ∈ objectURLs (host w).

(** Events other than a click on Start. *)
Definition noStart (e : Event) : bool :=
  match e with
  | Start _ => false
  | _ => true
  end.

(** ** The life cycle of the page

    What ties the recording flag, the recorder, the timer handle and the
    preview together in every world a page can reach. *)
Definition lifecycle (w : World) : Prop :=
  (forall r, mediaRecorderRef (app w) = Some r ->
             is_inactive (rec_state r) = false -> stopQueued r = false) /\
  (isRecording (app w) = true -> previewURL (app w) = "") /\
  (isRecording (app w) = false ->
   tickRef (app w) = None /\
   forall r, mediaRecorderRef (app w) = Some r -> phaseOf r = Stopped).

(** The only object URL registered is the one of the preview on screen. *)
Definition onlyPreview (w : World) : Prop :=
  objectURLs (host w) =
    if truthy (previewURL (app w)) then {[previewURL (app w)]} else ∅.

Definition noDownload (e : Event) : bool :=
  match e with
  | Download => false
  | _ => true
  end.


(** ** The progress bar (lines 187 and 213)

    The ratio is computed in binary64, as JavaScript computes it. *)

(** The JavaScript number that holds an integer; exact for integers below
    2^53 in absolute value, which clock readings and durations are. *)
Definition number (z : Z) : PrimFloat.float :=
  match z with
  | Z0 => PrimFloat.zero
  | Zpos _ => PrimFloat.of_uint63 (Uint63.of_Z z)
  | Zneg _ => PrimFloat.opp (PrimFloat.of_uint63 (Uint63.of_Z (- z)))
  end.

(** [Math.min(a, b)]: NaN if either is NaN, and [-0] is below [+0]. *)
Definition Math_min (a b : PrimFloat.float) : PrimFloat.float :=
  if PrimFloat.is_nan a || PrimFloat.is_nan b then PrimFloat.nan
  else if PrimFloat.ltb a b then a
  else if PrimFloat.ltb b a then b
  else if PrimFloat.get_sign a then a else b.

(** Line 187. *)
Definition progress (c : Component) : PrimFloat.float :=
  Math_min (number 1) (PrimFloat.div (number (elapsedMs c)) (number MAX_DURATION_MS)).

(** Line 213: the number in front of the percent sign of the bar's width. *)
Definition barWidth (c : Component) : PrimFloat.float :=
  PrimFloat.mul (progress c) (number 100).

(** The component as far as the bar is concerned. *)
Definition elapsed (ms : Z) : Component := set_elapsedMs ms initialComponent.

(** What the bar shows for one elapsed time: a ratio between 0 and 1, equal
    to 1 exactly from the maximum on, and a width between 0 and 100. *)
Definition barChecks (ms : Z) : bool :=
  PrimFloat.leb (number 0) (progress (elapsed ms))
  && PrimFloat.leb (progress (elapsed ms)) (number 1)
  && Bool.eqb (PrimFloat.eqb (progress (elapsed ms)) (number 1)) (MAX_DURATION_MS <=? ms)
  && PrimFloat.leb (number 0) (barWidth (elapsed ms))
  && PrimFloat.leb (barWidth (elapsed ms)) (number 100)
  && Bool.eqb (PrimFloat.eqb (barWidth (elapsed ms)) (number 100)) (MAX_DURATION_MS <=? ms).

(** [f] holds of the [n] integers from [ms] on. *)
Fixpoint allFrom (n : nat) (ms : Z) (f : Z -> bool) : bool :=
  match n with
  | O => true
  | S k => f ms && allFrom k (ms + 1) f
  end.

(** ** The page with suspended calls of [startRecording]

    A call of [startRecording] that is waiting at an [await], with the
    local variable it holds. *)
Inductive Suspended :=
  | AtDisplay
  | AtMicrophone (displayStream : MediaStream).

(** The world together with the suspended calls, oldest first. *)
Record Page := {
  world : World;
  waiting : list Suspended }.

(** What can happen next: a click on Start, one of the two promises of the
    [k]-th suspended call settling, or an event of the list above.  [Start r]
    among those events is a click whose two promises settle before anything
    else reaches the page. *)
Inductive Turn :=
  | StartClicked
  | DisplayAnswered (k : nat) (a : Exn + MediaStream)
  | MicrophoneAnswered (k : nat) (r : Responses)
  | Meanwhile (e : Event).

Definition turn (t : Turn) (p : Page) : Page :=
  match t with
  | StartClicked =>
      match startClicked (world p) with
      | (Normal true, w) => {| world := w; waiting := waiting p ++ [AtDisplay] |}
      | (_, w) => {| world := w; waiting := waiting p |}
      end
  | DisplayAnswered k a =>
      match waiting p !! k with
      | Some AtDisplay =>
          match displayAnswered a (world p) with
          | (Normal (Some displayStream), w) =>
              {| world := w; waiting := <[k := AtMicrophone displayStream]> (waiting p) |}
          | (_, w) => {| world := w; waiting := delete k (waiting p) |}
          end
      | _ => p
      end
  | MicrophoneAnswered k r =>
      match waiting p !! k with
      | Some (AtMicrophone displayStream) =>
          {| world := exec (micAnswered r displayStream) (world p);
             waiting := delete k (waiting p) |}
      | _ => p
      end
  | Meanwhile e => {| world := step e (world p); waiting := waiting p |}
  end.

Definition play (ts : list Turn) (p : Page) : Page :=
  fold_left (fun p t => turn t p) ts p.

(** The freshly mounted page: nothing is suspended. *)
Definition mounted (b : Browser) : Page :=
  {| world := boot b; waiting := [] |}.

(** A turn that calls [startRecording]. *)
Definition startsCall (t : Turn) : bool :=
  match t with
  | StartClicked | Meanwhile (Start _) => true
  | _ => false
  end.

Definition nobodyWaiting (p : Page) : bool :=
  match waiting p with
  | [] => true
  | _ => false
  end.

(** No call of [startRecording] is made while an earlier one is still
    suspended. *)
Fixpoint serial (ts : list Turn) (p : Page) : bool :=
  match ts with
  | [] => true
  | t :: rest => (negb (startsCall t) || nobodyWaiting p) && serial rest (turn t p)
  end.

(** Every interval fires on time, and the clock never runs backwards. *)
Fixpoint timely (ts : list Turn) (p : Page) : bool :=
  match ts with
  | [] => true
  | t :: rest =>
      match t with
      | Meanwhile e => onTime e (world p)
      | _ => true
      end && timely rest (turn t p)
  end.

Definition clockwise (ts : list Turn) : bool :=
  forallb (fun t => match t with Meanwhile (Elapse d) => 0 <=? d | _ => true end) ts.

(** A second set of answers, with tracks of its own. *)
Definition everythingAgain : Responses :=
  {| onGetDisplayMedia := inr {| videoTracks := [5%nat]; audioTracks := [6%nat] |};
     onGetUserMedia := inr {| videoTracks := []; audioTracks := [7%nat] |};
     onAudioContext := inr {| closeThrows := None |};
     onSystemSource := None;
     onMicSource := None;
     onDestination := inr {| videoTracks := []; audioTracks := [8%nat] |};
     onConnectSystem := None;
     onConnectMic := None;
     onNewMediaRecorder := None;
     onRecorderStart := None |}.

(** Both intervals of two overlapped starts firing [n] times, each exactly
    one period after the last. *)
Fixpoint steadyBoth (n : nat) : list Turn :=
  match n with
  | O => []
  | S n' =>
      Meanwhile (Elapse TICK_MS) :: Meanwhile (TimerFires 1) :: Meanwhile (TimerFires 2)
      :: steadyBoth n'
  end.

(** A second click on Start while the first call waits for the microphone:
    both calls are granted everything, the first before the second. *)
Definition overlapped : list Turn :=
  [ StartClicked; DisplayAnswered 0 (onGetDisplayMedia everything);
    StartClicked;
    MicrophoneAnswered 0 everything;
    DisplayAnswered 0 (onGetDisplayMedia everythingAgain);
    MicrophoneAnswered 0 everythingAgain ].

(** One click, granted everything. *)
Definition single : list Turn :=
  [ StartClicked;
    DisplayAnswered 0 (onGetDisplayMedia everything); MicrophoneAnswered 0 everything ].

(** ** What the pieces of [startRecording] leave *)

(** The world the click leaves when the call gets past the guard. *)
Definition clicked (w : World) : World :=
  let stale := previewURL (app w) in
  record GetDisplayMedia
    (if truthy stale
     then withApp (set_previewURL "")
            (record (RevokeObjectURL stale)
               (withHost (fun b => set_objectURLs (objectURLs b ∖ {[stale]}) b)
                  (withApp (set_error "") w)))
     else withApp (set_error "") w).

(** The world the [catch] block leaves. *)
Definition refused (err : Exn) (w : World) : World :=
  withApp (set_isRecording false)
    (timerStopped
       (released (withApp (set_error (failureText err)) (record (ConsoleError err) w)))).

(** The answers of [r], with the display stream the call already holds. *)
Definition withDisplay (displayStream : MediaStream) (r : Responses) : Responses :=
  {| onGetDisplayMedia := inr displayStream;
     onGetUserMedia := onGetUserMedia r;
     onAudioContext := onAudioContext r;
     onSystemSource := onSystemSource r;
     onMicSource := onMicSource r;
     onDestination := onDestination r;
     onConnectSystem := onConnectSystem r;
     onConnectMic := onConnectMic r;
     onNewMediaRecorder := onNewMediaRecorder r;
     onRecorderStart := onRecorderStart r |}.

(** What no continuation of [startRecording] touches. *)
Definition keeps (w w' : World) : Prop :=
  previewURL (app w') = previewURL (app w) /\
  isSupported (app w') = isSupported (app w) /\
  objectURLs (host w') = objectURLs (host w) /\
  isTypeSupported (host w') = isTypeSupported (host w) /\
  hasGetDisplayMedia (host w') = hasGetDisplayMedia (host w) /\
  hasMediaRecorder (host w') = hasMediaRecorder (host w).

(** What the last continuation leaves when everything was granted, seen
    from the world [w] in which it ran. *)
Definition grantedFrom (w w' : World) (ds ms : MediaStream) (ac : AudioContext)
    (dest : MediaStream) : Prop :=
  let mimeType := pickMimeType (host w) in
  let opts := if truthy mimeType then Some mimeType else None in
  let combined := {| videoTracks := videoTracks ds; audioTracks := audioTracks dest |} in
  let id := nextHandle (host w) in
  isRecording (app w') = true /\
  mediaRecorderRef (app w') =
    Some {| rec_state := recording; stopQueued := false;
            rec_mimeType := mimeType; rec_options := opts |} /\
  chunksRef (app w') = [] /\
  displayStreamRef (app w') = Some ds /\
  micStreamRef (app w') = Some ms /\
  mixedStreamRef (app w') = Some combined /\
  audioCtxRef (app w') = Some ac /\
  tickRef (app w') = Some id /\
  elapsedMs (app w') = 0 /\
  startTimeRef (app w') = now (host w) /\
  error (app w') = error (app w) /\
  now (host w') = now (host w) /\
  intervals (host w') =
    <[id := {| period := TICK_MS; lastFired := now (host w) |}]> (intervals (host w)) /\
  trace w' =
    (SetInterval id TICK_MS :: RecorderStart :: NewMediaRecorder opts
     :: NewMediaStream combined :: Connect Microphone :: Connect SystemAudio
     :: CreateDestination :: CreateSource Microphone :: CreateSource SystemAudio
     :: NewAudioContext :: trace w)%list.

(** The three ways a continuation of [startRecording] can end. *)
Definition settles (w w' : World) : Prop :=
  keeps w w' /\
  ((exists e, refusedEarly w w' e /\ refusedFrom w w') \/
   (exists e ds ms dest, refusedLate w w' e ds ms dest /\ refusedFrom w w') \/
   (exists ds ms ac dest, grantedFrom w w' ds ms ac dest /\ startedWith w w' ds ms dest)).

(** The support flag is what the probe of the browser says. *)
Definition probed (w : World) : Prop :=
  isSupported (app w) = hasGetDisplayMedia (host w) && hasMediaRecorder (host w).

(** While a call is suspended the page is idle, shows no preview and is in
    a browser that supports recording; and no second call is suspended. *)
Definition calm (p : Page) : Prop :=
  match waiting p with
  | [] => True
  | [_] =>
      isRecording (app (world p)) = false /\
      previewURL (app (world p)) = "" /\
      isSupported (app (world p)) = true
  | _ => False
  end.

(** What holds of every page on which calls of [startRecording] do not
    overlap. *)
Definition orderly (p : Page) : Prop :=
  calm p /\ lifecycle (world p) /\ tidy (world p) /\ probed (world p).

Definition isRecorderStart (l : Label) : bool :=
  match l with RecorderStart => true | _ => false end.
Definition isRecorderStop (l : Label) : bool :=
  match l with RecorderStop => true | _ => false end.

(** A turn that is not a click on Download. *)
Definition noDownloadTurn (t : Turn) : bool :=
  match t with
  | Meanwhile e => noDownload e
  | _ => true
  end.

(** The timer handle is held exactly while the recorder in
    [mediaRecorderRef] is not inactive. *)
Definition ticking (w : World) : Prop :=
  match mediaRecorderRef (app w) with
  | Some r =>
      if is_inactive (rec_state r) then tickRef (app w) = None
      else tickRef (app w) <> None
  | None => tickRef (app w) = None
  end.

(** * Proofs *)

(** ** Symbolic execution of handlers *)

Ltac js := cbv beta iota zeta delta
  [exec mbind mret JS_bind JS_ret throw tryCatch read ask update browser emit when
   outcome mayThrow
   Date_now setInterval clearInterval newBlob createObjectURL revokeObjectURL
   trackStop contextClose onRecorder recorderStop fst snd].

Ltac proj := cbn [withApp withHost record recordAll endAll
   app host trace released
   isSupported isRecording elapsedMs previewURL error mediaRecorderRef chunksRef
   displayStreamRef micStreamRef mixedStreamRef audioCtxRef tickRef startTimeRef
   now hasGetDisplayMedia hasMediaRecorder isTypeSupported ended endedListeners
   intervals nextHandle objectURLs
   set_isSupported set_isRecording set_elapsedMs set_previewURL set_error
   set_mediaRecorderRef set_chunksRef set_displayStreamRef set_micStreamRef
   set_mixedStreamRef set_audioCtxRef set_tickRef set_startTimeRef
   set_now set_ended set_endedListeners set_intervals set_nextHandle set_objectURLs
   rec_state stopQueued rec_mimeType rec_options closeThrows period lastFired
   blob_size blob_type videoTracks audioTracks message
   onGetDisplayMedia onGetUserMedia onAudioContext onSystemSource onMicSource
   onDestination onConnectSystem onConnectMic onNewMediaRecorder onRecorderStart
   is_inactive phaseOf fmap option_fmap option_map
   negb orb andb fst snd].

Ltac proj_in H := cbn [withApp withHost record recordAll endAll
   app host trace released
   isSupported isRecording elapsedMs previewURL error mediaRecorderRef chunksRef
   displayStreamRef micStreamRef mixedStreamRef audioCtxRef tickRef startTimeRef
   now hasGetDisplayMedia hasMediaRecorder isTypeSupported ended endedListeners
   intervals nextHandle objectURLs
   set_isSupported set_isRecording set_elapsedMs set_previewURL set_error
   set_mediaRecorderRef set_chunksRef set_displayStreamRef set_micStreamRef
   set_mixedStreamRef set_audioCtxRef set_tickRef set_startTimeRef
   set_now set_ended set_endedListeners set_intervals set_nextHandle set_objectURLs
   rec_state stopQueued rec_mimeType rec_options closeThrows period lastFired
   blob_size blob_type videoTracks audioTracks message
   onGetDisplayMedia onGetUserMedia onAudioContext onSystemSource onMicSource
   onDestination onConnectSystem onConnectMic onNewMediaRecorder onRecorderStart
   is_inactive phaseOf fmap option_fmap option_map
   negb orb andb fst snd] in H.

Lemma world_eq (w w' : World) :
  app w = app w' -> host w = host w' -> trace w = trace w' -> w = w'.
Proof. destruct w, w'; cbn; congruence. Qed.

Lemma browser_eq (b b' : Browser) :
  now b = now b' ->
  hasGetDisplayMedia b = hasGetDisplayMedia b' ->
  hasMediaRecorder b = hasMediaRecorder b' ->
  isTypeSupported b = isTypeSupported b' ->
  ended b = ended b' ->
  endedListeners b = endedListeners b' ->
  intervals b = intervals b' ->
  nextHandle b = nextHandle b' ->
  objectURLs b = objectURLs b' ->
  b = b'.
Proof. destruct b, b'; cbn; intros; subst; reflexivity. Qed.

Lemma forEach_trackStop ts w :
  forEach trackStop ts w =
  (Normal tt, withHost (endAll ts) (recordAll (rev (map TrackStop ts)) w)).
Proof.
  revert w. induction ts as [|t ts IH]; intros w.
  - cbn [forEach]. js. f_equal. apply world_eq; proj; try reflexivity.
    apply browser_eq; proj; try reflexivity. set_solver.
  - cbn [forEach]. js. rewrite IH. f_equal. apply world_eq; proj; try reflexivity.
    + apply browser_eq; proj; try reflexivity. cbn. set_solver.
    + cbn. rewrite <- app_assoc. reflexivity.
Qed.

Lemma stopTracks_eq s w :
  stopTracks s w =
  (Normal tt, withHost (endAll (tracksOf s)) (recordAll (rev (map TrackStop (tracksOf s))) w)).
Proof.
  destruct s as [s|]; cbn [stopTracks tracksOf].
  - apply forEach_trackStop.
  - exact (forEach_trackStop [] w).
Qed.

Ltac go := js; proj.

Lemma component_eq (c c' : Component) :
  isSupported c = isSupported c' -> isRecording c = isRecording c' ->
  elapsedMs c = elapsedMs c' -> previewURL c = previewURL c' -> error c = error c' ->
  mediaRecorderRef c = mediaRecorderRef c' -> chunksRef c = chunksRef c' ->
  displayStreamRef c = displayStreamRef c' -> micStreamRef c = micStreamRef c' ->
  mixedStreamRef c = mixedStreamRef c' -> audioCtxRef c = audioCtxRef c' ->
  tickRef c = tickRef c' -> startTimeRef c = startTimeRef c' -> c = c'.
Proof. destruct c, c'; cbn; intros; subst; reflexivity. Qed.

(** ** Handlers that cannot throw *)

Lemma stopTimer_run w : stopTimer w = (Normal tt, timerStopped w).
Proof. unfold stopTimer, timerStopped. js. destruct (tickRef (app w)); reflexivity. Qed.

Lemma cleanupStreams_run w : cleanupStreams w = (Normal tt, released w).
Proof.
  unfold cleanupStreams, released. js. rewrite !stopTracks_eq. go.
  destruct (audioCtxRef (app w)) as [[[e|]]|] eqn:E; go; go; f_equal;
    (apply world_eq; proj;
     [ apply component_eq; proj; auto
     | apply browser_eq; proj; try reflexivity; rewrite !list_to_set_app_L; set_solver
     | cbn [List.app]; rewrite <- ?app_assoc; reflexivity ]).
Qed.

Lemma stopRecording_run w : stopRecording w = (Normal tt, stopRequested w).
Proof.
  unfold stopRecording, stopRequested. js.
  destruct (mediaRecorderRef (app w)) as [r|] eqn:E;
    [destruct (is_inactive (rec_state r))|];
    cbn [negb]; js; rewrite stopTimer_run; try reflexivity.
  do 2 f_equal. unfold withApp. proj. rewrite E. reflexivity.
Qed.

(** ** Cleanup *)

Lemma cleanup_refs w :
  displayStreamRef (app (released w)) = None /\
  micStreamRef (app (released w)) = None /\
  mixedStreamRef (app (released w)) = None /\
  audioCtxRef (app (released w)) = None.
Proof. proj. auto. Qed.

Lemma cleanup_again w :
  displayStreamRef (app w) = None -> micStreamRef (app w) = None ->
  mixedStreamRef (app w) = None -> audioCtxRef (app w) = None ->
  released w = record CleanupRun w.
Proof.
  intros Hd Hm Hx Hc. apply world_eq; proj.
  - apply component_eq; proj; auto.
  - rewrite Hd, Hm, Hx. apply browser_eq; proj; try reflexivity. set_solver.
  - rewrite Hd, Hm, Hx, Hc. reflexivity.
Qed.

(** C7.  [cleanupStreams] always completes normally, whatever has or has not
    been acquired and however [close()] behaves; afterwards the four
    per-attempt references are null; run again, it calls nothing in the
    browser and changes no field (only the mark that it ran is added). *)
Theorem cleanup_never_fails (w : World) :
  exists w',
    cleanupStreams w = (Normal tt, w') /\
    displayStreamRef (app w') = None /\
    micStreamRef (app w') = None /\
    mixedStreamRef (app w') = None /\
    audioCtxRef (app w') = None /\
    cleanupStreams w' = (Normal tt, record CleanupRun w').
Proof.
  exists (released w).
  destruct (cleanup_refs w) as (Hd & Hm & Hx & Hc).
  split; [apply cleanupStreams_run|].
  do 4 (split; [assumption|]).
  rewrite cleanupStreams_run. f_equal. apply cleanup_again; assumption.
Qed.

(** ** Start while busy or unsupported *)

Lemma start_guard w r :
  isRecording (app w) = true \/ isSupported (app w) = false ->
  exec (startRecording r) w = withApp (set_error "") w.
Proof.
  intros H. unfold startRecording. js. proj.
  destruct H as [-> | ->]; [rewrite orb_true_r|]; reflexivity.
Qed.

(** With the recording flag set, that is from line 138 of the call that
    started the recording until its stop callback, [startRecording] returns
    at the guard of line 80, before its first [await]: the recording flag,
    the elapsed time, the buffered segments and every resource reference are
    as they were, and nothing in the browser is touched. *)
Theorem start_while_recording (w : World) (r : Responses) :
  isRecording (app w) = true ->
  let w' := exec (startRecording r) w in
  isRecording (app w') = true /\
  elapsedMs (app w') = elapsedMs (app w) /\
  chunksRef (app w') = chunksRef (app w) /\
  displayStreamRef (app w') = displayStreamRef (app w) /\
  micStreamRef (app w') = micStreamRef (app w) /\
  mixedStreamRef (app w') = mixedStreamRef (app w) /\
  audioCtxRef (app w') = audioCtxRef (app w) /\
  mediaRecorderRef (app w') = mediaRecorderRef (app w) /\
  tickRef (app w') = tickRef (app w) /\
  startTimeRef (app w') = startTimeRef (app w) /\
  host w' = host w /\
  trace w' = trace w.
Proof.
  intros H w'. subst w'. rewrite start_guard by auto. proj. repeat split; auto.
Qed.

(** C10.  [startRecording] empties the error slot before it looks at its
    guard: called while recording, or in an unsupported browser, it does
    nothing else, and the warning box disappears. *)
Theorem start_always_clears_error (w : World) (r : Responses) :
  isRecording (app w) = true \/ isSupported (app w) = false ->
  let w' := exec (startRecording r) w in
  error (app w') = "" /\
  warning (render (app w')) = None /\
  w' = withApp (set_error "") w.
Proof.
  intros H w'. subst w'. rewrite start_guard by auto. proj. repeat split; auto.
Qed.

(** ** Segments *)

Lemma run_app (s1 s2 : list Event) w : run (s1 ++ s2) w = run s2 (run s1 w).
Proof. apply fold_left_app. Qed.

Lemma run_cons e s w : run (e :: s) w = run s (step e w).
Proof. reflexivity. Qed.

Lemma data_step w r d :
  mediaRecorderRef (app w) = Some r ->
  is_inactive (rec_state r) = false \/ stopQueued r = true ->
  step (DataAvailable d) w = exec (ondataavailable d) w.
Proof.
  intros Hr Hs. unfold step, handler, dataAvailable. js. rewrite Hr.
  destruct Hs as [-> | ->]; cbn [negb orb]; [reflexivity|].
  rewrite orb_true_r. reflexivity.
Qed.

Lemma ondataavailable_keeps b w :
  exec (ondataavailable (Some b)) w =
  if 0 <? blob_size b
  then withApp (fun c => set_chunksRef (chunksRef c ++ [b]) c) w
  else w.
Proof. unfold ondataavailable. js. destruct (0 <? blob_size b); reflexivity. Qed.

Lemma ondataavailable_null w : exec (ondataavailable None) w = w.
Proof. reflexivity. Qed.

Lemma emitted_chunks segs : forall w r,
  mediaRecorderRef (app w) = Some r ->
  is_inactive (rec_state r) = false \/ stopQueued r = true ->
  let w' := run (emitted segs) w in
  chunksRef (app w') =
    (chunksRef (app w) ++ List.filter (fun b => 0 <? blob_size b) segs)%list /\
  mediaRecorderRef (app w') = Some r.
Proof.
  induction segs as [|b segs IH]; intros w r Hr Hs; cbn zeta.
  - cbn. rewrite app_nil_r. auto.
  - unfold emitted. cbn [map]. rewrite run_cons, (data_step _ r) by assumption.
    rewrite ondataavailable_keeps. cbn [List.filter].
    destruct (0 <? blob_size b).
    + destruct (IH (withApp (fun c => set_chunksRef (chunksRef c ++ [b]) c) w) r)
        as [Hc Hm]; [assumption..|].
      fold (emitted segs). rewrite Hc, Hm. proj. rewrite <- app_assoc. auto.
    + apply (IH w r); assumption.
Qed.



Lemma start_while_recording_witness :
  isRecording (app recordingWorld) = true /\
  chunksRef (app (exec (startRecording everything) recordingWorld)) = [].
Proof.
  split; [reflexivity|].
  pose proof (start_while_recording recordingWorld everything eq_refl) as H.
  cbv zeta in H. destruct H as (_ & _ & H & _). rewrite H. reflexivity.
Defined.

Lemma start_always_clears_error_witness :
  error (app (exec (startRecording everything)
                (withApp (set_error "Permission denied") recordingWorld))) = "".
Proof.
  apply (start_always_clears_error
           (withApp (set_error "Permission denied") recordingWorld) everything).
  left. reflexivity.
Defined.

(** ** Counting through a handler *)

Lemma filter_stops p ts :
  (forall t, p (TrackStop t) = false) -> List.filter p (rev (map TrackStop ts)) = [].
Proof.
  intros H. induction ts as [|t ts IH]; [reflexivity|].
  cbn [map rev]. rewrite List.filter_app, IH. cbn. rewrite H. reflexivity.
Qed.

Ltac count :=
  unfold occurrences; proj;
  repeat match goal with
  | |- context [match ?x with Some _ => _ | None => _ end] => destruct x
  end;
  repeat (progress (
    cbn [List.filter length List.app isCleanup isStopCallback isNewBlob isRequest
         isTimeout isSetInterval];
    rewrite ?List.filter_app, ?length_app, ?filter_stops by reflexivity));
  try lia.

(** ** The two ways [startRecording] can end *)

Ltac failed w :=
  rewrite cleanupStreams_run; js; rewrite stopTimer_run; js;
  right; unfold refusedFrom, timerStopped; proj;
  destruct (tickRef (app w)) eqn:?; proj; repeat split; auto; count.

Ltac started ds ms ac dest :=
  left; exists ds, ms, ac, dest; unfold startedFrom, staleRevoked, pickMimeType; proj;
  repeat match goal with H : _ = _ |- _ => rewrite H end;
  repeat split; reflexivity.

Lemma start_cases w r :
  isSupported (app w) = true -> isRecording (app w) = false ->
  let w' := exec (startRecording r) w in
  (exists ds ms ac dest, startedFrom w w' ds ms ac dest) \/ refusedFrom w w'.
Proof.
  destruct r as [rd rm rc rss rms rdest rcs rcm rnr rst].
  intros Hs Hr. cbv zeta.
  unfold startRecording, startTimer. go. rewrite Hs, Hr. go. clear Hs Hr.
  destruct (truthy (previewURL (app w))) eqn:Et; go;
  (destruct rd as [e|ds]; go; [solve [failed w]|];
   destruct rm as [e|ms]; go; [solve [failed w]|];
   destruct rc as [e|ac]; go; [solve [failed w]|];
   destruct rss as [e|]; go; [solve [failed w]|];
   destruct rms as [e|]; go; [solve [failed w]|];
   destruct rdest as [e|dest]; go; [solve [failed w]|];
   destruct rcs as [e|]; go; [solve [failed w]|];
   destruct rcm as [e|]; go; [solve [failed w]|];
   destruct rnr as [e|]; go; [solve [failed w]|];
   destruct (videoTracks ds) as [|vt vts] eqn:Ev; go;
   (destruct rst as [e|]; go; [solve [failed w]|]; started ds ms ac dest)).
Qed.

(** An attempt that ends with [isRecording] set went all the way. *)
Lemma start_success w r :
  isRecording (app w) = false ->
  isRecording (app (exec (startRecording r) w)) = true ->
  exists ds ms ac dest, startedFrom w (exec (startRecording r) w) ds ms ac dest.
Proof.
  intros Hr Hok. destruct (isSupported (app w)) eqn:Hs.
  - destruct (start_cases w r Hs Hr) as [H | H]; [exact H|].
    destruct H as [H _]. congruence.
  - rewrite start_guard in Hok by auto. proj_in Hok. congruence.
Qed.

(** ** One attempt: stop requests, the stop callback, cleanup *)

Ltac simple_term x :=
  lazymatch x with
  | context [match _ with _ => _ end] => fail
  | _ => idtac
  end.

(** Run a handler symbolically, splitting on every test it makes. *)
Ltac crunch H :=
  repeat (progress (go; rewrite ?H, ?stopTimer_run, ?cleanupStreams_run; unfold timerStopped));
  try match goal with
  | |- context [is_inactive ?s] => is_var s; destruct s; crunch H
  | |- context [match ?x with Some _ => _ | None => _ end] =>
      simple_term x; destruct x eqn:?; crunch H
  | |- context [if ?b then _ else _] =>
      simple_term b; destruct b eqn:?; crunch H
  end.

Ltac finish :=
  repeat match goal with
  | x : RecordingState |- _ => destruct x
  | x : bool |- _ => destruct x
  end;
  unfold occurrences in *; cbn [phaseOf is_inactive negb rec_state stopQueued] in *; proj;
  repeat match goal with
  | H : ?a = ?a -> _ |- _ => specialize (H eq_refl)
  end;
  repeat match goal with
  | |- context [match ?x with Some _ => _ | None => _ end] => destruct x
  end;
  repeat (progress (
    cbn [List.filter length List.app isCleanup isStopCallback isNewBlob isRequest
         isTimeout isSetInterval];
    rewrite ?List.filter_app, ?length_app, ?filter_stops by reflexivity));
  repeat split; intros; try discriminate; try congruence; try lia.

Lemma attempt_step m w0 w e :
  attempt m w0 w -> attemptEvent e = true -> attempt m w0 (step e w).
Proof.
  intros (r & Hr & Hm & Hq & Hc & Hs & Hb & Hle & Hreq) He.
  unfold attempt, step, handler.
  destruct r as [st q mt op]. proj_in Hm. subst mt.
  proj_in Hq. proj_in Hc. proj_in Hs. proj_in Hb. proj_in Hreq.
  destruct e as [|resp| | |t|d|id|data|]; try discriminate He; clear He;
    unfold probe, stopRecording, trackEnded, timerFires, tick, dataAvailable,
      ondataavailable, recorderStopped, onstop, stopRecording.
  all: crunch Hr.
  all: eexists; (split; [reflexivity|]); proj.
  all: solve [finish].
Qed.

Lemma attempt_run m w0 sched : forall w,
  attempt m w0 w -> forallb attemptEvent sched = true -> attempt m w0 (run sched w).
Proof.
  induction sched as [|e sched IH]; intros w Hw Hs; [exact Hw|].
  cbn [forallb] in Hs. apply andb_prop in Hs as [He Hs].
  rewrite run_cons. apply IH; [|exact Hs]. apply attempt_step; assumption.
Qed.

Lemma attempt_started w w' ds ms ac dest :
  startedFrom w w' ds ms ac dest -> attempt (pickMimeType (host w)) w' w'.
Proof.
  intros (_ & Hr & _). eexists. split; [exact Hr|]. proj. repeat split; auto.
Qed.

(** Dispatching the queued stop event of an inactive recorder ends in
    [Stopped]; with nothing queued it changes nothing. *)
Lemma settle w r :
  mediaRecorderRef (app w) = Some r ->
  is_inactive (rec_state r) = true ->
  exists r', mediaRecorderRef (app (step RecorderStopped w)) = Some r' /\
             phaseOf r' = Stopped.
Proof.
  intros Hr Hi. destruct r as [st q mt op]. proj_in Hi.
  unfold step, handler, recorderStopped, onstop.
  destruct st; try discriminate Hi. crunch Hr.
  all: eexists; (split; [reflexivity|]); reflexivity.
Qed.



(** ** The order of calls in a successful start *)

Lemma since_added w w' added :
  trace w' = (added ++ trace w)%list -> since w w' = rev added.
Proof.
  intros H. unfold since. rewrite H, length_app.
  replace (length added + length (trace w) - length (trace w))%nat
    with (length added) by lia.
  rewrite take_app_length. reflexivity.
Qed.

Lemma start_calls (w : World) (r : Responses) :
  isRecording (app w) = false ->
  let w' := exec (startRecording r) w in
  isRecording (app w') = true ->
  exists ds dest,
    since w w' =
      (staleRevoked w ++
       [ GetDisplayMedia; GetUserMedia; NewAudioContext;
         CreateSource SystemAudio; CreateSource Microphone; CreateDestination;
         Connect SystemAudio; Connect Microphone;
         NewMediaStream {| videoTracks := videoTracks ds; audioTracks := audioTracks dest |};
         NewMediaRecorder (if truthy (pickMimeType (host w))
                           then Some (pickMimeType (host w)) else None);
         RecorderStart;
         SetInterval (nextHandle (host w)) TICK_MS ])%list.
Proof.
  intros Hidle w' Hrec.
  destruct (start_success w r Hidle Hrec) as (ds & ms & ac & dest & Hst).
  destruct Hst as (_ & _ & _ & _ & _ & _ & _ & _ & _ & _ & _ & _ & _ & _ & Htr).
  fold w' in Htr. exists ds, dest.
  set (combined := {| videoTracks := videoTracks ds; audioTracks := audioTracks dest |}) in *.
  set (opts := if truthy (pickMimeType (host w))
               then Some (pickMimeType (host w)) else None) in *.
  rewrite (since_added w w'
    ([SetInterval (nextHandle (host w)) TICK_MS; RecorderStart; NewMediaRecorder opts;
      NewMediaStream combined;
      Connect Microphone; Connect SystemAudio; CreateDestination;
      CreateSource Microphone; CreateSource SystemAudio; NewAudioContext;
      GetUserMedia; GetDisplayMedia] ++ staleRevoked w)).
  - rewrite rev_app_distr. unfold staleRevoked.
    destruct (truthy (previewURL (app w))); reflexivity.
  - rewrite Htr, <- app_assoc. reflexivity.
Qed.

(** C8.  A call of [startRecording] that ends recording made exactly these
    browser calls, in this order (after revoking a stale preview, if any):
    both sources are connected to the destination node before the combined
    stream is built, before the recorder is constructed and before it is
    started. *)
Theorem inputs_connected_before_recording (w : World) (r : Responses) :
  isRecording (app w) = false ->
  let w' := exec (startRecording r) w in
  isRecording (app w') = true ->
  exists combined opts id,
    since w w' =
      (staleRevoked w ++
       [ GetDisplayMedia; GetUserMedia; NewAudioContext;
         CreateSource SystemAudio; CreateSource Microphone; CreateDestination;
         Connect SystemAudio; Connect Microphone;
         NewMediaStream combined; NewMediaRecorder opts; RecorderStart;
         SetInterval id TICK_MS ])%list /\
    forall input,
      before (Connect input) (NewMediaStream combined) (since w w') /\
      before (Connect input) (NewMediaRecorder opts) (since w w') /\
      before (Connect input) RecorderStart (since w w').
Proof.
  intros Hidle w' Hrec.
  destruct (start_calls w r Hidle Hrec) as (ds & dest & Hs). fold w' in Hs.
  set (combined := {| videoTracks := videoTracks ds; audioTracks := audioTracks dest |}) in *.
  set (opts := if truthy (pickMimeType (host w))
               then Some (pickMimeType (host w)) else None) in *.
  exists combined, opts, (nextHandle (host w)).
  split; [exact Hs|].
  intros input. rewrite Hs.
  destruct input; repeat split.
  - exists (staleRevoked w ++ [GetDisplayMedia; GetUserMedia; NewAudioContext;
      CreateSource SystemAudio; CreateSource Microphone; CreateDestination])%list,
      [Connect Microphone]. eexists. rewrite <- app_assoc. reflexivity.
  - exists (staleRevoked w ++ [GetDisplayMedia; GetUserMedia; NewAudioContext;
      CreateSource SystemAudio; CreateSource Microphone; CreateDestination])%list,
      [Connect Microphone; NewMediaStream combined]. eexists. rewrite <- app_assoc. reflexivity.
  - exists (staleRevoked w ++ [GetDisplayMedia; GetUserMedia; NewAudioContext;
      CreateSource SystemAudio; CreateSource Microphone; CreateDestination])%list,
      [Connect Microphone; NewMediaStream combined; NewMediaRecorder opts]. eexists.
    rewrite <- app_assoc. reflexivity.
  - exists (staleRevoked w ++ [GetDisplayMedia; GetUserMedia; NewAudioContext;
      CreateSource SystemAudio; CreateSource Microphone; CreateDestination;
      Connect SystemAudio])%list, []. eexists. rewrite <- app_assoc. reflexivity.
  - exists (staleRevoked w ++ [GetDisplayMedia; GetUserMedia; NewAudioContext;
      CreateSource SystemAudio; CreateSource Microphone; CreateDestination;
      Connect SystemAudio])%list, [NewMediaStream combined]. eexists.
    rewrite <- app_assoc. reflexivity.
  - exists (staleRevoked w ++ [GetDisplayMedia; GetUserMedia; NewAudioContext;
      CreateSource SystemAudio; CreateSource Microphone; CreateDestination;
      Connect SystemAudio])%list, [NewMediaStream combined; NewMediaRecorder opts]. eexists.
    rewrite <- app_assoc. reflexivity.
Qed.

Lemma inputs_connected_before_recording_witness :
  exists combined opts id,
    since (boot (chrome 1700000000000)) recordingWorld =
      [ GetDisplayMedia; GetUserMedia; NewAudioContext;
        CreateSource SystemAudio; CreateSource Microphone; CreateDestination;
        Connect SystemAudio; Connect Microphone;
        NewMediaStream combined; NewMediaRecorder opts; RecorderStart;
        SetInterval id TICK_MS ].
Proof.
  destruct (inputs_connected_before_recording (boot (chrome 1700000000000)) everything
              eq_refl eq_refl) as (combined & opts & id & H & _).
  exists combined, opts, id. exact H.
Defined.

(** ** Format selection *)

Lemma find_first {A} (f : A -> bool) pre c post :
  List.Forall (fun x => f x = false) pre -> f c = true ->
  List.find f (pre ++ c :: post) = Some c.
Proof.
  induction pre as [|x pre IH]; intros Hpre Hc; cbn [List.app List.find].
  - rewrite Hc. reflexivity.
  - inversion Hpre as [|? ? Hx Hrest]; subst. rewrite Hx. apply IH; assumption.
Qed.

Lemma find_none {A} (f : A -> bool) l :
  List.Forall (fun x => f x = false) l -> List.find f l = None.
Proof.
  induction 1 as [|x l Hx _ IH]; cbn [List.find]; [reflexivity|].
  rewrite Hx. exact IH.
Qed.

Lemma cand_truthy c : In c cand -> truthy c = true.
Proof. cbn. intros [<- | [<- | [<- | []]]]; reflexivity. Qed.

Lemma pick_first (b : Browser) pre c post :
  cand = (pre ++ c :: post)%list ->
  List.Forall (fun x => isTypeSupported b x = false) pre ->
  isTypeSupported b c = true ->
  pickMimeType b = c.
Proof.
  intros Hsplit Hpre Hc. unfold pickMimeType.
  rewrite Hsplit, (find_first _ pre c post Hpre Hc). unfold orElse.
  rewrite cand_truthy; [reflexivity|]. rewrite Hsplit. apply in_or_app. right. left. reflexivity.
Qed.

Lemma pick_none (b : Browser) :
  List.Forall (fun x => isTypeSupported b x = false) cand -> pickMimeType b = "".
Proof. intros H. unfold pickMimeType. rewrite (find_none _ _ H). reflexivity. Qed.

(** The stop callback of a recorder whose stop is queued builds one blob
    from the buffered segments, typed by the captured [mimeType]. *)
Lemma stop_callback_blob w r :
  mediaRecorderRef (app w) = Some r -> stopQueued r = true ->
  In (NewBlob {| blob_size := totalSize (chunksRef (app w));
                 blob_type := orElse (rec_mimeType r) "video/webm" |})
     (trace (step RecorderStopped w)).
Proof.
  intros Hr Hq. destruct r as [st q mt op]. proj_in Hq. subst q.
  unfold step, handler, recorderStopped, onstop. crunch Hr.
  all: repeat (apply in_or_app; right); cbn; auto 10.
Qed.

(** C9.  [pickMimeType] answers the first candidate of the preference list
    that the browser supports, and the empty string if it supports none.
    A start that succeeds constructs the recorder with that format as its
    only option, or with no options at all when the answer is empty; and
    whenever that recorder's stop callback runs later in the attempt, the
    blob it builds is typed with the selected format, or ["video/webm"]
    when none was selected. *)
Theorem format_selection (w : World) (r : Responses) (sched : list Event) :
  isRecording (app w) = false ->
  let w1 := exec (startRecording r) w in
  isRecording (app w1) = true ->
  forallb attemptEvent sched = true ->
  let picked := pickMimeType (host w) in
  (forall pre c post,
     cand = (pre ++ c :: post)%list ->
     List.Forall (fun x => isTypeSupported (host w) x = false) pre ->
     isTypeSupported (host w) c = true ->
     picked = c) /\
  (List.Forall (fun x => isTypeSupported (host w) x = false) cand -> picked = "") /\
  In (NewMediaRecorder (if truthy picked then Some picked else None)) (since w w1) /\
  (picked = "" -> In (NewMediaRecorder None) (since w w1)) /\
  let w2 := run sched w1 in
  forall r2,
    mediaRecorderRef (app w2) = Some r2 -> stopQueued r2 = true ->
    In (NewBlob {| blob_size := totalSize (chunksRef (app w2));
                   blob_type := orElse picked "video/webm" |})
       (trace (step RecorderStopped w2)) /\
    (picked = "" ->
     In (NewBlob {| blob_size := totalSize (chunksRef (app w2));
                    blob_type := "video/webm" |})
        (trace (step RecorderStopped w2))).
Proof.
  intros Hidle w1 Hrec Hsched picked.
  split; [intros pre c post; apply pick_first|].
  split; [apply pick_none|].
  destruct (start_calls w r Hidle Hrec) as (ds & dest & Hs).
  fold w1 in Hs. fold picked in Hs.
  assert (Hnew : In (NewMediaRecorder (if truthy picked then Some picked else None))
                    (since w w1)).
  { rewrite Hs. apply in_or_app. right. cbn. auto 12. }
  split; [exact Hnew|].
  split; [intros Hp; rewrite Hp in Hnew; exact Hnew|].
  intros w2 r2 Hr2 Hq2.
  destruct (start_success w r Hidle Hrec) as (ds' & ms & ac & dest' & Hst).
  change (exec (startRecording r) w) with w1 in Hst.
  pose proof (attempt_run _ _ sched w1 (attempt_started _ _ _ _ _ _ Hst) Hsched) as H2.
  fold w2 in H2. destruct H2 as (r2' & Hr2' & Hm & _).
  rewrite Hr2 in Hr2'. injection Hr2' as <-. fold picked in Hm.
  pose proof (stop_callback_blob w2 r2 Hr2 Hq2) as Hb. rewrite Hm in Hb.
  split; [exact Hb|]. intros Hp. rewrite Hp in Hb. exact Hb.
Qed.

Lemma format_selection_witness :
  let w := boot (freshBrowser 1700000000000 true true (fun _ => false)) in
  let w1 := exec (startRecording everything) w in
  pickMimeType (host w) = "" /\ In (NewMediaRecorder None) (since w w1).
Proof.
  pose proof (format_selection
                (boot (freshBrowser 1700000000000 true true (fun _ => false)))
                everything [Stop] eq_refl eq_refl eq_refl) as H.
  cbv zeta in H. destruct H as (_ & Hnone & _ & Hopt & _).
  assert (Hp : pickMimeType
                 (host (boot (freshBrowser 1700000000000 true true (fun _ => false)))) = "")
    by (apply Hnone; repeat constructor).
  split; [exact Hp | exact (Hopt Hp)].
Defined.

(** ** An attempt without segments *)

Lemma download_nothing w :
  chunksRef (app w) = [] \/ previewURL (app w) = "" -> exec handleDownload w = w.
Proof.
  intros H. unfold handleDownload. go.
  destruct H as [-> | ->]; [rewrite orb_true_r|]; reflexivity.
Qed.

Lemma stop_callback_preview w r :
  mediaRecorderRef (app w) = Some r -> stopQueued r = true ->
  let w' := step RecorderStopped w in
  previewURL (app w') = "blob:" +:+ pretty (N.pos (nextHandle (host w))) /\
  chunksRef (app w') = chunksRef (app w).
Proof.
  intros Hr Hq. destruct r as [st q mt op]. proj_in Hq. subst q.
  unfold step, handler, recorderStopped, onstop. crunch Hr.
  all: split; reflexivity.
Qed.

(** C3, as the code has it.  When the stop callback runs with no segment
    retained it still builds a blob, of size zero, and publishes a preview
    handle for it, so the Download button is shown; what is rejected is the
    download: with no segments [handleDownload] returns at once, building
    nothing and offering no file. *)
Theorem empty_attempt (w : World) (r : MediaRecorder) :
  mediaRecorderRef (app w) = Some r ->
  stopQueued r = true ->
  chunksRef (app w) = [] ->
  let w' := step RecorderStopped w in
  In (NewBlob {| blob_size := 0; blob_type := orElse (rec_mimeType r) "video/webm" |})
     (trace w') /\
  previewURL (app w') = "blob:" +:+ pretty (N.pos (nextHandle (host w))) /\
  downloadShown (render (app w')) = true /\
  chunksRef (app w') = [] /\
  exec handleDownload w' = w'.
Proof.
  intros Hr Hq Hc w'.
  pose proof (stop_callback_blob w r Hr Hq) as Hb. rewrite Hc in Hb.
  destruct (stop_callback_preview w r Hr Hq) as [Hu Hk]. fold w' in Hb, Hu, Hk.
  rewrite Hc in Hk.
  repeat split; auto.
  - cbn [render downloadShown]. rewrite Hu. reflexivity.
  - apply download_nothing. auto.
Qed.

Lemma empty_attempt_witness :
  let w := run [Start everything; Stop] (boot (chrome 1700000000000)) in
  exec handleDownload (step RecorderStopped w) = step RecorderStopped w.
Proof.
  intros w.
  apply (empty_attempt w
    {| rec_state := inactive; stopQueued := true;
       rec_mimeType := "video/webm;codecs=vp9,opus";
       rec_options := Some "video/webm;codecs=vp9,opus" |});
    vm_compute; reflexivity.
Defined.

(** C3 as the specification words it fails on the smallest attempt there is: no
    segment was retained, yet a blob was built, a preview handle exists and
    the Download button is on screen. *)
Lemma empty_attempt_counterexample :
  chunksRef (app emptyAttempt) = [] /\
  List.filter isNewBlob (trace emptyAttempt) =
    [NewBlob {| blob_size := 0; blob_type := "video/webm;codecs=vp9,opus" |}] /\
  previewURL (app emptyAttempt) = "blob:2" /\
  downloadShown (render (app emptyAttempt)) = true.
Proof. repeat split; vm_compute; reflexivity. Qed.

(** ** The download name *)

Lemma digit_plain n :
  colonOrDot (digit n) = false /\ Ascii.eqb (digit n) "T" = false.
Proof.
  unfold digit. destruct (n mod 10) as [|p|p]; [split; reflexivity| |split; reflexivity].
  do 4 (try destruct p as [p|p|]); split; reflexivity.
Qed.

Lemma timestamp_shape t :
  0 <= YearFromTime t <= 9999 ->
  timestamp t =
    digits 4 (YearFromTime t) "" +:+ "-" +:+ digits 2 (MonthFromTime t) "" +:+ "-"
    +:+ digits 2 (DateFromTime t) "" +:+ "_" +:+ digits 2 (HourFromTime t) "" +:+ "-"
    +:+ digits 2 (MinFromTime t) "" +:+ "-" +:+ digits 2 (SecFromTime t) "".
Proof.
  intros Hy. unfold timestamp, toISOString.
  replace ((0 <=? YearFromTime t) && (YearFromTime t <=? 9999)) with true
    by (symmetry; apply andb_true_intro; split; lia).
  cbv beta iota delta [digits String.append replaceAll].
  rewrite !(proj1 (digit_plain _)).
  cbn [colonOrDot Ascii.eqb Bool.eqb orb].
  cbv beta iota delta [replaceFirst].
  rewrite !(proj2 (digit_plain _)).
  reflexivity.
Qed.

(** The date and time fields of a time value are the two-digit numbers a
    calendar shows. *)
Lemma civil_in_range days :
  let '(y, m, d) := civil days in 1 <= m <= 12 /\ 1 <= d <= 31.
Proof.
  unfold civil.
  set (z := days + 719468).
  set (era := z / 146097).
  set (doe := z - era * 146097).
  assert (Hdoe : 0 <= doe <= 146096).
  { subst doe era. pose proof (Z.mod_pos_bound z 146097 ltac:(lia)) as H.
    rewrite Z.mod_eq in H by lia. lia. }
  clearbody doe. clear z era.
  set (yoe := (doe - doe / 1460 + doe / 36524 - doe / 146096) / 365).
  set (doy := doe - (365 * yoe + yoe / 4 - yoe / 100)).
  assert (Hdoy : 0 <= doy <= 365).
  { subst doy yoe. Z.div_mod_to_equations. lia. }
  clearbody doy. clear yoe Hdoe doe.
  set (mp := (5 * doy + 2) / 153).
  assert (Hmp : 0 <= mp <= 11) by (subst mp; Z.div_mod_to_equations; lia).
  assert (Hd : 1 <= doy - (153 * mp + 2) / 5 + 1 <= 31)
    by (subst mp; Z.div_mod_to_equations; lia).
  clearbody mp.
  destruct (mp <? 10) eqn:E; [apply Z.ltb_lt in E | apply Z.ltb_ge in E]; split; lia.
Qed.

Lemma fields_in_range t :
  1 <= MonthFromTime t <= 12 /\ 1 <= DateFromTime t <= 31 /\
  0 <= HourFromTime t < 24 /\ 0 <= MinFromTime t < 60 /\ 0 <= SecFromTime t < 60.
Proof.
  pose proof (civil_in_range (Day t)) as H.
  unfold MonthFromTime, DateFromTime, HourFromTime, MinFromTime, SecFromTime.
  destruct (civil (Day t)) as [[y m] d]. cbn [fst snd].
  repeat split; try apply Z.mod_pos_bound; lia.
Qed.

(** C4, as the code has it.  A download that goes ahead offers the file as
    [recording_YYYY-MM-DD_HH-MM-SS.webm], the digits being the UTC date and
    time of the browser's clock at the moment of the click (month 01-12, day
    01-31, hour 00-23, minute and second 00-59). *)
Theorem download_name (w : World) :
  truthy (previewURL (app w)) = true ->
  chunksRef (app w) <> [] ->
  0 <= YearFromTime (now (host w)) <= 9999 ->
  let t := now (host w) in
  lastDownload (exec handleDownload w) =
    Some ("recording_"
          +:+ digits 4 (YearFromTime t) "" +:+ "-" +:+ digits 2 (MonthFromTime t) ""
          +:+ "-" +:+ digits 2 (DateFromTime t) "" +:+ "_"
          +:+ digits 2 (HourFromTime t) "" +:+ "-" +:+ digits 2 (MinFromTime t) ""
          +:+ "-" +:+ digits 2 (SecFromTime t) "" +:+ ".webm") /\
  1 <= MonthFromTime t <= 12 /\ 1 <= DateFromTime t <= 31 /\
  0 <= HourFromTime t < 24 /\ 0 <= MinFromTime t < 60 /\ 0 <= SecFromTime t < 60.
Proof.
  intros Hu Hc Hy t. split; [|apply fields_in_range].
  unfold handleDownload. go. rewrite Hu.
  destruct (chunksRef (app w)) as [|b bs] eqn:E; [congruence|].
  go. unfold lastDownload. proj. f_equal. unfold downloadName.
  rewrite (timestamp_shape _ Hy). fold t.
  cbv beta iota delta [digits String.append]. reflexivity.
Qed.

Lemma download_name_witness :
  lastDownload (exec handleDownload completedAttempt) =
    Some "recording_2023-11-14_22-13-20.webm".
Proof.
  refine (eq_trans (proj1 (download_name completedAttempt _ _ _)) _).
  - vm_compute. reflexivity.
  - vm_compute. discriminate.
  - vm_compute. split; discriminate.
  - vm_compute. reflexivity.
Defined.

(** C4 as the specification words it names the file after the moment the attempt
    completed.  Here the attempt completes at 22:13:20 and the user clicks
    Download an hour later: the file is named after 23:13:20. *)
Lemma download_name_counterexample :
  now (host completedAttempt) = 1700000000000 /\
  downloadName 1700000000000 = "recording_2023-11-14_22-13-20.webm" /\
  lastDownload (run [Elapse 3600000; Download] completedAttempt) =
    Some "recording_2023-11-14_23-13-20.webm".
Proof. repeat split; vm_compute; reflexivity. Qed.

(** ** The timer *)

Lemma timer_boot b : intervals b = ∅ -> timerInv (boot b).
Proof.
  intros Hb. unfold boot, step, handler, probe. go. unfold timerInv, occurrences. proj.
  cbn. rewrite Hb. repeat split; auto.
Qed.

Lemma timerInv_frame w w' :
  isRecording (app w') = isRecording (app w) ->
  tickRef (app w') = tickRef (app w) ->
  intervals (host w') = intervals (host w) ->
  elapsedMs (app w') = elapsedMs (app w) ->
  startTimeRef (app w') = startTimeRef (app w) ->
  occurrences isTimeout w' = occurrences isTimeout w ->
  occurrences isSetInterval w' = occurrences isSetInterval w ->
  timerInv w -> timerInv w'.
Proof. unfold timerInv. intros -> -> -> -> -> -> ->. auto. Qed.

Lemma timer_step_start w r : timerInv w -> timerInv (exec (startRecording r) w).
Proof.
  intros Hinv.
  destruct (isRecording (app w)) eqn:Hrec.
  { rewrite start_guard by auto. revert Hinv. apply timerInv_frame; reflexivity. }
  destruct (isSupported (app w)) eqn:Hsup.
  2:{ rewrite start_guard by auto. revert Hinv. apply timerInv_frame; reflexivity. }
  destruct Hinv as (Hidle & Hreg & Hcount).
  specialize (Hidle Hrec). rewrite Hidle in Hreg, Hcount. destruct Hreg as [Hiv Hel].
  destruct (start_cases w r Hsup Hrec) as [(ds & ms & ac & dest & Hst) | Hno].
  - destruct Hst as (Hr' & _ & _ & _ & _ & _ & _ & Ht' & He' & Hs' & _ & _ & _ & Hiv' & Htr').
    unfold timerInv. rewrite Ht', He', Hs', Hiv', Hiv, Hr'.
    split; [discriminate|]. split.
    + eexists. split; [apply insert_empty|]. unfold MAX_DURATION_MS. split; lia.
    + unfold occurrences in *. rewrite Htr'. unfold staleRevoked.
      destruct (truthy (previewURL (app w))); cbn in *; lia.
  - destruct Hno as (Hr' & Ht' & Hiv' & He' & Hs' & _ & Hto' & Hsi').
    unfold timerInv. rewrite Ht', He', Hiv', Hto', Hsi', Hidle, Hiv.
    repeat split; auto.
Qed.

(** Whatever ran before it, [stopTimer] leaves no interval behind, provided
    the only interval registered was the one in [tickRef]. *)
Lemma timer_timerStopped w :
  match tickRef (app w) with
  | Some id => exists iv, intervals (host w) = {[ id := iv ]}
  | None => intervals (host w) = ∅
  end ->
  elapsedMs (app w) < MAX_DURATION_MS + TICK_MS ->
  (occurrences isTimeout w <= occurrences isSetInterval w)%nat ->
  timerInv (timerStopped w).
Proof.
  intros Hreg Hel Hcount. unfold timerStopped.
  destruct (tickRef (app w)) as [id|] eqn:Et; proj.
  all: unfold timerInv; proj; rewrite ?Et.
  all: split; [reflexivity|].
  all: split; [split; [|assumption] |].
  all: try match goal with
       | H : ex _ |- _ => destruct H as [iv Hiv]; rewrite Hiv; apply delete_singleton_eq
       end.
  all: try assumption.
  all: unfold occurrences in *; proj; cbn [List.filter isTimeout isSetInterval ticks]; lia.
Qed.

(** The same world, as [timerStopped] needs it. *)
Lemma timer_ready w :
  timerInv w ->
  match tickRef (app w) with
  | Some id => exists iv, intervals (host w) = {[ id := iv ]}
  | None => intervals (host w) = ∅
  end /\
  elapsedMs (app w) < MAX_DURATION_MS + TICK_MS /\
  (occurrences isTimeout w <= occurrences isSetInterval w)%nat.
Proof.
  intros (Hidle & Hreg & Hcount). unfold TICK_MS.
  destruct (tickRef (app w)).
  - destruct Hreg as (f & Hiv & _ & ?). repeat split; eauto; lia.
  - destruct Hreg. repeat split; auto; lia.
Qed.

Lemma timer_stopRequested w :
  match tickRef (app w) with
  | Some id => exists iv, intervals (host w) = {[ id := iv ]}
  | None => intervals (host w) = ∅
  end ->
  elapsedMs (app w) < MAX_DURATION_MS + TICK_MS ->
  (occurrences isTimeout w <= occurrences isSetInterval w)%nat ->
  timerInv (stopRequested w).
Proof.
  intros Hreg Hel Hcount. unfold stopRequested.
  destruct (mediaRecorderRef (app w)) as [[[| |] q mt op]|]; proj;
    apply timer_timerStopped; proj; auto.
Qed.

Lemma timerInv_idle w w' :
  tickRef (app w) = None ->
  tickRef (app w') = None ->
  intervals (host w') = intervals (host w) ->
  elapsedMs (app w') = elapsedMs (app w) ->
  occurrences isTimeout w' = occurrences isTimeout w ->
  occurrences isSetInterval w' = occurrences isSetInterval w ->
  timerInv w -> timerInv w'.
Proof.
  unfold timerInv. intros Ht -> -> -> -> ->. rewrite Ht. intros (_ & H). auto.
Qed.

Lemma timer_fires w id :
  timerInv w -> onTime (TimerFires id) w = true -> timerInv (step (TimerFires id) w).
Proof.
  intros Hinv Hon. unfold step, handler, timerFires. go.
  cbn [onTime] in Hon.
  destruct (intervals (host w) !! id) as [iv|] eqn:Hl; go; [|exact Hinv].
  destruct Hinv as (Hidle & Hreg & Hcount).
  destruct (tickRef (app w)) as [tid|] eqn:Et.
  2:{ destruct Hreg as [Hiv _]. rewrite Hiv, lookup_empty in Hl. discriminate. }
  destruct Hreg as (fired & Hiv & Hel & Hlt).
  rewrite Hiv in Hl. apply lookup_singleton_Some in Hl as [-> <-]. proj_in Hon.
  apply Z.leb_le in Hon. unfold TICK_MS in Hon.
  unfold tick. go.
  destruct (MAX_DURATION_MS <=? now (host w) - startTimeRef (app w)) eqn:Hmax; go.
  - rewrite stopRecording_run. go. apply timer_stopRequested; proj.
    + rewrite Et, Hiv. eexists. apply insert_singleton_eq.
    + unfold TICK_MS. lia.
    + unfold occurrences in *. proj. cbn [List.filter isTimeout isSetInterval length].
      cbn [ticks] in Hcount. lia.
  - apply Z.leb_gt in Hmax. unfold timerInv. proj. rewrite Et.
    split; [exact Hidle|]. split.
    + eexists. split; [rewrite Hiv; apply insert_singleton_eq|]. split; [reflexivity|lia].
    + exact Hcount.
Qed.

Lemma timer_step w e :
  timerInv w -> onTime e w = true -> timerInv (step e w).
Proof.
  intros Hinv Hon.
  destruct e as [|resp| | |t|d|id|data|].
  - unfold step, handler, probe. go. revert Hinv. apply timerInv_frame; reflexivity.
  - apply timer_step_start. exact Hinv.
  - unfold step, handler. js. rewrite stopRecording_run. js.
    destruct (timer_ready _ Hinv) as (? & ? & ?). apply timer_stopRequested; proj; auto.
  - unfold step, handler, handleDownload. go.
    destruct (negb (truthy (previewURL (app w))) || (length (chunksRef (app w)) =? 0)%nat);
      go; revert Hinv; apply timerInv_frame; reflexivity.
  - unfold step, handler, trackEnded. go.
    destruct (hasEnded t (host w)); go; [exact Hinv|].
    destruct (isHeard t (host w)); go.
    + rewrite stopRecording_run. js.
      destruct (timer_ready _ Hinv) as (? & ? & ?). apply timer_stopRequested; proj; auto.
    + revert Hinv. apply timerInv_frame; reflexivity.
  - unfold step, handler. go. revert Hinv. apply timerInv_frame; reflexivity.
  - apply timer_fires; assumption.
  - unfold step, handler, dataAvailable, ondataavailable. go.
    destruct (mediaRecorderRef (app w)) as [r|]; go; [|exact Hinv].
    destruct (negb (is_inactive (rec_state r)) || stopQueued r); go; [|exact Hinv].
    destruct data as [b|]; go; [|exact Hinv].
    destruct (0 <? blob_size b); go; [|exact Hinv].
    revert Hinv. apply timerInv_frame; reflexivity.
  - unfold step, handler, recorderStopped, onstop. go.
    destruct (mediaRecorderRef (app w)) as [r|] eqn:Hr; go; [|exact Hinv].
    destruct (stopQueued r); go; [|exact Hinv].
    rewrite stopTimer_run. go. rewrite cleanupStreams_run. js.
    destruct (timer_ready _ Hinv) as (Hreg & Hel & Hcount).
    match goal with
    | |- context [timerStopped ?W] =>
        assert (Hst : timerInv (timerStopped W)) by (apply timer_timerStopped; proj; auto);
        assert (Hnone : tickRef (app (timerStopped W)) = None)
          by (unfold timerStopped; proj; destruct (tickRef (app w)) eqn:E; proj; auto)
    end.
    revert Hst. apply timerInv_idle; proj; auto.
    + unfold occurrences. proj.
      destruct (audioCtxRef _);
        rewrite ?List.filter_app, ?filter_stops by reflexivity; reflexivity.
    + unfold occurrences. proj.
      destruct (audioCtxRef _);
        rewrite ?List.filter_app, ?filter_stops by reflexivity; reflexivity.
Qed.

Lemma stopRequested_facts w :
  tickRef (app (stopRequested w)) = None /\
  intervals (host (stopRequested w)) =
    match tickRef (app w) with
    | Some id => delete id (intervals (host w))
    | None => intervals (host w)
    end /\
  elapsedMs (app (stopRequested w)) = elapsedMs (app w) /\
  occurrences isTimeout (stopRequested w) = occurrences isTimeout w /\
  (forall r, mediaRecorderRef (app (stopRequested w)) = Some r -> rec_state r = inactive).
Proof.
  unfold stopRequested, timerStopped.
  destruct (mediaRecorderRef (app w)) as [[[| |] q mt op]|] eqn:Hr; proj;
    (destruct (tickRef (app w)) as [id|] eqn:Et; proj;
     repeat split; auto;
     try (intros r Hr'; proj_in Hr'; rewrite ?Hr in Hr'; injection Hr' as <-; reflexivity);
     try (intros r Hr'; proj_in Hr'; rewrite ?Hr in Hr'; discriminate)).
Qed.

(** What a tick of a registered interval does to the component. *)
Lemma tick_effect w id iv :
  intervals (host w) !! id = Some iv ->
  let ms := now (host w) - startTimeRef (app w) in
  let w' := step (TimerFires id) w in
  elapsedMs (app w') = ms /\
  (MAX_DURATION_MS <= ms ->
   occurrences isTimeout w' = S (occurrences isTimeout w) /\
   tickRef (app w') = None /\
   (forall r, mediaRecorderRef (app w') = Some r -> rec_state r = inactive) /\
   intervals (host w') =
     match tickRef (app w) with
     | Some tid => delete tid (<[id := {| period := period iv; lastFired := now (host w) |}]>
                                 (intervals (host w)))
     | None => <[id := {| period := period iv; lastFired := now (host w) |}]>
                 (intervals (host w))
     end) /\
  (ms < MAX_DURATION_MS ->
   occurrences isTimeout w' = occurrences isTimeout w /\
   tickRef (app w') = tickRef (app w)).
Proof.
  intros Hl ms w'. subst w'. unfold step, handler, timerFires. go. rewrite Hl. go.
  unfold tick. go. fold ms.
  destruct (MAX_DURATION_MS <=? ms) eqn:Hmax; go.
  - apply Z.leb_le in Hmax. rewrite stopRecording_run. go.
    match goal with |- context [stopRequested ?W] =>
      destruct (stopRequested_facts W) as (Ht & Hi & He & Hc & Hr) end.
    rewrite Ht, Hi, He, Hc. proj. repeat split; auto; lia.
  - apply Z.leb_gt in Hmax. repeat split; auto; lia.
Qed.

Lemma no_interval_no_tick w id :
  intervals (host w) !! id = None -> step (TimerFires id) w = w.
Proof. intros Hl. unfold step, handler, timerFires. go. rewrite Hl. reflexivity. Qed.

(** * More of the component *)

(** ** The elapsed-time display *)

Lemma pad2_below_100 : forall n : nat,
  (n < 100)%nat ->
  padStart 2 "0" (toString (Z.of_nat n)) = digits 2 (Z.of_nat n) "".
Proof.
  intros n H.
  do 100 (destruct n as [|n]; [vm_compute; reflexivity|]).
  lia.
Qed.

Lemma pad2 (n : Z) :
  0 <= n < 100 -> padStart 2 "0" (toString n) = digits 2 n "".
Proof.
  intros H. rewrite <- (Z2Nat.id n) by lia. apply pad2_below_100. lia.
Qed.

(** X1.  Below one hundred minutes [formatTime] prints [mm:ss]: two digits
    of whole minutes, a colon, two digits of the seconds left over, always
    less than sixty. *)
Theorem formatTime_mm_ss (ms : Z) :
  0 <= ms < 6000000 ->
  formatTime ms =
    digits 2 (ms / 60000) "" +:+ ":" +:+ digits 2 (ms / 1000 mod 60) "" /\
  0 <= ms / 60000 < 100 /\ 0 <= ms / 1000 mod 60 < 60 /\
  String.length (formatTime ms) = 5%nat.
Proof.
  intros H.
  assert (Hm : ms / 1000 / 60 = ms / 60000) by (rewrite Z.div_div by lia; reflexivity).
  assert (Hmin : 0 <= ms / 60000 < 100) by (Z.div_mod_to_equations; lia).
  assert (Hsec : 0 <= ms / 1000 mod 60 < 60) by (apply Z.mod_pos_bound; lia).
  assert (Hfmt : formatTime ms =
    digits 2 (ms / 60000) "" +:+ ":" +:+ digits 2 (ms / 1000 mod 60) "").
  { unfold formatTime. cbv zeta.
    rewrite Z.rem_mod_nonneg by (Z.div_mod_to_equations; lia).
    rewrite Hm, !pad2 by lia. reflexivity. }
  repeat split; try lia; try exact Hfmt.
  rewrite Hfmt. reflexivity.
Qed.

Lemma formatTime_mm_ss_witness : formatTime 179999 = "02:59".
Proof.
  refine (eq_trans (proj1 (formatTime_mm_ss 179999 _)) _).
  - lia.
  - vm_compute. reflexivity.
Defined.

(** Like [crunch], for goals that carry no fact about the recorder. *)
Ltac crunch0 :=
  repeat (progress (go; rewrite ?stopTimer_run, ?cleanupStreams_run, ?stopRecording_run;
                    unfold timerStopped, stopRequested));
  try match goal with
  | |- context [is_inactive ?s] => is_var s; destruct s; crunch0
  | |- context [match ?x with Some _ => _ | None => _ end] =>
      simple_term x; destruct x eqn:?; crunch0
  | |- context [if ?b then _ else _] =>
      simple_term b; destruct b eqn:?; crunch0
  end.

(** What the events other than Start, a tick and the passing of time leave
    of the clock and the timer. *)
Lemma clock_frame e w :
  match e with
  | Start _ | TimerFires _ | Elapse _ => True
  | _ =>
      elapsedMs (app (step e w)) = elapsedMs (app w) /\
      startTimeRef (app (step e w)) = startTimeRef (app w) /\
      now (host (step e w)) = now (host w) /\
      (tickRef (app (step e w)) = tickRef (app w) \/ tickRef (app (step e w)) = None)
  end.
Proof.
  destruct e as [|resp| | |t|d|id|data|]; try exact I;
    unfold step, handler, probe, handleDownload, trackEnded, dataAvailable,
      ondataavailable, recorderStopped, onstop;
    crunch0; repeat split; auto.
Qed.

Lemma tick_frame w id :
  startTimeRef (app (step (TimerFires id) w)) = startTimeRef (app w) /\
  now (host (step (TimerFires id) w)) = now (host w) /\
  (tickRef (app (step (TimerFires id) w)) = tickRef (app w) \/
   tickRef (app (step (TimerFires id) w)) = None).
Proof.
  unfold step, handler, timerFires, tick. crunch0; repeat split; auto.
Qed.

Lemma clock_boot b : clockInv (boot b).
Proof.
  unfold boot, step, handler, probe, clockInv. go. cbn. split; [lia|]. intros H. congruence.
Qed.

Lemma clock_step w e :
  timerInv w -> clockInv w ->
  match e with Elapse d => 0 <= d | _ => True end ->
  clockInv (step e w).
Proof.
  intros Htimer [Hel Horigin] Hfwd.
  destruct e as [|resp| | |t|d|id|data|].
  1, 3, 4, 5, 8, 9:
    match goal with |- clockInv (step ?e ?w0) =>
      pose proof (clock_frame e w0) as (He & Hs & Hn & Ht) end;
    unfold clockInv; rewrite He, Hs, Hn; (split; [exact Hel|]);
    destruct Ht as [-> | ->]; [exact Horigin | congruence].
  - (* Start *)
    change (step (Start resp) w) with (exec (startRecording resp) w).
    destruct (isRecording (app w)) eqn:Hrec.
    { rewrite start_guard by auto. split; proj; assumption. }
    destruct (isSupported (app w)) eqn:Hsup.
    2:{ rewrite start_guard by auto. split; proj; assumption. }
    destruct (start_cases w resp Hsup Hrec) as [(ds & ms & ac & dest & Hst) | Hno].
    + destruct Hst as (_ & _ & _ & _ & _ & _ & _ & _ & He & Hs & _ & Hn & _).
      unfold clockInv. rewrite He, Hs, Hn. split; lia.
    + destruct Hno as (_ & Ht & _ & He & _).
      unfold clockInv. rewrite He, Ht. split; [exact Hel | congruence].
  - (* Elapse *)
    unfold step, handler. go. unfold clockInv. proj. split; [exact Hel|].
    intros H. specialize (Horigin H). lia.
  - (* TimerFires *)
    destruct (tick_frame w id) as (Hs & Hn & Ht).
    unfold clockInv. rewrite Hs, Hn. split.
    + destruct (intervals (host w) !! id) as [iv|] eqn:Hl.
      * destruct (tick_effect w id iv Hl) as (He & _). rewrite He.
        assert (Hsome : tickRef (app w) <> None).
        { destruct Htimer as (_ & Hreg & _). destruct (tickRef (app w)); [congruence|].
          destruct Hreg as [Hiv _]. rewrite Hiv, lookup_empty in Hl. discriminate. }
        specialize (Horigin Hsome). lia.
      * rewrite no_interval_no_tick by assumption. exact Hel.
    + destruct Ht as [-> | ->]; [exact Horigin | congruence].
Qed.

Lemma clock_run sched : forall w,
  timerInv w -> clockInv w ->
  punctual sched w = true -> forward sched = true ->
  timerInv (run sched w) /\ clockInv (run sched w).
Proof.
  induction sched as [|e sched IH]; intros w Ht Hc Hp Hf; [auto|].
  cbn [punctual] in Hp. apply andb_prop in Hp as [He Hp].
  unfold forward in Hf. cbn [forallb] in Hf. apply andb_prop in Hf as [Hd Hf].
  rewrite run_cons. apply IH; auto.
  - apply timer_step; assumption.
  - apply clock_step; auto. destruct e; auto. apply Z.leb_le. exact Hd.
Qed.

(** ** A browser without screen capture or recorder *)

Lemma dormant_step w e : dormant w -> dormant (step e w).
Proof.
  destruct w as [a h tr]. intros (Ha & Hc & Hi & Hl & Hcap). proj_in Ha. subst a.
  proj_in Hi. proj_in Hl. proj_in Hcap. unfold browserCalls in Hc. proj_in Hc.
  unfold dormant, browserCalls.
  destruct e as [|resp| | |t|d|id|data|];
    unfold step, handler, probe, startRecording, stopRecording, handleDownload,
      trackEnded, timerFires, dataAvailable, recorderStopped, stopTimer,
      initialComponent, hasEnded, isHeard; go.
  - rewrite Hcap. repeat split; auto.
  - repeat split; auto.
  - repeat split; auto.
  - repeat split; auto.
  - rewrite Hl. rewrite (bool_decide_eq_false_2 (t ∈ ∅)) by set_solver.
    destruct (bool_decide (t ∈ ended h)); go; repeat split; auto.
  - repeat split; auto.
  - rewrite Hi, lookup_empty. go. repeat split; auto.
  - repeat split; auto.
  - repeat split; auto.
Qed.

Lemma dormant_run sched : forall w, dormant w -> dormant (run sched w).
Proof.
  induction sched as [|e sched IH]; intros w H; [exact H|].
  rewrite run_cons. apply IH, dormant_step, H.
Qed.

Lemma dormant_boot b :
  hasGetDisplayMedia b && hasMediaRecorder b = false ->
  intervals b = ∅ -> endedListeners b = ∅ -> dormant (boot b).
Proof.
  intros Hcap Hi Hl. unfold boot, step, handler, probe, dormant, browserCalls. go.
  rewrite Hcap. repeat split; auto.
Qed.

(** X3.  In a browser that lacks [getDisplayMedia] or [MediaRecorder], and
    whatever reaches the page afterwards, the component stays exactly as it
    was first rendered and the page never calls into the browser: the
    notice is shown and Start, Stop and Download stay out of reach. *)
Theorem unsupported_never_acts (b : Browser) (sched : list Event) :
  hasGetDisplayMedia b && hasMediaRecorder b = false ->
  intervals b = ∅ ->
  endedListeners b = ∅ ->
  let w := run sched (boot b) in
  app w = initialComponent /\
  browserCalls w = [] /\
  unsupportedNotice (render (app w)) = true /\
  startDisabled (render (app w)) = true /\
  stopDisabled (render (app w)) = true /\
  downloadShown (render (app w)) = false.
Proof.
  intros Hcap Hi Hl w.
  assert (H : dormant w) by (apply dormant_run, dormant_boot; assumption).
  destruct H as (Ha & Hc & _). rewrite Ha. repeat split; auto.
Qed.

Lemma unsupported_never_acts_witness :
  browserCalls
    (run [Start everything; Stop; Download; TimerFires 1; RecorderStopped]
       (boot (freshBrowser 0 false true (fun _ => true)))) = [].
Proof.
  apply (unsupported_never_acts (freshBrowser 0 false true (fun _ => true))
           [Start everything; Stop; Download; TimerFires 1; RecorderStopped]);
    reflexivity.
Defined.

(** ** Stopping twice, stopping nothing, leaving the page *)

Lemma stopRecording_exec w : exec stopRecording w = stopRequested w.
Proof. unfold exec. rewrite stopRecording_run. reflexivity. Qed.

Lemma stopRequested_again w : stopRequested (stopRequested w) = stopRequested w.
Proof.
  unfold stopRequested, timerStopped.
  destruct (mediaRecorderRef (app w)) as [[[| |] q mt op]|] eqn:Hr; proj;
    destruct (tickRef (app w)) as [id|] eqn:Ht;
    repeat (progress (proj; rewrite ?Hr, ?Ht)); reflexivity.
Qed.

Lemma stopRequested_idle w :
  (forall r, mediaRecorderRef (app w) = Some r -> rec_state r = inactive) ->
  tickRef (app w) = None ->
  stopRequested w = w.
Proof.
  intros Hr Ht. unfold stopRequested, timerStopped.
  destruct (mediaRecorderRef (app w)) as [r|] eqn:E.
  - rewrite (Hr r eq_refl). proj. rewrite Ht. reflexivity.
  - rewrite Ht. reflexivity.
Qed.

(** X5.  [stopRecording] may be called again and again: a second call
    changes nothing at all, not even the trace; and on a page whose recorder
    is absent or inactive and whose timer is not running, the first call
    changes nothing either. *)
Theorem stopRecording_idempotent (w : World) :
  exec stopRecording (exec stopRecording w) = exec stopRecording w /\
  ((forall r, mediaRecorderRef (app w) = Some r -> rec_state r = inactive) ->
   tickRef (app w) = None ->
   exec stopRecording w = w).
Proof.
  rewrite !stopRecording_exec. split.
  - apply stopRequested_again.
  - apply stopRequested_idle.
Qed.

Lemma unmount_exec w : exec unmount w = stopRequested w.
Proof. unfold unmount, exec. js. rewrite stopRecording_run. reflexivity. Qed.

Lemma stopRequested_keeps w :
  objectURLs (host (stopRequested w)) = objectURLs (host w) /\
  ended (host (stopRequested w)) = ended (host w) /\
  previewURL (app (stopRequested w)) = previewURL (app w) /\
  displayStreamRef (app (stopRequested w)) = displayStreamRef (app w) /\
  micStreamRef (app (stopRequested w)) = micStreamRef (app w) /\
  mixedStreamRef (app (stopRequested w)) = mixedStreamRef (app w) /\
  audioCtxRef (app (stopRequested w)) = audioCtxRef (app w) /\
  isRecording (app (stopRequested w)) = isRecording (app w) /\
  chunksRef (app (stopRequested w)) = chunksRef (app w) /\
  occurrences isCleanup (stopRequested w) = occurrences isCleanup w.
Proof.
  unfold stopRequested, timerStopped, occurrences.
  destruct (mediaRecorderRef (app w)) as [[[| |] q mt op]|]; proj;
    destruct (tickRef (app w)) as [id|]; proj; repeat split; reflexivity.
Qed.

(** X4.  Leaving the page does what [stopRecording] does and nothing more.
    The recorder is left inactive and the timer cleared, but the preview
    handle is not revoked, even when one is on screen (the cleanup tests the
    [previewURL] of the first render, which is empty), no track is stopped
    and no stream reference is dropped: releasing them is left to the
    recorder's stop callback. *)
Theorem unmount_stops_only (w : World) :
  let w' := exec unmount w in
  w' = exec stopRecording w /\
  (forall r, mediaRecorderRef (app w') = Some r -> rec_state r = inactive) /\
  tickRef (app w') = None /\
  objectURLs (host w') = objectURLs (host w) /\
  previewURL (app w') = previewURL (app w) /\
  ended (host w') = ended (host w) /\
  displayStreamRef (app w') = displayStreamRef (app w) /\
  micStreamRef (app w') = micStreamRef (app w) /\
  mixedStreamRef (app w') = mixedStreamRef (app w) /\
  audioCtxRef (app w') = audioCtxRef (app w) /\
  occurrences isCleanup w' = occurrences isCleanup w.
Proof.
  cbv zeta. rewrite unmount_exec, stopRecording_exec.
  destruct (stopRequested_facts w) as (Ht & _ & _ & _ & Hr).
  destruct (stopRequested_keeps w) as (Hu & He & Hp & Hd & Hm & Hx & Ha & _ & _ & Hc).
  repeat split; auto.
Qed.

Lemma stopRecording_idempotent_witness :
  exec stopRecording (boot (chrome 0)) = boot (chrome 0).
Proof.
  apply (proj2 (stopRecording_idempotent (boot (chrome 0)))).
  - intros r H. vm_compute in H. discriminate.
  - reflexivity.
Defined.

Lemma unmount_stops_only_witness :
  previewURL (app completedAttempt) = "blob:2" /\
  objectURLs (host (exec unmount completedAttempt)) = objectURLs (host completedAttempt).
Proof.
  split; [vm_compute; reflexivity|].
  apply (unmount_stops_only completedAttempt).
Defined.
(** ** Downloading *)

(** The world [handleDownload] leaves when it has something to offer. *)
Lemma download_run w :
  truthy (previewURL (app w)) = true -> chunksRef (app w) <> [] ->
  let href := "blob:" +:+ pretty (N.pos (nextHandle (host w))) in
  exec handleDownload w =
    recordAll
      [AnchorClick href (downloadName (now (host w)));
       CreateObjectURL href;
       NewBlob {| blob_size := totalSize (chunksRef (app w));
                  blob_type := orElse (pickMimeType (host w)) "video/webm" |}]
      (withHost (fun b => set_nextHandle (Pos.succ (nextHandle b))
                            (set_objectURLs ({[href]} ∪ objectURLs b) b)) w).
Proof.
  intros Hp Hc. cbv zeta. unfold handleDownload. go. rewrite Hp.
  destruct (chunksRef (app w)) as [|c cs] eqn:E; [congruence|].
  cbn [length Nat.eqb negb orb]. go. reflexivity.
Qed.

Lemma handle_inj (h h' : positive) :
  "blob:" +:+ pretty (N.pos h) = "blob:" +:+ pretty (N.pos h') -> h = h'.
Proof.
  intros H. cbv beta iota delta [String.append] in H.
  injection H as H. apply pretty_N_inj in H. congruence.
Qed.

(** X6.  With a preview on screen and at least one segment retained, a
    click on Download builds one blob from the retained segments, typed
    [pickMimeType() || video/webm], registers a fresh handle for it and
    clicks a link that carries the handle and the file name of the moment;
    the component's state and refs are untouched.  No handle is revoked: the
    preview's stays valid, and a second click registers another handle,
    different from the first, for the same content, both left registered. *)
Theorem download_offers_recording (w : World) :
  truthy (previewURL (app w)) = true ->
  chunksRef (app w) <> [] ->
  let blob := {| blob_size := totalSize (chunksRef (app w));
                 blob_type := orElse (pickMimeType (host w)) "video/webm" |} in
  let href := "blob:" +:+ pretty (N.pos (nextHandle (host w))) in
  let href' := "blob:" +:+ pretty (N.pos (Pos.succ (nextHandle (host w)))) in
  let name := downloadName (now (host w)) in
  let w' := exec handleDownload w in
  let w'' := exec handleDownload w' in
  app w' = app w /\
  trace w' = AnchorClick href name :: CreateObjectURL href :: NewBlob blob :: trace w /\
  objectURLs (host w') = {[href]} ∪ objectURLs (host w) /\
  trace w'' = AnchorClick href' name :: CreateObjectURL href' :: NewBlob blob :: trace w' /\
  href' <> href /\
  objectURLs (host w'') = {[href']} ∪ ({[href]} ∪ objectURLs (host w)).
Proof.
  intros Hp Hc. cbv zeta.
  rewrite (download_run w Hp Hc).
  rewrite download_run by (proj; assumption).
  proj. repeat split; try reflexivity.
  intros H. apply handle_inj in H. lia.
Qed.

Lemma download_offers_recording_witness :
  trace (exec handleDownload completedAttempt) =
    AnchorClick "blob:3" "recording_2023-11-14_22-13-20.webm"
    :: CreateObjectURL "blob:3"
    :: NewBlob {| blob_size := 1000; blob_type := "video/webm;codecs=vp9,opus" |}
    :: trace completedAttempt.
Proof.
  refine (eq_trans (proj1 (proj2 (download_offers_recording completedAttempt _ _))) _).
  - vm_compute. reflexivity.
  - vm_compute. discriminate.
  - vm_compute. reflexivity.
Defined.
(** ** From segments to artifact *)

Lemma totalSize_app a b : totalSize (a ++ b) = totalSize a + totalSize b.
Proof.
  unfold totalSize. induction a as [|x a IH]; cbn [List.app fold_right]; lia.
Qed.

Lemma totalSize_filter segs :
  Forall (fun b => 0 <= blob_size b) segs ->
  totalSize (List.filter (fun b => 0 <? blob_size b) segs) = totalSize segs.
Proof.
  unfold totalSize. induction 1 as [|b segs Hb _ IH]; [reflexivity|].
  cbn [List.filter]. destruct (0 <? blob_size b) eqn:E; cbn [fold_right]; lia.
Qed.

Lemma emitted_attempt segs : forallb attemptEvent (emitted segs) = true.
Proof. induction segs; [reflexivity | assumption]. Qed.

Lemma stop_step w r :
  mediaRecorderRef (app w) = Some r -> is_inactive (rec_state r) = false ->
  mediaRecorderRef (app (step Stop w)) =
    Some {| rec_state := inactive; stopQueued := true;
            rec_mimeType := rec_mimeType r; rec_options := rec_options r |} /\
  chunksRef (app (step Stop w)) = chunksRef (app w).
Proof.
  intros Hr Hi. unfold step, handler. js. rewrite stopRecording_run. js.
  unfold stopRequested, timerStopped. proj. rewrite Hr, Hi. proj.
  destruct (tickRef (app w)); proj; split; reflexivity.
Qed.

(** X7.  Nothing the encoder hands over is lost.  Take an attempt that
    started, the segments that arrive while it records, a Stop, the segments
    that still arrive before the recorder's stop event, and that event: the
    one artifact built holds every segment, its size is the sum of
    their sizes, its type the format picked at the start (or [video/webm]),
    and the retained segments are the non-empty ones in arrival order. *)
Theorem artifact_holds_every_segment (w : World) (r : Responses) (segs late : list Blob) :
  isRecording (app w) = false ->
  let w1 := exec (startRecording r) w in
  isRecording (app w1) = true ->
  Forall (fun b => 0 <= blob_size b) (segs ++ late) ->
  let w2 := run (emitted segs ++ Stop :: emitted late ++ [RecorderStopped]) w1 in
  In (NewBlob {| blob_size := totalSize segs + totalSize late;
                 blob_type := orElse (pickMimeType (host w)) "video/webm" |})
     (trace w2) /\
  occurrences isNewBlob w2 = S (occurrences isNewBlob w1) /\
  chunksRef (app w2) = List.filter (fun b => 0 <? blob_size b) (segs ++ late) /\
  isRecording (app w2) = false /\
  downloadShown (render (app w2)) = true.
Proof.
  intros Hidle w1 Hrec Hsize w2.
  destruct (start_success w r Hidle Hrec) as (ds & ms & ac & dest & Hst).
  change (exec (startRecording r) w) with w1 in Hst.
  pose proof (attempt_started _ _ _ _ _ _ Hst) as Hat.
  destruct Hst as (_ & Hr1 & Hc1 & _).
  subst w2. rewrite run_app, run_cons, run_app.
  set (wA := run (emitted segs) w1).
  set (wB := step Stop wA).
  set (wC := run (emitted late) wB).
  cbn [run fold_left]. set (wD := step RecorderStopped wC).
  destruct (emitted_chunks segs w1 _ Hr1 (or_introl eq_refl)) as [HcA HrA].
  fold wA in HcA, HrA. rewrite Hc1 in HcA. cbn [List.app] in HcA.
  destruct (stop_step wA _ HrA eq_refl) as [HrB HcB]. fold wB in HrB, HcB. proj_in HrB.
  destruct (emitted_chunks late wB _ HrB (or_intror eq_refl)) as [HcC HrC].
  fold wC in HcC, HrC. rewrite HcB, HcA, <- List.filter_app in HcC.
  pose proof (stop_callback_blob wC _ HrC eq_refl) as Hblob. fold wD in Hblob.
  destruct (stop_callback_preview wC _ HrC eq_refl) as [Hurl HcD]. fold wD in Hurl, HcD.
  rewrite HcC, (totalSize_filter _ Hsize), totalSize_app in Hblob. proj_in Hblob.
  assert (HatC : attempt (pickMimeType (host w)) w1 wC).
  { unfold wC, wB, wA. rewrite <- run_cons, <- run_app.
    apply attempt_run; [exact Hat|].
    rewrite forallb_app, emitted_attempt. cbn [forallb attemptEvent andb].
    apply emitted_attempt. }
  pose proof (attempt_step _ _ _ RecorderStopped HatC eq_refl) as HatD. fold wD in HatD.
  destruct (settle wC _ HrC eq_refl) as (r3 & Hr3 & Hp3). fold wD in Hr3.
  destruct HatD as (r3' & Hr3' & _ & _ & _ & _ & Hb3 & _).
  rewrite Hr3 in Hr3'. injection Hr3' as <-. rewrite Hp3 in Hb3. cbv zeta iota in Hb3.
  split; [exact Hblob|]. split; [exact Hb3|]. split; [congruence|].
  split.
  - unfold wD, step, handler, recorderStopped, onstop. crunch HrC; reflexivity.
  - cbn [render downloadShown]. rewrite Hurl. reflexivity.
Qed.

Lemma artifact_holds_every_segment_witness :
  In (NewBlob {| blob_size := 1000 + 0 + 0 + (500 + 0);
                 blob_type := "video/webm;codecs=vp9,opus" |})
     (trace (run [DataAvailable (segment 1000); DataAvailable (segment 0); Stop;
                  DataAvailable (segment 500); RecorderStopped] recordingWorld)).
Proof.
  refine (proj1 (artifact_holds_every_segment (boot (chrome 1700000000000)) everything
    [ {| blob_size := 1000; blob_type := "video/webm;codecs=vp9,opus" |};
      {| blob_size := 0; blob_type := "video/webm;codecs=vp9,opus" |} ]
    [ {| blob_size := 500; blob_type := "video/webm;codecs=vp9,opus" |} ] _ _ _)).
  - reflexivity.
  - vm_compute. reflexivity.
  - repeat constructor; cbn; lia.
Defined.
(** ** Every way a start can end *)

Ltac find_call :=
  cbn [List.app];
  repeat first [ apply in_eq | apply in_cons | (apply in_or_app; right) ].

Ltac common Hs Ep :=
  unfold startCommon; proj; rewrite ?Hs, ?Ep; cbn [truthy];
  repeat split; try reflexivity; try discriminate; intros; find_call.

Ltac early w Hs Ep :=
  rewrite cleanupStreams_run; js; rewrite stopTimer_run; js;
  unfold timerStopped; proj; cbn [firstRefusal]; proj;
  destruct (tickRef (app w)) eqn:?; proj;
  (split; [solve [common Hs Ep]|]);
  unfold refusedEarly, heldTracks; proj; repeat split; try reflexivity; find_call.

Ltac late w Hs Ep :=
  rewrite cleanupStreams_run; js; rewrite stopTimer_run; js;
  unfold timerStopped; proj; cbn [firstRefusal]; proj;
  destruct (tickRef (app w)) eqn:?; proj;
  (split; [solve [common Hs Ep]|]);
  unfold refusedLate, listening, pickMimeType; proj; cbn [tracksOf];
  repeat match goal with H : _ = _ |- _ => rewrite H end;
  repeat split; try reflexivity; find_call.

Ltac through Hs Ep :=
  cbn [firstRefusal]; proj;
  (split; [solve [common Hs Ep]|]);
  unfold listening, startedWith; proj;
  repeat match goal with H : _ = _ |- _ => rewrite H end;
  repeat split; try reflexivity; discriminate.

Lemma start_outcomes w r :
  isSupported (app w) = true -> isRecording (app w) = false ->
  let w' := exec (startRecording r) w in
  startCommon w w' /\
  match firstRefusal r with
  | Some e => refusedEarly w w' e
  | None =>
      match onGetDisplayMedia r, onGetUserMedia r, onDestination r with
      | inr ds, inr ms, inr dest =>
          match onRecorderStart r with
          | Some e => refusedLate w w' e ds ms dest /\ listening ds w w'
          | None =>
              isRecording (app w') = true /\ listening ds w w' /\
              startedWith w w' ds ms dest
          end
      | _, _, _ => True
      end
  end.
Proof.
  destruct r as [rd rm rc rss rms rdest rcs rcm rnr rst].
  intros Hs Hr. cbv zeta.
  unfold startRecording, startTimer. go. rewrite Hs, Hr. go. clear Hr.
  destruct (previewURL (app w)) as [|c0 s0] eqn:Ep; cbn [truthy]; go;
  (destruct rd as [e|ds]; go; [solve [early w Hs Ep]|];
   destruct rm as [e|ms]; go; [solve [early w Hs Ep]|];
   destruct rc as [e|ac]; go; [solve [early w Hs Ep]|];
   destruct rss as [e|]; go; [solve [early w Hs Ep]|];
   destruct rms as [e|]; go; [solve [early w Hs Ep]|];
   destruct rdest as [e|dest]; go; [solve [early w Hs Ep]|];
   destruct rcs as [e|]; go; [solve [early w Hs Ep]|];
   destruct rcm as [e|]; go; [solve [early w Hs Ep]|];
   destruct rnr as [e|]; go; [solve [early w Hs Ep]|];
   destruct (videoTracks ds) as [|vt vts] eqn:Ev; go;
   (destruct rst as [e|]; go; [solve [late w Hs Ep]|]; through Hs Ep)).
Qed.
Lemma granted_of r :
  firstRefusal r = None -> exists ds ms dest, granted r ds ms dest.
Proof.
  intros H. unfold granted. rewrite H. revert H. unfold firstRefusal.
  destruct (onGetDisplayMedia r) as [|ds]; [discriminate|].
  destruct (onGetUserMedia r) as [|ms]; [discriminate|].
  destruct (onAudioContext r); [discriminate|].
  destruct (onSystemSource r); [discriminate|].
  destruct (onMicSource r); [discriminate|].
  destruct (onDestination r) as [|dest]; [discriminate|].
  intros _. exists ds, ms, dest. auto.
Qed.

Lemma start_early w r e :
  isSupported (app w) = true -> isRecording (app w) = false ->
  firstRefusal r = Some e ->
  startCommon w (exec (startRecording r) w) /\ refusedEarly w (exec (startRecording r) w) e.
Proof.
  intros Hs Hr He. pose proof (start_outcomes w r Hs Hr) as H. cbv zeta in H.
  rewrite He in H. exact H.
Qed.

Lemma start_late w r e ds ms dest :
  isSupported (app w) = true -> isRecording (app w) = false ->
  granted r ds ms dest -> onRecorderStart r = Some e ->
  startCommon w (exec (startRecording r) w) /\
  refusedLate w (exec (startRecording r) w) e ds ms dest /\
  listening ds w (exec (startRecording r) w).
Proof.
  intros Hs Hr (Hf & Hd & Hm & Hdest) He.
  pose proof (start_outcomes w r Hs Hr) as H. cbv zeta in H.
  rewrite Hf, Hd, Hm, Hdest, He in H. exact H.
Qed.

Lemma start_through w r ds ms dest :
  isSupported (app w) = true -> isRecording (app w) = false ->
  granted r ds ms dest -> onRecorderStart r = None ->
  startCommon w (exec (startRecording r) w) /\
  isRecording (app (exec (startRecording r) w)) = true /\
  listening ds w (exec (startRecording r) w).
Proof.
  intros Hs Hr (Hf & Hd & Hm & Hdest) He.
  pose proof (start_outcomes w r Hs Hr) as H. cbv zeta in H.
  rewrite Hf, Hd, Hm, Hdest, He in H. destruct H as (Hc & Hyes & Hl & _). auto.
Qed.

Lemma start_held w r ds ms dest :
  isSupported (app w) = true -> isRecording (app w) = false ->
  granted r ds ms dest -> onRecorderStart r = None ->
  startedWith w (exec (startRecording r) w) ds ms dest.
Proof.
  intros Hs Hr (Hf & Hd & Hm & Hdest) He.
  pose proof (start_outcomes w r Hs Hr) as H. cbv zeta in H.
  rewrite Hf, Hd, Hm, Hdest, He in H. destruct H as (_ & _ & _ & H). exact H.
Qed.

(** A start that does not end up recording was refused, early or late. *)
Lemma start_refused w r :
  isSupported (app w) = true -> isRecording (app w) = false ->
  isRecording (app (exec (startRecording r) w)) = false ->
  (exists e, firstRefusal r = Some e /\ refusedEarly w (exec (startRecording r) w) e) \/
  (exists e ds ms dest,
     granted r ds ms dest /\ onRecorderStart r = Some e /\
     refusedLate w (exec (startRecording r) w) e ds ms dest).
Proof.
  intros Hs Hr Hno. destruct (firstRefusal r) as [e|] eqn:Hf.
  - left. exists e. split; [reflexivity|]. apply start_early; assumption.
  - right. destruct (granted_of r Hf) as (ds & ms & dest & Hg).
    destruct (onRecorderStart r) as [e|] eqn:He.
    + exists e, ds, ms, dest. split; [exact Hg|]. split; [reflexivity|].
      apply (start_late w r e ds ms dest); assumption.
    + destruct (start_through w r ds ms dest Hs Hr Hg He) as (_ & Hyes & _). congruence.
Qed.

(** ** Refused starts *)

Lemma failureText_truthy e : truthy (failureText e) = true.
Proof.
  unfold failureText, orElse. destruct (message e) as [m|]; [|reflexivity].
  destruct (truthy m) eqn:E; [exact E | reflexivity].
Qed.

Lemma warning_shown c e :
  error c = failureText e -> warning (render c) = Some (failureText e).
Proof. intros H. cbn [render warning]. rewrite H, failureText_truthy. reflexivity. Qed.

(** What the events other than Start do to the recording flag and the
    resource refs: nothing, or what the stop callback does. *)
Lemma refs_frame e w :
  match e with
  | Start _ => True
  | _ =>
      (isRecording (app (step e w)) = isRecording (app w) /\
       displayStreamRef (app (step e w)) = displayStreamRef (app w) /\
       micStreamRef (app (step e w)) = micStreamRef (app w) /\
       mixedStreamRef (app (step e w)) = mixedStreamRef (app w) /\
       audioCtxRef (app (step e w)) = audioCtxRef (app w)) \/
      (isRecording (app (step e w)) = false /\
       displayStreamRef (app (step e w)) = None /\
       micStreamRef (app (step e w)) = None /\
       mixedStreamRef (app (step e w)) = None /\
       audioCtxRef (app (step e w)) = None)
  end.
Proof.
  destruct e as [|resp| | |t|d|id|data|]; try exact I;
    unfold step, handler, probe, handleDownload, trackEnded, timerFires, tick,
      dataAvailable, ondataavailable, recorderStopped, onstop;
    crunch0;
    solve [left; repeat split; reflexivity | right; repeat split; reflexivity].
Qed.

Lemma tidy_step w e : tidy w -> tidy (step e w).
Proof.
  intros Hw. destruct e as [|resp| | |t|d|id|data|].
  2:{ change (step (Start resp) w) with (exec (startRecording resp) w).
      destruct (isRecording (app w)) eqn:Hrec.
      { rewrite start_guard by auto. unfold tidy. proj. congruence. }
      destruct (isSupported (app w)) eqn:Hsup.
      2:{ rewrite start_guard by auto. unfold tidy. proj. intros _. exact (Hw Hrec). }
      intros Hidle.
      destruct (start_refused w resp Hsup Hrec Hidle)
        as [(e & _ & H) | (e & ds & ms & dest & _ & _ & H)].
      - destruct H as (_ & _ & _ & Hd & Hm & Hx & Ha & _). auto.
      - destruct H as (_ & _ & _ & _ & Hd & Hm & Hx & Ha & _). auto. }
  all: match goal with |- tidy (step ?e ?w0) =>
         pose proof (refs_frame e w0) as [(Hr & Hd & Hm & Hx & Ha) | (Hr & Hd & Hm & Hx & Ha)] end;
       unfold tidy; rewrite ?Hr, ?Hd, ?Hm, ?Hx, ?Ha; auto.
Qed.

Lemma tidy_boot b : tidy (boot b).
Proof. unfold boot, step, handler, probe, tidy. go. auto. Qed.

(** X9.  When everything is granted and [recorder.start()] itself throws,
    the streams are in the refs by then and the cleanup reaches them: every
    track of the display stream, of the microphone stream and of the mixed
    stream is ended, the audio context is closed, the refs are null, and the
    recorder left behind is inactive with no stop event queued. *)
Theorem refused_late_releases (w : World) (r : Responses) (e : Exn)
    (ds ms dest : MediaStream) :
  isSupported (app w) = true ->
  isRecording (app w) = false ->
  granted r ds ms dest ->
  onRecorderStart r = Some e ->
  let w' := exec (startRecording r) w in
  (forall t, In t (getTracks ds) \/ In t (getTracks ms) \/ In t (audioTracks dest) ->
             t ∈ ended (host w')) /\
  In CloseContext (trace w') /\
  displayStreamRef (app w') = None /\
  micStreamRef (app w') = None /\
  mixedStreamRef (app w') = None /\
  audioCtxRef (app w') = None /\
  (exists rec, mediaRecorderRef (app w') = Some rec /\
               rec_state rec = inactive /\ stopQueued rec = false) /\
  isRecording (app w') = false /\
  tickRef (app w') = None /\
  warning (render (app w')) = Some (failureText e).
Proof.
  intros Hs Hr Hg He w'.
  destruct (start_late w r e ds ms dest Hs Hr Hg He) as (_ & H & _). fold w' in H.
  destruct H as (Hrec & Herr & _ & Hclose & Hd & Hm & Hx & Ha & Hmr & _ & Hend).
  destruct (start_cases w r Hs Hr) as [(? & ? & ? & ? & Hst) | Hno];
    [destruct Hst as [Hst _]; fold w' in Hst; congruence|].
  destruct Hno as (_ & Ht & _). fold w' in Ht.
  split.
  { intros t Ht'. rewrite Hend. apply elem_of_union_l, elem_of_list_to_set.
    apply list_elem_of_In. unfold getTracks in *. cbn [videoTracks audioTracks].
    rewrite !in_app_iff in *. tauto. }
  split; [exact Hclose|].
  do 4 (split; [assumption|]).
  split; [eexists; split; [exact Hmr|]; split; reflexivity|].
  split; [exact Hrec|]. split; [exact Ht|]. apply warning_shown, Herr.
Qed.

Lemma refused_late_releases_witness :
  let w' := exec (startRecording startThrows) (boot (chrome 0)) in
  (1%nat ∈ ended (host w') /\ 3%nat ∈ ended (host w') /\ 4%nat ∈ ended (host w')) /\
  warning (render (app w')) =
    Some "Failed to start recording. Use Chrome & allow permissions.".
Proof.
  pose proof (refused_late_releases (boot (chrome 0)) startThrows {| message := None |}
    {| videoTracks := [1%nat]; audioTracks := [2%nat] |}
    {| videoTracks := []; audioTracks := [3%nat] |}
    {| videoTracks := []; audioTracks := [4%nat] |}
    eq_refl eq_refl (conj eq_refl (conj eq_refl (conj eq_refl eq_refl))) eq_refl) as H.
  cbv zeta in H. destruct H as (Hall & _ & _ & _ & _ & _ & _ & _ & _ & Hw).
  split; [|exact Hw].
  repeat split; apply Hall; cbn; auto.
Defined.

(** ** Where the resources are during an attempt *)

Ltac seek :=
  cbn [List.app];
  repeat first [ assumption | apply in_eq | apply in_cons | (apply in_or_app; right) ].

Lemma holding_step m w0 w1 w e :
  audioCtxRef (app w1) <> None ->
  attempt m w0 w -> holding w1 w -> attemptEvent e = true -> holding w1 (step e w).
Proof.
  intros Hctx (r & Hr & _ & Hq & _) (r' & Hr' & Hh) He.
  rewrite Hr in Hr'. injection Hr' as <-.
  unfold holding, step, handler.
  destruct r as [st q mt op]. proj_in Hq.
  assert (Hphase : is_inactive st = false -> q = false) by exact Hq. clear Hq.
  destruct e as [|resp| | |t|d|id|data|]; try discriminate He; clear He;
    unfold probe, stopRecording, trackEnded, timerFires, tick, dataAvailable,
      ondataavailable, recorderStopped, onstop, stopRecording.
  all: destruct st; try (rewrite (Hphase eq_refl) in *); try destruct q;
    cbn [phaseOf is_inactive negb rec_state stopQueued] in Hh;
    first [ destruct Hh as (Hrec & Ht & Hd & Hm & Hx & Ha & Hend & Hclose)
          | destruct Hh as (Hrec & Ht & Hd & Hm & Hx & Ha) ].
  all: crunch Hr.
  all: eexists; (split; [reflexivity|]); proj.
  all: repeat split; auto; try discriminate; try congruence.
  all: try solve [seek].
  all: try solve [exfalso; congruence].
  all: try solve [unfold heldTracks; rewrite <- ?Hd, <- ?Hm, <- ?Hx; set_solver].
Qed.

Lemma holding_run m w0 w1 sched : forall w,
  audioCtxRef (app w1) <> None ->
  attempt m w0 w -> holding w1 w -> forallb attemptEvent sched = true ->
  holding w1 (run sched w).
Proof.
  induction sched as [|e sched IH]; intros w Hctx Ha Hh Hs; [exact Hh|].
  cbn [forallb] in Hs. apply andb_prop in Hs as [He Hs].
  rewrite run_cons. apply IH; auto.
  - apply attempt_step; assumption.
  - apply (holding_step m w0); assumption.
Qed.

(** X12.  From the moment a start goes through until the recorder's stop
    callback has run, the page keeps what it acquired: while the recorder
    records, and while its stop event is still pending, the recording flag
    is set and the refs hold the granted streams and the audio context (with
    the timer already cleared once stop was asked).  Once the callback has
    run, every track of the display, microphone and mixed stream is ended,
    the audio context is closed, the refs are null and the flag is off:
    whatever the triggers and however they interleave. *)
Theorem resources_follow_recorder (w : World) (r : Responses)
    (ds ms dest : MediaStream) (sched : list Event) :
  isSupported (app w) = true ->
  isRecording (app w) = false ->
  granted r ds ms dest ->
  onRecorderStart r = None ->
  forallb attemptEvent sched = true ->
  let w2 := run sched (exec (startRecording r) w) in
  exists rec,
    mediaRecorderRef (app w2) = Some rec /\
    match phaseOf rec with
    | Stopped =>
        isRecording (app w2) = false /\
        tickRef (app w2) = None /\
        displayStreamRef (app w2) = None /\
        micStreamRef (app w2) = None /\
        mixedStreamRef (app w2) = None /\
        audioCtxRef (app w2) = None /\
        (forall t, In t (getTracks ds) \/ In t (getTracks ms) \/ In t (audioTracks dest) ->
                   t ∈ ended (host w2)) /\
        In CloseContext (trace w2)
    | ph =>
        isRecording (app w2) = true /\
        (ph = Stopping -> tickRef (app w2) = None) /\
        displayStreamRef (app w2) = Some ds /\
        micStreamRef (app w2) = Some ms /\
        mixedStreamRef (app w2) =
          Some {| videoTracks := videoTracks ds; audioTracks := audioTracks dest |} /\
        audioCtxRef (app w2) <> None
    end.
Proof.
  intros Hs Hr Hg Hok Hsched w2.
  set (w1 := exec (startRecording r) w) in *.
  destruct (start_through w r ds ms dest Hs Hr Hg Hok) as (_ & Hyes & _). fold w1 in Hyes.
  destruct (start_held w r ds ms dest Hs Hr Hg Hok) as (Hd & Hm & Hx & Ha & _).
  fold w1 in Hd, Hm, Hx, Ha.
  destruct (start_success w r Hr Hyes) as (ds' & ms' & ac & dest' & Hst). fold w1 in Hst.
  pose proof (attempt_started _ _ _ _ _ _ Hst) as Hat.
  assert (Hh1 : holding w1 w1).
  { destruct Hst as (_ & Hrec & _). eexists. split; [exact Hrec|].
    cbn [phaseOf is_inactive negb rec_state]. repeat split; auto. discriminate. }
  pose proof (holding_run _ _ w1 sched w1 Ha Hat Hh1 Hsched) as (rec & Hrec & Hh).
  fold w2 in Hrec, Hh. exists rec. split; [exact Hrec|].
  destruct (phaseOf rec).
  - destruct Hh as (H1 & H2 & H3 & H4 & H5 & H6). rewrite H3, H4, H5, H6.
    repeat split; auto.
  - destruct Hh as (H1 & H2 & H3 & H4 & H5 & H6). rewrite H3, H4, H5, H6.
    repeat split; auto.
  - destruct Hh as (H1 & H2 & H3 & H4 & H5 & H6 & H7 & H8).
    repeat split; auto.
    intros t Ht. apply H7. unfold heldTracks. rewrite Hd, Hm, Hx. cbn [tracksOf].
    apply elem_of_list_to_set, list_elem_of_In.
    unfold getTracks in *. cbn [videoTracks audioTracks]. rewrite !in_app_iff in *. tauto.
Qed.

Lemma resources_follow_recorder_witness :
  let w2 := run [Elapse 1000; TrackEnded 1%nat; RecorderStopped] recordingWorld in
  1%nat ∈ ended (host w2) /\ 3%nat ∈ ended (host w2) /\ 4%nat ∈ ended (host w2).
Proof.
  intros w2.
  destruct (resources_follow_recorder (boot (chrome 1700000000000)) everything
    {| videoTracks := [1%nat]; audioTracks := [2%nat] |}
    {| videoTracks := []; audioTracks := [3%nat] |}
    {| videoTracks := []; audioTracks := [4%nat] |}
    [Elapse 1000; TrackEnded 1%nat; RecorderStopped]
    eq_refl eq_refl (conj eq_refl (conj eq_refl (conj eq_refl eq_refl))) eq_refl eq_refl)
    as (rec & Hrec & H).
  change (run [Elapse 1000; TrackEnded 1%nat; RecorderStopped]
            (exec (startRecording everything) (boot (chrome 1700000000000))))
    with w2 in Hrec, H.
  assert (Hp : phaseOf rec = Stopped).
  { assert (E : mediaRecorderRef (app w2) =
                Some {| rec_state := inactive; stopQueued := false;
                        rec_mimeType := "video/webm;codecs=vp9,opus";
                        rec_options := Some "video/webm;codecs=vp9,opus" |})
      by (vm_compute; reflexivity).
    rewrite E in Hrec. injection Hrec as <-. reflexivity. }
  rewrite Hp in H. destruct H as (_ & _ & _ & _ & _ & _ & Hall & _).
  repeat split; apply Hall; cbn; auto.
Defined.
(** ** The preview on screen *)

Lemma preview_step w e : previewLive w -> previewLive (step e w).
Proof.
  intros Hw. destruct e as [|resp| | |t|d|id|data|].
  2:{ change (step (Start resp) w) with (exec (startRecording resp) w).
      destruct (isRecording (app w)) eqn:Hrec.
      { rewrite start_guard by auto. exact Hw. }
      destruct (isSupported (app w)) eqn:Hsup.
      2:{ rewrite start_guard by auto. exact Hw. }
      destruct (start_outcomes w resp Hsup Hrec) as [(Hp & _) _]. left. exact Hp. }
  all: unfold previewLive in *; unfold step, handler, probe, handleDownload, trackEnded,
         timerFires, tick, dataAvailable, ondataavailable, recorderStopped, onstop;
       crunch0;
       solve [ exact Hw
             | destruct Hw as [Hw | Hw]; [left; exact Hw | right; set_solver]
             | right; set_solver ].
Qed.

Lemma preview_run sched : forall w, previewLive w -> previewLive (run sched w).
Proof.
  induction sched as [|e sched IH]; intros w H; [exact H|].
  rewrite run_cons. apply IH, preview_step, H.
Qed.

Lemma preview_boot b : previewLive (boot b).
Proof. left. reflexivity. Qed.

(** X13.  Whatever happens on the page, whenever a preview and the Download
    button are on screen the [src] of the preview is an object URL that is
    registered and has not been revoked. *)
Theorem preview_always_valid (b : Browser) (sched : list Event) :
  let w := run sched (boot b) in
  downloadShown (render (app w)) = true ->
  previewURL (app w) ∈ objectURLs (host w).
Proof.
  intros w Hshown.
  destruct (preview_run sched (boot b) (preview_boot b)) as [H | H]; [|exact H].
  fold w in H. cbn [render downloadShown] in Hshown. rewrite H in Hshown. discriminate.
Qed.

Lemma preview_always_valid_witness :
  previewURL (app (run [Start everything; DataAvailable (segment 1000); Stop;
                        RecorderStopped; Download] (boot (chrome 1700000000000))))
    ∈ objectURLs (host (run [Start everything; DataAvailable (segment 1000); Stop;
                             RecorderStopped; Download] (boot (chrome 1700000000000)))).
Proof.
  apply (preview_always_valid (chrome 1700000000000)
           [Start everything; DataAvailable (segment 1000); Stop; RecorderStopped; Download]).
  vm_compute. reflexivity.
Defined.
(** ** The shared track ends *)

Lemma stop_step_world w : step Stop w = stopRequested (record (Requested ByUser) w).
Proof. unfold step, handler. js. rewrite stopRecording_run. reflexivity. Qed.

Lemma trackEnded_heard w t :
  t ∉ ended (host w) -> t ∈ endedListeners (host w) ->
  step (TrackEnded t) w =
    stopRequested (record (Requested ByTrackEnded)
                     (withHost (fun b => set_ended ({[t]} ∪ ended b) b) w)).
Proof.
  intros Hlive Hheard. unfold step, handler, trackEnded, hasEnded, isHeard. js.
  rewrite (bool_decide_eq_false_2 _ Hlive), (bool_decide_eq_true_2 _ Hheard).
  js. rewrite stopRecording_run. reflexivity.
Qed.

Lemma trackEnded_unheard w t :
  t ∉ endedListeners (host w) ->
  app (step (TrackEnded t) w) = app w /\ trace (step (TrackEnded t) w) = trace w.
Proof.
  intros Hno. unfold step, handler, trackEnded, hasEnded, isHeard. js.
  rewrite (bool_decide_eq_false_2 _ Hno).
  destruct (bool_decide (t ∈ ended (host w))); js; split; reflexivity.
Qed.

(** X14.  After a start that went through, the end of the first video
    track of the display stream (the user stops sharing) does to the
    component exactly what a click on Stop does: the recorder is stopped with
    its stop event queued and the timer is cleared, by the same two browser
    calls.  The end of any other track, on which no listener was
    registered, changes nothing in the component. *)
Theorem share_ending_stops (w : World) (r : Responses) (ds ms dest : MediaStream)
    (vt : nat) (rest : list nat) :
  isSupported (app w) = true ->
  isRecording (app w) = false ->
  granted r ds ms dest ->
  onRecorderStart r = None ->
  videoTracks ds = vt :: rest ->
  vt ∉ ended (host w) ->
  let w1 := exec (startRecording r) w in
  let w2 := step (TrackEnded vt) w1 in
  app w2 = app (step Stop w1) /\
  trace w2 =
    ClearInterval (nextHandle (host w)) :: RecorderStop :: Requested ByTrackEnded :: trace w1 /\
  trace (step Stop w1) =
    ClearInterval (nextHandle (host w)) :: RecorderStop :: Requested ByUser :: trace w1 /\
  (exists rec, mediaRecorderRef (app w2) = Some rec /\
               rec_state rec = inactive /\ stopQueued rec = true) /\
  tickRef (app w2) = None /\
  isRecording (app w2) = true /\
  forall t, t <> vt -> t ∉ endedListeners (host w) ->
            app (step (TrackEnded t) w1) = app w1 /\
            trace (step (TrackEnded t) w1) = trace w1.
Proof.
  intros Hs Hr Hg Hok Hv Hlive w1 w2.
  destruct (start_through w r ds ms dest Hs Hr Hg Hok) as (_ & Hyes & Hl). fold w1 in Hyes, Hl.
  destruct (start_held w r ds ms dest Hs Hr Hg Hok) as (_ & _ & _ & _ & Hend). fold w1 in Hend.
  destruct (start_success w r Hr Hyes) as (ds' & ms' & ac & dest' & Hst). fold w1 in Hst.
  destruct Hst as (_ & Hrec & _ & _ & _ & _ & _ & Htick & _).
  unfold listening in Hl. rewrite Hv in Hl.
  assert (Hlive1 : vt ∉ ended (host w1)) by (rewrite Hend; exact Hlive).
  assert (Hheard : vt ∈ endedListeners (host w1)) by (rewrite Hl; set_solver).
  unfold w2. rewrite (trackEnded_heard w1 vt Hlive1 Hheard), stop_step_world.
  unfold stopRequested, timerStopped. proj. rewrite Hrec. proj. rewrite Htick. proj.
  repeat split; try reflexivity.
  - eexists. split; [reflexivity|]. split; reflexivity.
  - exact Hyes.
  - apply trackEnded_unheard. rewrite Hl. set_solver.
  - apply trackEnded_unheard. rewrite Hl. set_solver.
Qed.

Lemma share_ending_stops_witness :
  app (step (TrackEnded 1%nat) (exec (startRecording everything) (boot (chrome 0)))) =
  app (step Stop (exec (startRecording everything) (boot (chrome 0)))).
Proof.
  refine (proj1 (share_ending_stops (boot (chrome 0)) everything
    {| videoTracks := [1%nat]; audioTracks := [2%nat] |}
    {| videoTracks := []; audioTracks := [3%nat] |}
    {| videoTracks := []; audioTracks := [4%nat] |} 1%nat []
    eq_refl eq_refl (conj eq_refl (conj eq_refl (conj eq_refl eq_refl))) eq_refl eq_refl _)).
  vm_compute. set_solver.
Defined.
(** ** What is downloaded is what is previewed *)









(** ** File names and seconds *)

Lemma digit_code n : nat_of_ascii (digit n) = Z.to_nat (48 + n mod 10).
Proof.
  unfold digit. pose proof (Z.mod_pos_bound n 10 ltac:(lia)) as H.
  destruct (n mod 10) as [|p|p]; [reflexivity| |lia].
  do 4 (try destruct p as [p|p|]); try lia; reflexivity.
Qed.

Lemma digit_inj a b : digit a = digit b -> a mod 10 = b mod 10.
Proof.
  intros H. apply (f_equal nat_of_ascii) in H. rewrite !digit_code in H.
  pose proof (Z.mod_pos_bound a 10 ltac:(lia)).
  pose proof (Z.mod_pos_bound b 10 ltac:(lia)). lia.
Qed.

Lemma digits2_inj a b :
  0 <= a < 100 -> 0 <= b < 100 -> digits 2 a "" = digits 2 b "" -> a = b.
Proof.
  intros Ha Hb H. cbv beta iota delta [digits] in H.
  injection H as H1 H0. apply digit_inj in H1, H0.
  revert H1 H0. Z.div_mod_to_equations. lia.
Qed.

Lemma digits4_inj a b :
  0 <= a < 10000 -> 0 <= b < 10000 -> digits 4 a "" = digits 4 b "" -> a = b.
Proof.
  intros Ha Hb H. cbv beta iota delta [digits] in H.
  injection H as H3 H2 H1 H0. apply digit_inj in H3, H2, H1, H0.
  revert H3 H2 H1 H0. Z.div_mod_to_equations. lia.
Qed.

(** The civil date determines the day number. *)
Lemma civil_parts days :
  exists era yoe doy mp,
    civil days =
      (yoe + era * 400 + (if (if mp <? 10 then mp + 3 else mp - 9) <=? 2 then 1 else 0),
       if mp <? 10 then mp + 3 else mp - 9,
       doy - (153 * mp + 2) / 5 + 1) /\
    0 <= yoe <= 399 /\ 0 <= mp <= 11 /\
    days = era * 146097 + (doy + (365 * yoe + yoe / 4 - yoe / 100)) - 719468.
Proof.
  unfold civil.
  set (z := days + 719468).
  set (era := z / 146097).
  set (doe := z - era * 146097).
  assert (Hdoe : 0 <= doe <= 146096).
  { subst doe era. pose proof (Z.mod_pos_bound z 146097 ltac:(lia)) as H.
    rewrite Z.mod_eq in H by lia. lia. }
  set (yoe := (doe - doe / 1460 + doe / 36524 - doe / 146096) / 365).
  set (doy := doe - (365 * yoe + yoe / 4 - yoe / 100)).
  assert (Hyoe : 0 <= yoe <= 399).
  { subst yoe. clear doy. clearbody doe. Z.div_mod_to_equations. lia. }
  assert (Hdoy : 0 <= doy <= 365).
  { subst doy yoe. clearbody doe. Z.div_mod_to_equations. lia. }
  set (mp := (5 * doy + 2) / 153).
  assert (Hmp : 0 <= mp <= 11) by (subst mp; clearbody doy; Z.div_mod_to_equations; lia).
  exists era, yoe, doy, mp. split; [reflexivity|]. split; [exact Hyoe|]. split; [exact Hmp|].
  subst doy doe z. lia.
Qed.

Lemma civil_inj d1 d2 : civil d1 = civil d2 -> d1 = d2.
Proof.
  destruct (civil_parts d1) as (e1 & y1 & o1 & m1 & -> & Hy1 & Hm1 & ->).
  destruct (civil_parts d2) as (e2 & y2 & o2 & m2 & -> & Hy2 & Hm2 & ->).
  intros H. injection H as Hy Hm Hd.
  assert (m1 = m2).
  { destruct (m1 <? 10) eqn:E1, (m2 <? 10) eqn:E2;
      rewrite ?Z.ltb_lt, ?Z.ltb_ge in *; lia. }
  subst m2. assert (o1 = o2) by lia. subst o2.
  assert (y1 + e1 * 400 = y2 + e2 * 400) by lia.
  assert (e1 = e2) by lia. subst e2. assert (y1 = y2) by lia. subst y2. reflexivity.
Qed.

(** X16.  Two downloads get the same file name exactly when they are made
    within the same second of the clock (for years 0 to 9999): the name
    forgets the milliseconds and nothing else. *)
Theorem download_names_by_second (t1 t2 : Z) :
  0 <= YearFromTime t1 <= 9999 ->
  0 <= YearFromTime t2 <= 9999 ->
  (downloadName t1 = downloadName t2 <-> t1 / 1000 = t2 / 1000).
Proof.
  intros Hy1 Hy2.
  pose proof (fields_in_range t1) as (Hm1 & Hd1 & Hh1 & Hi1 & Hs1).
  pose proof (fields_in_range t2) as (Hm2 & Hd2 & Hh2 & Hi2 & Hs2).
  unfold downloadName. rewrite (timestamp_shape t1 Hy1), (timestamp_shape t2 Hy2).
  split.
  - intros H.
    assert (Hfields :
      YearFromTime t1 = YearFromTime t2 /\ MonthFromTime t1 = MonthFromTime t2 /\
      DateFromTime t1 = DateFromTime t2 /\ HourFromTime t1 = HourFromTime t2 /\
      MinFromTime t1 = MinFromTime t2 /\ SecFromTime t1 = SecFromTime t2).
    { cbv beta iota delta [digits String.append] in H.
      injection H as Y3 Y2 Y1 Y0 M1 M0 D1 D0 H1 H0 I1 I0 S1 S0.
      repeat split.
      - apply digits4_inj; [lia..|]. cbv beta iota delta [digits]. congruence.
      - apply digits2_inj; [lia..|]. cbv beta iota delta [digits]. congruence.
      - apply digits2_inj; [lia..|]. cbv beta iota delta [digits]. congruence.
      - apply digits2_inj; [lia..|]. cbv beta iota delta [digits]. congruence.
      - apply digits2_inj; [lia..|]. cbv beta iota delta [digits]. congruence.
      - apply digits2_inj; [lia..|]. cbv beta iota delta [digits]. congruence. }
    destruct Hfields as (Ey & Em & Ed & Eh & Ei & Es).
    assert (Eday : Day t1 = Day t2).
    { apply civil_inj. unfold YearFromTime, MonthFromTime, DateFromTime in Ey, Em, Ed.
      destruct (civil (Day t1)) as [[y1 m1] d1], (civil (Day t2)) as [[y2 m2] d2].
      cbn [fst snd] in Ey, Em, Ed. congruence. }
    clear - Eday Eh Ei Es.
    unfold Day, msPerDay, HourFromTime, MinFromTime, SecFromTime in *.
    revert Eday Eh Ei Es. Z.div_mod_to_equations. lia.
  - intros H.
    assert (Eday : Day t1 = Day t2)
      by (unfold Day, msPerDay; revert H; Z.div_mod_to_equations; lia).
    assert (Eh : HourFromTime t1 = HourFromTime t2)
      by (unfold HourFromTime; revert H; clear; Z.div_mod_to_equations; lia).
    assert (Ei : MinFromTime t1 = MinFromTime t2)
      by (unfold MinFromTime; revert H; clear; Z.div_mod_to_equations; lia).
    assert (Es : SecFromTime t1 = SecFromTime t2)
      by (unfold SecFromTime; revert H; clear; Z.div_mod_to_equations; lia).
    unfold YearFromTime, MonthFromTime, DateFromTime. rewrite Eday, Eh, Ei, Es. reflexivity.
Qed.

Lemma download_names_by_second_witness :
  downloadName 1700000000000 = downloadName 1700000000999 /\
  downloadName 1700000000000 <> downloadName 1700000001000.
Proof.
  split.
  - refine (proj2 (download_names_by_second 1700000000000 1700000000999 _ _) _).
    + vm_compute. split; discriminate.
    + vm_compute. split; discriminate.
    + reflexivity.
  - intros H.
    refine (_ (proj1 (download_names_by_second 1700000000000 1700000001000 _ _) H)).
    + discriminate.
    + vm_compute. split; discriminate.
    + vm_compute. split; discriminate.
Defined.
(** ** The life cycle of the page *)

Lemma lifecycle_boot b : lifecycle (boot b).
Proof.
  unfold boot, step, handler, probe, lifecycle. go.
  repeat split; auto; try discriminate.
Qed.

Lemma lifecycle_start w r : lifecycle w -> lifecycle (exec (startRecording r) w).
Proof.
  intros (Hq & Hbusy & Hidle).
  destruct (isRecording (app w)) eqn:Hrec.
  { rewrite start_guard by auto. unfold lifecycle. proj. rewrite Hrec. auto. }
  destruct (isSupported (app w)) eqn:Hsup.
  2:{ rewrite start_guard by auto. unfold lifecycle. proj. rewrite Hrec. auto. }
  destruct (Hidle eq_refl) as [Ht Hstopped].
  destruct (start_outcomes w r Hsup Hrec) as [(Hp & _) _].
  destruct (start_cases w r Hsup Hrec) as [(ds & ms & ac & dest & Hst) | Hno].
  - destruct Hst as (Hyes & Hr & _). unfold lifecycle. rewrite Hyes, Hr.
    split; [intros ? [= <-]; reflexivity|]. split; [auto | discriminate].
  - destruct Hno as (Hoff & Htick & _).
    destruct (start_refused w r Hsup Hrec Hoff)
      as [(e & _ & H) | (e & ds & ms & dest & _ & _ & H)].
    + destruct H as (_ & _ & _ & _ & _ & _ & _ & Hr & _).
      unfold lifecycle. rewrite Hoff, Hr. split; [exact Hq|]. split; [discriminate|]. auto.
    + destruct H as (_ & _ & _ & _ & _ & _ & _ & _ & Hr & _).
      unfold lifecycle. rewrite Hoff, Hr.
      split; [intros ? [= <-]; discriminate|]. split; [discriminate|].
      intros _. split; [exact Htick|]. intros ? [= <-]. reflexivity.
Qed.

Lemma lifecycle_step w e : lifecycle w -> lifecycle (step e w).
Proof.
  intros Hw. destruct e as [|resp| | |t|d|id|data|];
    [| exact (lifecycle_start w resp Hw) | ..].
  all: destruct Hw as (Hq & Hbusy & Hidle).
  all: destruct (mediaRecorderRef (app w)) as [[st q mt op]|] eqn:Hr.
  all: destruct (isRecording (app w)) eqn:Hrec.
  all: try (specialize (Hq _ eq_refl); proj_in Hq).
  all: try (destruct (Hidle eq_refl) as [Ht Hst]; try specialize (Hst _ eq_refl)).
  all: try (pose proof (Hbusy eq_refl) as Hp).
  all: clear Hidle Hbusy.
  all: unfold lifecycle, step, handler, probe, stopRecording, handleDownload, trackEnded,
         timerFires, tick, dataAvailable, ondataavailable, recorderStopped, onstop,
         stopRecording.
  all: try (destruct st; try (rewrite (Hq eq_refl) in * ); try destruct q; try discriminate Hst).
  all: crunch Hr.
  all: proj; rewrite ?Hr, ?Hrec; proj.
  all: repeat split; intros; try discriminate; try congruence; auto.
  all: try match goal with H : Some _ = Some _ |- _ => injection H as <-; try reflexivity end.
  all: try match goal with H : is_inactive _ = false |- _ => proj_in H; discriminate H end.
Qed.

Lemma handle_truthy h : truthy ("blob:" +:+ h) = true.
Proof. reflexivity. Qed.

Lemma onlyPreview_step w e :
  lifecycle w -> onlyPreview w -> noDownload e = true -> onlyPreview (step e w).
Proof.
  intros Hw Hu He. destruct e as [|resp| | |t|d|id|data|]; try discriminate He; clear He.
  2:{ change (step (Start resp) w) with (exec (startRecording resp) w).
      destruct (isRecording (app w)) eqn:Hrec.
      { rewrite start_guard by auto. exact Hu. }
      destruct (isSupported (app w)) eqn:Hsup.
      2:{ rewrite start_guard by auto. exact Hu. }
      destruct (start_outcomes w resp Hsup Hrec) as [(Hp & _ & Ho & _) _].
      unfold onlyPreview in *. rewrite Hp, Ho, Hu. cbn [truthy].
      destruct (truthy (previewURL (app w))); set_solver. }
  all: destruct Hw as (Hq & Hbusy & Hidle).
  all: destruct (mediaRecorderRef (app w)) as [[st q mt op]|] eqn:Hr.
  all: destruct (isRecording (app w)) eqn:Hrec.
  all: try (specialize (Hq _ eq_refl); proj_in Hq).
  all: try (destruct (Hidle eq_refl) as [Ht Hst]; try specialize (Hst _ eq_refl)).
  all: try (pose proof (Hbusy eq_refl) as Hp).
  all: clear Hidle Hbusy.
  all: unfold onlyPreview in *.
  all: unfold step, handler, probe, stopRecording, trackEnded,
         timerFires, tick, dataAvailable, ondataavailable, recorderStopped, onstop,
         stopRecording.
  all: try (destruct st; try (rewrite (Hq eq_refl) in * ); try destruct q; try discriminate Hst).
  all: crunch Hr.
  all: try exact Hu.
  all: rewrite ?handle_truthy, Hu, ?Hp; cbn [truthy]; set_solver.
Qed.

(** ** The progress bar *)

Lemma allFrom_spec n : forall ms f,
  allFrom n ms f = true -> forall x, ms <= x < ms + Z.of_nat n -> f x = true.
Proof.
  induction n as [|n IH]; intros ms f H x Hx; [lia|].
  cbn [allFrom] in H. apply andb_prop in H as [H0 H].
  destruct (Z.eq_dec x ms) as [->|Hne]; [exact H0|].
  apply (IH (ms + 1) f H). lia.
Qed.

(** Every elapsed time the page can show, computed one by one. *)
Lemma bar_checked : allFrom (Z.to_nat 180251) 0 barChecks = true.
Proof. vm_compute. reflexivity. Qed.

(** X19.  In every run in which the interval fires on time and the clock
    does not run backwards, the progress ratio computed in floating point
    is between 0 and 1 and the bar's width between 0 and 100 percent; the
    bar is full exactly when the elapsed time has reached the maximum of
    three minutes. *)
Theorem progress_in_range (b : Browser) (sched : list Event) :
  intervals b = ∅ ->
  punctual sched (boot b) = true ->
  forward sched = true ->
  let c := app (run sched (boot b)) in
  PrimFloat.leb (number 0) (progress c) = true /\
  PrimFloat.leb (progress c) (number 1) = true /\
  (PrimFloat.eqb (progress c) (number 1) = true <-> MAX_DURATION_MS <= elapsedMs c) /\
  PrimFloat.leb (number 0) (barWidth c) = true /\
  PrimFloat.leb (barWidth c) (number 100) = true /\
  (PrimFloat.eqb (barWidth c) (number 100) = true <-> MAX_DURATION_MS <= elapsedMs c).
Proof.
  intros Hb Hp Hf c.
  destruct (clock_run sched (boot b) (timer_boot b Hb) (clock_boot b) Hp Hf)
    as [Ht [Hpos _]].
  fold c in Hpos.
  assert (Hup : elapsedMs c <= 180250).
  { destruct Ht as (_ & Hreg & _). fold c in Hreg.
    unfold MAX_DURATION_MS, TICK_MS in Hreg.
    destruct (tickRef c); [destruct Hreg as (f & _ & _ & ?)|destruct Hreg]; lia. }
  pose proof (allFrom_spec _ _ _ bar_checked (elapsedMs c) ltac:(lia)) as H.
  unfold barChecks in H.
  change (progress (elapsed (elapsedMs c))) with (progress c) in H.
  change (barWidth (elapsed (elapsedMs c))) with (barWidth c) in H.
  repeat (apply andb_prop in H as [H ?]).
  repeat split; try assumption.
  all: match goal with
       | E : Bool.eqb ?x ?y = true |- ?x = true -> _ =>
           apply Bool.eqb_prop in E; rewrite E; apply Z.leb_le
       | E : Bool.eqb ?x ?y = true |- _ -> ?x = true =>
           apply Bool.eqb_prop in E; rewrite E; apply Z.leb_le
       end.
Qed.

Lemma progress_in_range_witness :
  PrimFloat.eqb
    (progress (app (run (Start everything :: steady 1 720) (boot (chrome 1700000000000)))))
    (number 1) = true.
Proof.
  refine (proj2 (proj1 (proj2 (proj2
    (progress_in_range (chrome 1700000000000) (Start everything :: steady 1 720) _ _ _)))) _).
  - reflexivity.
  - vm_compute. reflexivity.
  - vm_compute. reflexivity.
  - vm_compute. discriminate.
Defined.
(** * The page with suspended calls *)

(** ** One turn or three *)

(** [startRecording] is its three pieces run back to back. *)
Lemma startRecording_pieces r w :
  exec (startRecording r) w =
  match startClicked w with
  | (Normal true, w1) =>
      match displayAnswered (onGetDisplayMedia r) w1 with
      | (Normal (Some displayStream), w2) => exec (micAnswered r displayStream) w2
      | (_, w2) => w2
      end
  | (_, w1) => w1
  end.
Proof.
  unfold startRecording, startClicked, displayAnswered, micAnswered, onGranted, onRefused.
  js. destruct (negb (isSupported (app (withApp (set_error "") w)))
                || isRecording (app (withApp (set_error "") w))); [reflexivity|].
  destruct (truthy (previewURL (app (withApp (set_error "") w)))); js;
    destruct (onGetDisplayMedia r) as [e|ds]; js;
    rewrite ?cleanupStreams_run; js; rewrite ?stopTimer_run; js; try reflexivity.
Qed.

Lemma waiting_last (l : list Suspended) x : (l ++ [x])%list !! length l = Some x.
Proof. apply list_lookup_middle. reflexivity. Qed.

Lemma waiting_none (l : list Suspended) : l !! length l = None.
Proof. apply lookup_ge_None. lia. Qed.

Lemma waiting_served (l : list Suspended) x : delete (length l) (l ++ [x])%list = l.
Proof.
  induction l as [|y l IH]; [reflexivity|]. cbn [length List.app]. cbn. f_equal. exact IH.
Qed.

Lemma waiting_moved (l : list Suspended) x y : <[length l := y]> (l ++ [x])%list = (l ++ [y])%list.
Proof.
  induction l as [|z l IH]; [reflexivity|]. cbn [length List.app]. cbn. f_equal. exact IH.
Qed.

(** The event [Start r] is a click followed at once by the two answers of
    its own call. *)
Lemma one_turn r p :
  turn (Meanwhile (Start r)) p =
  play [ StartClicked;
         DisplayAnswered (length (waiting p)) (onGetDisplayMedia r);
         MicrophoneAnswered (length (waiting p)) r ] p.
Proof.
  destruct p as [w l]. unfold play. cbn [fold_left turn world waiting].
  unfold step, handler. rewrite startRecording_pieces.
  destruct (startClicked w) as [[[|]|e] w1]; cbn [world waiting].
  - rewrite waiting_last.
    destruct (displayAnswered (onGetDisplayMedia r) w1) as [[[ds|]|e] w2]; cbn [world waiting].
    + rewrite waiting_moved, waiting_last, waiting_served. reflexivity.
    + rewrite waiting_served, waiting_none. reflexivity.
    + rewrite waiting_served, waiting_none. reflexivity.
  - rewrite waiting_none. cbn [world waiting]. rewrite waiting_none. reflexivity.
  - rewrite waiting_none. cbn [world waiting]. rewrite waiting_none. reflexivity.
Qed.
(** ** What the pieces leave *)

Lemma click_blocked w :
  isRecording (app w) = true \/ isSupported (app w) = false ->
  startClicked w = (Normal false, withApp (set_error "") w).
Proof.
  intros H. unfold startClicked. js. proj.
  destruct H as [-> | ->]; [rewrite orb_true_r|]; reflexivity.
Qed.

Lemma click_passed w :
  isSupported (app w) = true -> isRecording (app w) = false ->
  startClicked w = (Normal true, clicked w).
Proof.
  intros Hs Hr. unfold startClicked, clicked. js. proj. rewrite Hs, Hr. cbn [negb orb].
  go. cbv zeta. destruct (truthy (previewURL (app w))); go; reflexivity.
Qed.

Lemma refused_run e w : onRefused e w = (Normal tt, refused e w).
Proof.
  unfold onRefused, refused. js. rewrite cleanupStreams_run. js.
  rewrite stopTimer_run. reflexivity.
Qed.

Ltac kept := unfold keeps; proj; repeat split; reflexivity.

Ltac refusal :=
  unfold refusedFrom; proj;
  repeat match goal with H : tickRef _ = _ |- _ => rewrite H end;
  repeat split; auto; count.

Ltac settle_catch w :=
  rewrite cleanupStreams_run; js; rewrite stopTimer_run; js;
  unfold timerStopped; proj; cbn [firstRefusal withDisplay]; proj;
  destruct (tickRef (app w)) eqn:?; proj.

Ltac early_mic w :=
  settle_catch w;
  (split; [solve [kept]|]);
  (split; [|solve [refusal]]);
  unfold refusedEarly, heldTracks; proj; repeat split; try reflexivity; find_call.

Ltac late_mic w :=
  settle_catch w;
  (split; [solve [kept]|]);
  (split; [|split; [solve [refusal]|]]);
  unfold refusedLate, listening, pickMimeType; proj; cbn [tracksOf];
  repeat match goal with H : _ = _ |- _ => rewrite H end;
  repeat split; try reflexivity; find_call.

Ltac through_mic :=
  cbn [firstRefusal withDisplay]; proj;
  split; [solve [kept]|];
  unfold grantedFrom, listening, startedWith, pickMimeType; proj;
  repeat match goal with H : _ = _ |- _ => rewrite H end;
  repeat split; try reflexivity; discriminate.

Lemma mic_outcomes w r ds :
  let w' := exec (micAnswered r ds) w in
  keeps w w' /\
  match firstRefusal (withDisplay ds r) with
  | Some e => refusedEarly w w' e /\ refusedFrom w w'
  | None =>
      match onGetUserMedia r, onAudioContext r, onDestination r with
      | inr ms, inr ac, inr dest =>
          match onRecorderStart r with
          | Some e =>
              refusedLate w w' e ds ms dest /\ refusedFrom w w' /\ listening ds w w'
          | None =>
              grantedFrom w w' ds ms ac dest /\ listening ds w w' /\
              startedWith w w' ds ms dest
          end
      | _, _, _ => True
      end
  end.
Proof.
  destruct r as [rd rm rc rss rms rdest rcs rcm rnr rst].
  cbv zeta. unfold micAnswered, onGranted, onRefused, startTimer. go.
  destruct rm as [e|ms]; go; [solve [early_mic w]|];
  destruct rc as [e|ac]; go; [solve [early_mic w]|];
  destruct rss as [e|]; go; [solve [early_mic w]|];
  destruct rms as [e|]; go; [solve [early_mic w]|];
  destruct rdest as [e|dest]; go; [solve [early_mic w]|];
  destruct rcs as [e|]; go; [solve [early_mic w]|];
  destruct rcm as [e|]; go; [solve [early_mic w]|];
  destruct rnr as [e|]; go; [solve [early_mic w]|];
  destruct (videoTracks ds) as [|vt vts] eqn:Ev; go;
  (destruct rst as [e|]; go; [solve [late_mic w]|]; through_mic).
Qed.
Lemma mic_settles w r ds : settles w (exec (micAnswered r ds) w).
Proof.
  pose proof (mic_outcomes w r ds) as [Hk H]. cbv zeta in H. split; [exact Hk|].
  destruct (firstRefusal (withDisplay ds r)) as [e|] eqn:Hf.
  { left. exists e. exact H. }
  unfold firstRefusal in Hf. cbn [withDisplay onGetDisplayMedia onGetUserMedia onAudioContext
    onSystemSource onMicSource onDestination onConnectSystem onConnectMic
    onNewMediaRecorder] in Hf.
  destruct (onGetUserMedia r) as [|ms]; [discriminate|].
  destruct (onAudioContext r) as [|ac]; [discriminate|].
  destruct (onSystemSource r); [discriminate|].
  destruct (onMicSource r); [discriminate|].
  destruct (onDestination r) as [|dest]; [discriminate|].
  destruct (onRecorderStart r) as [e|].
  - right. left. exists e, ds, ms, dest. destruct H as (H1 & H2 & _). auto.
  - right. right. exists ds, ms, ac, dest. destruct H as (H1 & _ & H3). auto.
Qed.

Lemma refused_settles e w : settles w (refused e w).
Proof.
  unfold refused, timerStopped. proj. destruct (tickRef (app w)) eqn:?; proj.
  all: split; [solve [kept]|]; left; exists e; split; [|solve [refusal]].
  all: unfold refusedEarly, heldTracks; proj; repeat split; try reflexivity; find_call.
Qed.

(** ** The invariants through the pieces *)

Lemma settles_idle w w' :
  settles w w' -> isRecording (app w') = false ->
  refusedFrom w w' /\
  displayStreamRef (app w') = None /\ micStreamRef (app w') = None /\
  mixedStreamRef (app w') = None /\ audioCtxRef (app w') = None /\
  (exists e, error (app w') = failureText e /\ In (ConsoleError e) (trace w')) /\
  (mediaRecorderRef (app w') = mediaRecorderRef (app w) \/
   exists rec, mediaRecorderRef (app w') = Some rec /\ phaseOf rec = Stopped).
Proof.
  intros [_ [(e & H & Hf) | [(e & ds & ms & dest & H & Hf) | (ds & ms & ac & dest & H & _)]]] Hno.
  - destruct H as (_ & Herr & Hlog & Hd & Hm & Hx & Ha & Hr & _).
    do 5 (split; [assumption|]). split; [exists e; auto | left; exact Hr].
  - destruct H as (_ & Herr & Hlog & _ & Hd & Hm & Hx & Ha & Hr & _).
    do 5 (split; [assumption|]). split; [exists e; auto|].
    right. eexists. split; [exact Hr|]. reflexivity.
  - destruct H as (Hyes & _). congruence.
Qed.

Lemma lifecycle_settles w w' :
  settles w w' -> isRecording (app w) = false -> previewURL (app w) = "" ->
  lifecycle w -> lifecycle w'.
Proof.
  intros Hs Hidle Hp (Hq & Hbusy & Hfree).
  destruct (Hfree Hidle) as [Ht Hst].
  destruct (isRecording (app w')) eqn:Hrec.
  - destruct Hs as [(Hp' & _) [(e & H & _) | [(e & ds & ms & dest & H & _) | (ds & ms & ac & dest & H & _)]]].
    + destruct H as (Hno & _). congruence.
    + destruct H as (Hno & _). congruence.
    + destruct H as (_ & Hr & _). unfold lifecycle. rewrite Hrec, Hr, Hp', Hp.
      split; [intros ? [= <-]; reflexivity|]. split; [auto | discriminate].
  - destruct (settles_idle w w' Hs Hrec) as (Hf & _ & _ & _ & _ & _ & Hr).
    destruct Hf as (_ & Ht' & _).
    unfold lifecycle. rewrite Hrec.
    split; [|split; [discriminate|intros _; split; [exact Ht'|]]].
    + destruct Hr as [-> | (rec & -> & Hph)]; [exact Hq|].
      intros ? [= <-] Hact. unfold phaseOf in Hph. rewrite Hact in Hph. discriminate.
    + destruct Hr as [-> | (rec & -> & Hph)]; [exact Hst|]. intros ? [= <-]. exact Hph.
Qed.

Lemma tidy_settles w w' : settles w w' -> tidy w'.
Proof.
  intros Hs Hno. destruct (settles_idle w w' Hs Hno) as (_ & Hd & Hm & Hx & Ha & _). auto.
Qed.

Lemma probed_settles w w' : settles w w' -> probed w -> probed w'.
Proof.
  intros [(_ & Hs & _ & _ & Hg & Hm) _]. unfold probed. rewrite Hs, Hg, Hm. auto.
Qed.

Lemma timer_settles w w' :
  settles w w' -> isRecording (app w) = false -> timerInv w -> timerInv w'.
Proof.
  intros Hs Hrec Hinv.
  destruct Hinv as (Hidle & Hreg & Hcount).
  specialize (Hidle Hrec). rewrite Hidle in Hreg, Hcount. destruct Hreg as [Hiv Hel].
  assert (Hno : refusedFrom w w' -> timerInv w').
  { intros (Hr' & Ht' & Hiv' & He' & Hs' & _ & Hto' & Hsi').
    unfold timerInv. rewrite Ht', He', Hiv', Hto', Hsi', Hidle, Hiv.
    repeat split; auto. }
  destruct Hs as [_ [(e & _ & Hf) | [(e & ds & ms & dest & _ & Hf) | (ds & ms & ac & dest & Hst & _)]]];
    [auto | auto |].
  destruct Hst as (Hr' & _ & _ & _ & _ & _ & _ & Ht' & He' & Hs' & _ & _ & Hiv' & Htr').
  unfold timerInv. rewrite Ht', He', Hs', Hiv', Hiv, Hr'.
  split; [discriminate|]. split.
  - eexists. split; [apply insert_empty|]. unfold MAX_DURATION_MS. split; lia.
  - unfold occurrences in *. rewrite Htr'. cbn in *. lia.
Qed.

Lemma clock_settles w w' :
  settles w w' -> clockInv w -> clockInv w'.
Proof.
  intros Hs [Hel Horigin].
  assert (Hno : refusedFrom w w' -> clockInv w').
  { intros (_ & Ht & _ & He & _). unfold clockInv. rewrite He, Ht.
    split; [exact Hel | congruence]. }
  destruct Hs as [_ [(e & _ & Hf) | [(e & ds & ms & dest & _ & Hf) | (ds & ms & ac & dest & Hst & _)]]];
    [auto | auto |].
  destruct Hst as (_ & _ & _ & _ & _ & _ & _ & _ & He & Hs & _ & Hn & _).
  unfold clockInv. rewrite He, Hs, Hn. split; lia.
Qed.

Lemma onlyPreview_settles w w' : settles w w' -> onlyPreview w -> onlyPreview w'.
Proof.
  intros [(Hp & _ & Ho & _) _]. unfold onlyPreview. rewrite Hp, Ho. auto.
Qed.

(** The click. *)
Lemma clicked_fields w :
  isRecording (app (clicked w)) = isRecording (app w) /\
  isSupported (app (clicked w)) = isSupported (app w) /\
  previewURL (app (clicked w)) = "" /\
  error (app (clicked w)) = "" /\
  mediaRecorderRef (app (clicked w)) = mediaRecorderRef (app w) /\
  chunksRef (app (clicked w)) = chunksRef (app w) /\
  displayStreamRef (app (clicked w)) = displayStreamRef (app w) /\
  micStreamRef (app (clicked w)) = micStreamRef (app w) /\
  mixedStreamRef (app (clicked w)) = mixedStreamRef (app w) /\
  audioCtxRef (app (clicked w)) = audioCtxRef (app w) /\
  tickRef (app (clicked w)) = tickRef (app w) /\
  elapsedMs (app (clicked w)) = elapsedMs (app w) /\
  startTimeRef (app (clicked w)) = startTimeRef (app w) /\
  now (host (clicked w)) = now (host w) /\
  intervals (host (clicked w)) = intervals (host w) /\
  ended (host (clicked w)) = ended (host w) /\
  hasGetDisplayMedia (host (clicked w)) = hasGetDisplayMedia (host w) /\
  hasMediaRecorder (host (clicked w)) = hasMediaRecorder (host w) /\
  objectURLs (host (clicked w)) =
    (if truthy (previewURL (app w))
     then objectURLs (host w) ∖ {[previewURL (app w)]} else objectURLs (host w)) /\
  trace (clicked w) = (GetDisplayMedia :: staleRevoked w ++ trace w)%list.
Proof.
  unfold clicked, staleRevoked. cbv zeta.
  destruct (previewURL (app w)) as [|c s] eqn:E; cbn [truthy]; proj;
    rewrite ?E; repeat split; reflexivity.
Qed.
(** ** Pages on which calls do not overlap *)

Lemma probed_step e w : probed w -> probed (step e w).
Proof.
  intros Hp. destruct e as [|resp| | |t|d|id|data|].
  2:{ change (step (Start resp) w) with (exec (startRecording resp) w).
      rewrite startRecording_pieces.
      destruct (isRecording (app w)) eqn:Hrec.
      { rewrite click_blocked by auto. exact Hp. }
      destruct (isSupported (app w)) eqn:Hsup.
      2:{ rewrite click_blocked by auto. exact Hp. }
      rewrite click_passed by assumption.
      assert (Hc : probed (clicked w)).
      { destruct (clicked_fields w) as (_ & Hs & _ & _ & _ & _ & _ & _ & _ & _ & _ & _ & _
          & _ & _ & _ & Hg & Hm & _). unfold probed. rewrite Hs, Hg, Hm. exact Hp. }
      unfold displayAnswered. destruct (onGetDisplayMedia resp) as [e|ds]; js.
      - rewrite refused_run. apply (probed_settles _ _ (refused_settles e _) Hc).
      - apply (probed_settles _ _ (mic_settles _ resp ds)). exact Hc. }
  all: unfold probed in *; unfold step, handler, probe, handleDownload, trackEnded,
         timerFires, tick, dataAvailable, ondataavailable, recorderStopped, onstop;
       crunch0; solve [exact Hp | reflexivity].
Qed.

(** What an event other than Start leaves of an idle page. *)
Lemma idle_frame e w :
  noStart e = true -> lifecycle w -> probed w -> isRecording (app w) = false ->
  isRecording (app (step e w)) = false /\
  previewURL (app (step e w)) = previewURL (app w) /\
  isSupported (app (step e w)) = isSupported (app w).
Proof.
  intros He (Hq & _ & Hidle) Hp Hrec.
  destruct (Hidle Hrec) as [Ht Hst]. clear Hidle.
  destruct e as [|resp| | |t|d|id|data|]; try discriminate He; clear He.
  all: destruct (mediaRecorderRef (app w)) as [[st q mt op]|] eqn:Hr.
  all: try (specialize (Hq _ eq_refl); proj_in Hq).
  all: try specialize (Hst _ eq_refl).
  all: unfold probed in Hp.
  all: unfold step, handler, probe, stopRecording, handleDownload, trackEnded,
         timerFires, tick, dataAvailable, ondataavailable, recorderStopped, onstop,
         stopRecording.
  all: try (destruct st; try (rewrite (Hq eq_refl) in * ); try destruct q; try discriminate Hst).
  all: crunch Hr.
  all: repeat split; auto.
Qed.

Lemma lifecycle_clicked w : lifecycle w -> lifecycle (clicked w).
Proof.
  intros (Hq & Hbusy & Hidle).
  destruct (clicked_fields w) as (Hr & _ & Hp & _ & Hm & _ & _ & _ & _ & _ & Ht & _).
  unfold lifecycle. rewrite Hr, Hp, Hm, Ht. auto.
Qed.

Lemma tidy_clicked w : tidy w -> tidy (clicked w).
Proof.
  intros H.
  destruct (clicked_fields w) as (Hr & _ & _ & _ & _ & _ & Hd & Hm & Hx & Ha & _).
  unfold tidy. rewrite Hr, Hd, Hm, Hx, Ha. exact H.
Qed.

Lemma probed_clicked w : probed w -> probed (clicked w).
Proof.
  intros H.
  destruct (clicked_fields w) as (_ & Hs & _ & _ & _ & _ & _ & _ & _ & _ & _ & _ & _
    & _ & _ & _ & Hg & Hm & _).
  unfold probed. rewrite Hs, Hg, Hm. exact H.
Qed.

Lemma orderly_mounted b : orderly (mounted b).
Proof.
  split; [exact I|]. split; [apply lifecycle_boot|]. split; [apply tidy_boot|].
  unfold probed, mounted, boot, step, handler, probe. go. reflexivity.
Qed.

Lemma nobody_waiting p : nobodyWaiting p = true -> waiting p = [].
Proof. unfold nobodyWaiting. destruct (waiting p); [reflexivity | discriminate]. Qed.

(** The one call that can be suspended on an orderly page. *)
Lemma orderly_waiting p k x :
  orderly p -> waiting p !! k = Some x ->
  waiting p = [x] /\ k = 0%nat /\
  isRecording (app (world p)) = false /\
  previewURL (app (world p)) = "" /\
  isSupported (app (world p)) = true.
Proof.
  intros (Hc & _) Hk. unfold calm in Hc.
  destruct (waiting p) as [|y [|z l]]; [discriminate | | contradiction].
  destruct k as [|k]; [|discriminate]. injection Hk as ->. tauto.
Qed.

Lemma orderly_turn t p :
  orderly p -> negb (startsCall t) || nobodyWaiting p = true -> orderly (turn t p).
Proof.
  intros Ho Hserial. pose proof Ho as (Hc & Hl & Ht & Hp).
  destruct t as [|k a|k r|e].
  - (* a click *)
    cbn [startsCall negb orb] in Hserial. apply nobody_waiting in Hserial.
    cbn [turn]. rewrite Hserial.
    destruct (isRecording (app (world p))) eqn:Hrec;
      [|destruct (isSupported (app (world p))) eqn:Hsup].
    + rewrite click_blocked by auto. split; [exact I|]. auto.
    + rewrite click_passed by assumption.
      destruct (clicked_fields (world p)) as (Hr' & Hs' & Hp' & _).
      split; [|split; [apply lifecycle_clicked, Hl|split; [apply tidy_clicked, Ht|
               apply probed_clicked, Hp]]].
      unfold calm. cbn [waiting world List.app]. rewrite Hr', Hs', Hp'. auto.
    + rewrite click_blocked by auto. split; [exact I|]. auto.
  - (* the display promise *)
    cbn [turn]. destruct (waiting p !! k) as [[|ds]|] eqn:Hk; try exact Ho.
    destruct (orderly_waiting p k _ Ho Hk) as (Hw & -> & Hrec & Hprev & Hsup).
    unfold displayAnswered. destruct a as [e|ds]; js.
    + rewrite refused_run. cbn [fst snd]. rewrite Hw.
      pose proof (refused_settles e (world p)) as Hs.
      split; [exact I|]. cbn [world].
      split; [apply (lifecycle_settles _ _ Hs); assumption|].
      split; [apply (tidy_settles _ _ Hs) | apply (probed_settles _ _ Hs), Hp].
    + rewrite Hw. split; [|auto]. unfold calm. cbn [waiting world]. cbn. auto.
  - (* the microphone promise *)
    cbn [turn]. destruct (waiting p !! k) as [[|ds]|] eqn:Hk; try exact Ho.
    destruct (orderly_waiting p k _ Ho Hk) as (Hw & -> & Hrec & Hprev & Hsup).
    rewrite Hw. pose proof (mic_settles (world p) r ds) as Hs.
    split; [exact I|]. cbn [world].
    split; [apply (lifecycle_settles _ _ Hs); assumption|].
    split; [apply (tidy_settles _ _ Hs) | apply (probed_settles _ _ Hs), Hp].
  - (* any other event *)
    cbn [turn].
    split; [|split; [apply lifecycle_step, Hl|split; [apply tidy_step, Ht|
             apply probed_step, Hp]]].
    unfold calm in *. cbn [waiting world].
    destruct (waiting p) as [|x [|y l]] eqn:Hw; [exact I| |contradiction].
    destruct Hc as (Hrec & Hprev & Hsup).
    assert (He : noStart e = true).
    { destruct e; try reflexivity. cbn [startsCall negb orb] in Hserial.
      unfold nobodyWaiting in Hserial. rewrite Hw in Hserial. discriminate. }
    destruct (idle_frame e (world p) He Hl Hp Hrec) as (H1 & H2 & H3).
    rewrite H1, H2, H3. auto.
Qed.

Lemma play_cons t ts p : play (t :: ts) p = play ts (turn t p).
Proof. reflexivity. Qed.

Lemma orderly_play ts : forall p,
  orderly p -> serial ts p = true -> orderly (play ts p).
Proof.
  induction ts as [|t ts IH]; intros p Ho Hs; [exact Ho|].
  cbn [serial] in Hs. apply andb_prop in Hs as [Ht Hs].
  rewrite play_cons. apply IH; [|exact Hs]. apply orderly_turn; assumption.
Qed.
(** ** The timer and the preview handle, turn by turn *)

Lemma clicked_counts w :
  occurrences isTimeout (clicked w) = occurrences isTimeout w /\
  occurrences isSetInterval (clicked w) = occurrences isSetInterval w.
Proof.
  destruct (clicked_fields w) as (_ & _ & _ & _ & _ & _ & _ & _ & _ & _ & _ & _ & _
    & _ & _ & _ & _ & _ & _ & Htr).
  unfold occurrences, staleRevoked in *. rewrite Htr.
  destruct (truthy (previewURL (app w))); split; reflexivity.
Qed.

Lemma timer_clicked w : timerInv w -> timerInv (clicked w).
Proof.
  destruct (clicked_fields w) as (Hr & _ & _ & _ & _ & _ & _ & _ & _ & _ & Ht & He & Hs
    & _ & Hi & _).
  destruct (clicked_counts w) as [Hto Hsi].
  apply timerInv_frame; assumption.
Qed.

Lemma clock_clicked w : clockInv w -> clockInv (clicked w).
Proof.
  destruct (clicked_fields w) as (_ & _ & _ & _ & _ & _ & _ & _ & _ & _ & Ht & He & Hs
    & Hn & _).
  unfold clockInv. rewrite Ht, He, Hs, Hn. auto.
Qed.

Lemma timed_turn t p :
  orderly p -> timerInv (world p) -> clockInv (world p) ->
  negb (startsCall t) || nobodyWaiting p = true ->
  match t with Meanwhile e => onTime e (world p) | _ => true end = true ->
  match t with Meanwhile (Elapse d) => 0 <=? d | _ => true end = true ->
  timerInv (world (turn t p)) /\ clockInv (world (turn t p)).
Proof.
  intros Ho Hti Hcl Hserial Hon Hfwd.
  destruct t as [|k a|k r|e].
  - cbn [turn].
    destruct (isRecording (app (world p))) eqn:Hrec;
      [|destruct (isSupported (app (world p))) eqn:Hsup].
    + rewrite click_blocked by auto. auto.
    + rewrite click_passed by assumption. cbn [world].
      split; [apply timer_clicked, Hti | apply clock_clicked, Hcl].
    + rewrite click_blocked by auto. auto.
  - cbn [turn]. destruct (waiting p !! k) as [[|ds]|] eqn:Hk; auto.
    destruct (orderly_waiting p k _ Ho Hk) as (Hw & -> & Hrec & Hprev & Hsup).
    unfold displayAnswered. destruct a as [e|ds]; js.
    + rewrite refused_run. cbn [fst snd world].
      pose proof (refused_settles e (world p)) as Hs.
      split; [apply (timer_settles _ _ Hs); assumption | apply (clock_settles _ _ Hs), Hcl].
    + cbn [world]. auto.
  - cbn [turn]. destruct (waiting p !! k) as [[|ds]|] eqn:Hk; auto.
    destruct (orderly_waiting p k _ Ho Hk) as (Hw & -> & Hrec & Hprev & Hsup).
    cbn [world]. pose proof (mic_settles (world p) r ds) as Hs.
    split; [apply (timer_settles _ _ Hs); assumption | apply (clock_settles _ _ Hs), Hcl].
  - cbn [turn world]. split; [apply timer_step; assumption|].
    apply clock_step; auto. destruct e; auto. apply Z.leb_le. exact Hfwd.
Qed.

Lemma timed_play ts : forall p,
  orderly p -> timerInv (world p) -> clockInv (world p) ->
  serial ts p = true -> timely ts p = true -> clockwise ts = true ->
  timerInv (world (play ts p)) /\ clockInv (world (play ts p)).
Proof.
  induction ts as [|t ts IH]; intros p Ho Hti Hcl Hs Hon Hfwd; [auto|].
  cbn [serial] in Hs. apply andb_prop in Hs as [Ht Hs].
  cbn [timely] in Hon. apply andb_prop in Hon as [Hont Hon].
  unfold clockwise in Hfwd. cbn [forallb] in Hfwd. apply andb_prop in Hfwd as [Hf Hfwd].
  destruct (timed_turn t p Ho Hti Hcl Ht Hont Hf) as [Hti' Hcl'].
  rewrite play_cons. apply IH; auto. apply orderly_turn; assumption.
Qed.

Lemma onlyPreview_clicked w : onlyPreview w -> onlyPreview (clicked w).
Proof.
  destruct (clicked_fields w) as (_ & _ & Hp & _ & _ & _ & _ & _ & _ & _ & _ & _ & _
    & _ & _ & _ & _ & _ & Ho & _).
  unfold onlyPreview. rewrite Hp, Ho. intros ->. cbn [truthy].
  destruct (truthy (previewURL (app w))); set_solver.
Qed.

Lemma onlyPreview_turn t p :
  orderly p -> onlyPreview (world p) ->
  negb (startsCall t) || nobodyWaiting p = true ->
  noDownloadTurn t = true ->
  onlyPreview (world (turn t p)).
Proof.
  intros Ho Hu Hserial Hnd. pose proof Ho as (_ & Hl & _).
  destruct t as [|k a|k r|e].
  - cbn [turn].
    destruct (isRecording (app (world p))) eqn:Hrec;
      [|destruct (isSupported (app (world p))) eqn:Hsup].
    + rewrite click_blocked by auto. exact Hu.
    + rewrite click_passed by assumption. apply onlyPreview_clicked, Hu.
    + rewrite click_blocked by auto. exact Hu.
  - cbn [turn]. destruct (waiting p !! k) as [[|ds]|] eqn:Hk; auto.
    unfold displayAnswered. destruct a as [e|ds]; js.
    + rewrite refused_run. cbn [fst snd world].
      apply (onlyPreview_settles _ _ (refused_settles e (world p))), Hu.
    + exact Hu.
  - cbn [turn]. destruct (waiting p !! k) as [[|ds]|] eqn:Hk; auto.
    cbn [world]. apply (onlyPreview_settles _ _ (mic_settles (world p) r ds)), Hu.
  - cbn [turn world]. apply onlyPreview_step; assumption.
Qed.

Lemma onlyPreview_play ts : forall p,
  orderly p -> onlyPreview (world p) ->
  serial ts p = true -> forallb noDownloadTurn ts = true ->
  onlyPreview (world (play ts p)).
Proof.
  induction ts as [|t ts IH]; intros p Ho Hu Hs Hnd; [exact Hu|].
  cbn [serial] in Hs. apply andb_prop in Hs as [Ht Hs].
  cbn [forallb] in Hnd. apply andb_prop in Hnd as [Hd Hnd].
  rewrite play_cons. apply IH; auto.
  - apply orderly_turn; assumption.
  - apply onlyPreview_turn; assumption.
Qed.
(** ** The timer runs exactly while the recorder records *)

Lemma ticking_settles w w' :
  settles w w' -> lifecycle w -> isRecording (app w) = false -> ticking w'.
Proof.
  intros Hs (_ & _ & Hidle) Hrec. destruct (Hidle Hrec) as [_ Hst].
  destruct (isRecording (app w')) eqn:Hrec'.
  - destruct Hs as [_ [(e & H & _) | [(e & ds & ms & dest & H & _) | (ds & ms & ac & dest & H & _)]]].
    + destruct H as (Hno & _). congruence.
    + destruct H as (Hno & _). congruence.
    + destruct H as (_ & Hr & _ & _ & _ & _ & _ & Ht & _). unfold ticking.
      rewrite Hr, Ht. cbn. discriminate.
  - destruct (settles_idle w w' Hs Hrec') as (Hf & _ & _ & _ & _ & _ & Hr).
    destruct Hf as (_ & Ht & _). unfold ticking.
    destruct Hr as [-> | (rec & -> & Hph)].
    + destruct (mediaRecorderRef (app w)) as [r|]; [|exact Ht].
      specialize (Hst r eq_refl). unfold phaseOf in Hst.
      destruct (is_inactive (rec_state r)); [exact Ht | discriminate].
    + unfold phaseOf in Hph. destruct (is_inactive (rec_state rec)); [exact Ht | discriminate].
Qed.

Lemma ticking_clicked w : ticking w -> ticking (clicked w).
Proof.
  destruct (clicked_fields w) as (_ & _ & _ & _ & Hm & _ & _ & _ & _ & _ & Ht & _).
  unfold ticking. rewrite Hm, Ht. auto.
Qed.

Lemma ticking_step e w : lifecycle w -> ticking w -> ticking (step e w).
Proof.
  intros Hl Ht. destruct e as [|resp| | |t|d|id|data|].
  2:{ change (step (Start resp) w) with (exec (startRecording resp) w).
      rewrite startRecording_pieces.
      destruct (isRecording (app w)) eqn:Hrec.
      { rewrite click_blocked by auto. exact Ht. }
      destruct (isSupported (app w)) eqn:Hsup.
      2:{ rewrite click_blocked by auto. exact Ht. }
      rewrite click_passed by assumption.
      destruct (clicked_fields w) as (Hr' & _).
      assert (Hidle : isRecording (app (clicked w)) = false) by congruence.
      pose proof (lifecycle_clicked w Hl) as Hl'.
      unfold displayAnswered. destruct (onGetDisplayMedia resp) as [e|ds]; js.
      - rewrite refused_run. apply (ticking_settles _ _ (refused_settles e _) Hl' Hidle).
      - apply (ticking_settles (record GetUserMedia (clicked w)) _ (mic_settles _ resp ds));
          [exact Hl' | exact Hidle]. }
  all: destruct Hl as (Hq & _).
  all: unfold ticking in *.
  all: destruct (mediaRecorderRef (app w)) as [[st q mt op]|] eqn:Hr.
  all: try (specialize (Hq _ eq_refl); proj_in Hq).
  all: unfold step, handler, probe, stopRecording, handleDownload, trackEnded,
         timerFires, tick, dataAvailable, ondataavailable, recorderStopped, onstop,
         stopRecording.
  all: try (destruct st; try (rewrite (Hq eq_refl) in * ); try destruct q).
  all: proj_in Ht.
  all: crunch Hr.
  all: proj; rewrite ?Hr; proj; try assumption; try reflexivity; try congruence.
Qed.

Lemma ticking_turn t p :
  orderly p -> ticking (world p) -> ticking (world (turn t p)).
Proof.
  intros Ho Ht. pose proof Ho as (_ & Hl & _).
  destruct t as [|k a|k r|e].
  - cbn [turn].
    destruct (isRecording (app (world p))) eqn:Hrec;
      [|destruct (isSupported (app (world p))) eqn:Hsup].
    + rewrite click_blocked by auto. exact Ht.
    + rewrite click_passed by assumption. apply ticking_clicked, Ht.
    + rewrite click_blocked by auto. exact Ht.
  - cbn [turn]. destruct (waiting p !! k) as [[|ds]|] eqn:Hk; auto.
    destruct (orderly_waiting p k _ Ho Hk) as (Hw & -> & Hrec & Hprev & Hsup).
    unfold displayAnswered. destruct a as [e|ds]; js.
    + rewrite refused_run. cbn [fst snd world].
      apply (ticking_settles _ _ (refused_settles e (world p))); assumption.
    + exact Ht.
  - cbn [turn]. destruct (waiting p !! k) as [[|ds]|] eqn:Hk; auto.
    destruct (orderly_waiting p k _ Ho Hk) as (Hw & -> & Hrec & Hprev & Hsup).
    cbn [world]. apply (ticking_settles _ _ (mic_settles (world p) r ds)); assumption.
  - cbn [turn world]. apply ticking_step; assumption.
Qed.

Lemma ticking_play ts : forall p,
  orderly p -> ticking (world p) -> serial ts p = true -> ticking (world (play ts p)).
Proof.
  induction ts as [|t ts IH]; intros p Ho Ht Hs; [exact Ht|].
  cbn [serial] in Hs. apply andb_prop in Hs as [Hser Hs].
  rewrite play_cons. apply IH; auto.
  - apply orderly_turn; assumption.
  - apply ticking_turn; assumption.
Qed.

(** X20.  The timer as long as calls of [startRecording] do not overlap, in
    runs in which every interval fires on time and the clock does not run
    backwards.  While the recorder in [mediaRecorderRef] is recording,
    exactly one interval is registered: the one in [tickRef], with a period
    of 250 ms, and the elapsed time on screen is the clock at its last tick
    minus the recorded origin, below the maximum.  While the recorder is
    absent or inactive no interval is registered at all, so nothing ticks,
    and the elapsed time stays at most the maximum plus one tick.  The timer
    never asks for stop more often than it was started. *)
Theorem timer_runs_while_recording (b : Browser) (ts : list Turn) :
  intervals b = ∅ ->
  serial ts (mounted b) = true ->
  timely ts (mounted b) = true ->
  clockwise ts = true ->
  let w := world (play ts (mounted b)) in
  let running :=
    exists id fired,
      tickRef (app w) = Some id /\
      intervals (host w) = {[ id := {| period := 250; lastFired := fired |} ]} /\
      startTimeRef (app w) <= fired /\
      elapsedMs (app w) = fired - startTimeRef (app w) /\
      elapsedMs (app w) < MAX_DURATION_MS in
  let stopped :=
    tickRef (app w) = None /\
    intervals (host w) = ∅ /\
    0 <= elapsedMs (app w) <= MAX_DURATION_MS + 250 in
  (occurrences isTimeout w <= occurrences isSetInterval w)%nat /\
  match mediaRecorderRef (app w) with
  | Some r => if is_inactive (rec_state r) then stopped else running
  | None => stopped
  end.
Proof.
  intros Hb Hs Hp Hf w running stopped.
  destruct (timed_play ts (mounted b) (orderly_mounted b) (timer_boot b Hb) (clock_boot b)
              Hs Hp Hf) as [Ht [Hpos _]].
  fold w in Ht, Hpos.
  assert (Htick : ticking w).
  { apply (ticking_play ts (mounted b)); [apply orderly_mounted | | exact Hs].
    unfold ticking, mounted, boot, step, handler, probe. go. reflexivity. }
  destruct Ht as (_ & Hreg & Hcount).
  split; [lia|].
  assert (Hstopped : tickRef (app w) = None -> stopped).
  { intros E. rewrite E in Hreg. destruct Hreg as [Hiv Hel]. unfold TICK_MS in Hel.
    unfold stopped. repeat split; auto; lia. }
  assert (Hrunning : tickRef (app w) <> None -> running).
  { intros E. destruct (tickRef (app w)) as [id|]; [|congruence].
    destruct Hreg as (fired & Hiv & Hel & Hlt). exists id, fired.
    unfold TICK_MS in Hiv. repeat split; auto. lia. }
  unfold ticking in Htick.
  destruct (mediaRecorderRef (app w)) as [r|]; [|auto].
  destruct (is_inactive (rec_state r)); auto.
Qed.

Lemma timer_runs_while_recording_witness :
  exists id fired,
    tickRef (app (world (play (single ++ map Meanwhile (steady 1 4))%list
                           (mounted (chrome 1700000000000))))) = Some id /\
    intervals (host (world (play (single ++ map Meanwhile (steady 1 4))%list
                              (mounted (chrome 1700000000000))))) =
      {[ id := {| period := 250; lastFired := fired |} ]}.
Proof.
  pose proof (timer_runs_while_recording (chrome 1700000000000)
    (single ++ map Meanwhile (steady 1 4))%list eq_refl) as H.
  cbv zeta in H.
  destruct H as [_ H]; [vm_compute; reflexivity..|].
  replace (mediaRecorderRef (app (world (play (single ++ map Meanwhile (steady 1 4))%list
             (mounted (chrome 1700000000000))))))
    with (Some {| rec_state := recording; stopQueued := false;
                  rec_mimeType := "video/webm;codecs=vp9,opus";
                  rec_options := Some "video/webm;codecs=vp9,opus" |}) in H
    by (vm_compute; reflexivity).
  cbn [is_inactive rec_state] in H.
  destruct H as (id & fired & H1 & H2 & _). exists id, fired. auto.
Defined.
(** ** Two calls of [startRecording] that overlap *)

(** C5.  The guard of line 80 tests the recording flag, which is set only at
    line 138, after both awaits: while a call is still acquiring, Start is
    enabled and a second click gets past the guard.  Here the second click
    comes while the first call waits for the microphone.  The first call is
    then granted everything and records, a tick shows 250 ms and a segment
    is retained.  When the second call's promises settle too, its continuation
    runs while the first attempt is recording: it replaces every stream
    reference, the recorder and the timer handle, empties the retained
    segments, puts the elapsed time back to zero, registers a second interval
    without clearing the first and starts a second recorder.  The tracks of
    the first attempt are live and no ref holds them. *)
Theorem start_while_acquiring :
  let p0 := mounted (chrome 1700000000000) in
  let before :=
    play [ StartClicked; DisplayAnswered 0 (onGetDisplayMedia everything);
           StartClicked;
           MicrophoneAnswered 0 everything;
           Meanwhile (Elapse 250); Meanwhile (TimerFires 1);
           Meanwhile (DataAvailable (segment 1000));
           DisplayAnswered 0 (onGetDisplayMedia everythingAgain) ] p0 in
  let after := turn (MicrophoneAnswered 0 everythingAgain) before in
  startDisabled
    (render (app (world (play [StartClicked;
                               DisplayAnswered 0 (onGetDisplayMedia everything)] p0))))
    = false /\
  waiting (play [StartClicked; DisplayAnswered 0 (onGetDisplayMedia everything);
                 StartClicked] p0) =
    [AtMicrophone {| videoTracks := [1%nat]; audioTracks := [2%nat] |}; AtDisplay] /\
  waiting before = [AtMicrophone {| videoTracks := [5%nat]; audioTracks := [6%nat] |}] /\
  isRecording (app (world before)) = true /\
  elapsedMs (app (world before)) = 250 /\
  chunksRef (app (world before)) =
    [{| blob_size := 1000; blob_type := "video/webm;codecs=vp9,opus" |}] /\
  displayStreamRef (app (world before)) =
    Some {| videoTracks := [1%nat]; audioTracks := [2%nat] |} /\
  micStreamRef (app (world before)) =
    Some {| videoTracks := []; audioTracks := [3%nat] |} /\
  mixedStreamRef (app (world before)) =
    Some {| videoTracks := [1%nat]; audioTracks := [4%nat] |} /\
  tickRef (app (world before)) = Some 1%positive /\
  occurrences isRecorderStart (world before) = 1%nat /\
  isRecording (app (world after)) = true /\
  elapsedMs (app (world after)) = 0 /\
  chunksRef (app (world after)) = [] /\
  displayStreamRef (app (world after)) =
    Some {| videoTracks := [5%nat]; audioTracks := [6%nat] |} /\
  micStreamRef (app (world after)) =
    Some {| videoTracks := []; audioTracks := [7%nat] |} /\
  mixedStreamRef (app (world after)) =
    Some {| videoTracks := [5%nat]; audioTracks := [8%nat] |} /\
  tickRef (app (world after)) = Some 2%positive /\
  intervals (host (world after)) !! 1%positive =
    Some {| period := 250; lastFired := 1700000000250 |} /\
  intervals (host (world after)) !! 2%positive =
    Some {| period := 250; lastFired := 1700000000250 |} /\
  occurrences isRecorderStart (world after) = 2%nat /\
  forallb (fun t => negb (hasEnded t (host (world after)))) [1; 2; 3; 4]%nat = true.
Proof. vm_compute. repeat split; reflexivity. Qed.

(** C2.  After the same two overlapped starts each interval fires every 250
    ms.  The tick that reaches three minutes stops the recorder in
    [mediaRecorderRef] and clears the handle in [tickRef], which is the
    second call's; the first call's interval is still registered.  It keeps
    firing after the attempt is complete: the timer has not stopped
    ticking, it asks for stop again on every tick, and the elapsed time on
    screen keeps growing past the maximum plus one tick.  Of the two
    recorders that were started only one was ever stopped. *)
Theorem overlapped_timer_keeps_ticking :
  let p0 := mounted (chrome 1700000000000) in
  let ts := (overlapped ++ steadyBoth 720 ++ [Meanwhile RecorderStopped] ++ steadyBoth 4)%list in
  let atStop := play (overlapped ++ steadyBoth 720)%list p0 in
  let later := play ts p0 in
  timely ts p0 = true /\
  clockwise ts = true /\
  elapsedMs (app (world atStop)) = 180000 /\
  tickRef (app (world atStop)) = None /\
  intervals (host (world atStop)) !! 1%positive =
    Some {| period := 250; lastFired := 1700000180000 |} /\
  occurrences isTimeout (world atStop) = 1%nat /\
  isRecording (app (world later)) = false /\
  elapsedMs (app (world later)) = 181000 /\
  intervals (host (world later)) !! 1%positive =
    Some {| period := 250; lastFired := 1700000181000 |} /\
  occurrences isTimeout (world later) = 5%nat /\
  occurrences isSetInterval (world later) = 2%nat /\
  occurrences isRecorderStart (world later) = 2%nat /\
  occurrences isRecorderStop (world later) = 1%nat.
Proof. vm_compute. repeat split; reflexivity. Qed.
(** ** Runs in which calls of [startRecording] do not overlap *)

Lemma refused_early e w : refusedEarly w (refused e w) e.
Proof.
  unfold refused, timerStopped. proj. destruct (tickRef (app w)) eqn:?; proj.
  all: unfold refusedEarly, heldTracks; proj; repeat split; try reflexivity; find_call.
Qed.

Lemma reached_orderly b ts :
  serial ts (mounted b) = true -> orderly (play ts (mounted b)).
Proof. apply orderly_play, orderly_mounted. Qed.

(** X2.  On the page as the browser runs it, as long as no Start is clicked
    while an earlier call of [startRecording] is still suspended, every
    interval fires on time and the clock does not run backwards, the timer
    on screen reads a well-formed [mm:ss] between [00:00] and [03:00]: the
    elapsed time is never negative, never above 180250 ms, and once the
    minutes read 03 the seconds read 00. *)
Theorem display_in_range (b : Browser) (ts : list Turn) :
  intervals b = ∅ ->
  serial ts (mounted b) = true ->
  timely ts (mounted b) = true ->
  clockwise ts = true ->
  let c := app (world (play ts (mounted b))) in
  let e := elapsedMs c in
  0 <= e <= 180250 /\
  timerText c = digits 2 (e / 60000) "" +:+ ":" +:+ digits 2 (e / 1000 mod 60) "" /\
  0 <= e / 60000 <= 3 /\
  (e / 60000 = 3 -> e / 1000 mod 60 = 0).
Proof.
  intros Hb Hs Hp Hf c e.
  destruct (timed_play ts (mounted b) (orderly_mounted b) (timer_boot b Hb) (clock_boot b)
              Hs Hp Hf) as [Ht [Hpos _]].
  fold c in Ht, Hpos. fold e in Hpos.
  assert (Hup : e <= 180250).
  { destruct Ht as (_ & Hreg & _). fold c in Hreg. fold e in Hreg.
    unfold MAX_DURATION_MS, TICK_MS in Hreg.
    destruct (tickRef c); [destruct Hreg as (f & _ & _ & ?)|destruct Hreg]; lia. }
  split; [lia|].
  split; [apply formatTime_mm_ss; lia|].
  split; Z.div_mod_to_equations; lia.
Qed.

Lemma display_in_range_witness :
  timerText (app (world (play (single ++ map Meanwhile (steady 1 4))%list
                            (mounted (chrome 1700000000000)))))
  = "00:01".
Proof.
  refine (eq_trans (proj1 (proj2
    (display_in_range (chrome 1700000000000)
       (single ++ map Meanwhile (steady 1 4))%list _ _ _ _))) _);
    vm_compute; reflexivity.
Defined.

(** X8.  As long as calls of [startRecording] do not overlap, a call that is
    refused before the recorder exists (the display or the microphone
    promise is rejected, or the audio graph or the recorder cannot be built)
    shows the error and leaves the page idle, and its [catch] block ends no
    track: a display stream already granted to this call was only in a local
    variable, never in a ref, so the cleanup cannot reach it and it stays
    live. *)
Theorem refused_early_stops_nothing (b : Browser) (ts : list Turn) (t : Turn)
    (k : nat) (r : Responses) (ds : MediaStream) (e : Exn) :
  let p := play ts (mounted b) in
  serial ts (mounted b) = true ->
  (t = DisplayAnswered k (inl e) /\ waiting p !! k = Some AtDisplay) \/
  (t = MicrophoneAnswered k r /\ waiting p !! k = Some (AtMicrophone ds) /\
   firstRefusal (withDisplay ds r) = Some e) ->
  let w := world p in
  let w' := world (turn t p) in
  ended (host w') = ended (host w) /\
  waiting (turn t p) = [] /\
  warning (render (app w')) = Some (failureText e) /\
  In (ConsoleError e) (trace w') /\
  isRecording (app w') = false /\
  displayStreamRef (app w') = None /\
  micStreamRef (app w') = None /\
  mixedStreamRef (app w') = None /\
  audioCtxRef (app w') = None /\
  mediaRecorderRef (app w') = mediaRecorderRef (app w) /\
  chunksRef (app w') = chunksRef (app w).
Proof.
  intros p Hs Ht w w'.
  pose proof (reached_orderly b ts Hs) as Ho. fold p in Ho.
  assert (Hk : exists x, waiting p !! k = Some x)
    by (destruct Ht as [(_ & H) | (_ & H & _)]; eauto).
  destruct Hk as (x & Hk).
  destruct (orderly_waiting p k x Ho Hk) as (Hw & -> & Hrec & _).
  destruct Ho as (_ & _ & Htidy & _).
  destruct (Htidy Hrec) as (Td & Tm & Tx & _). fold w in Td, Tm, Tx.
  assert (H : refusedEarly w w' e /\ waiting (turn t p) = []).
  { destruct Ht as [(-> & Hd) | (-> & Hm & Hf)]; subst w'; cbn [turn].
    - rewrite Hd. unfold displayAnswered. js. rewrite refused_run. cbn [fst snd world waiting].
      rewrite Hw. split; [apply refused_early | reflexivity].
    - rewrite Hm. cbn [world waiting]. rewrite Hw. split; [|reflexivity].
      pose proof (mic_outcomes (world p) r ds) as [_ H]. cbv zeta in H.
      rewrite Hf in H. apply H. }
  destruct H as [(Hno & Herr & Hlog & Hd & Hm & Hx & Ha & Hmr & Hch & Hend & _) Hwait].
  unfold heldTracks in Hend. rewrite Td, Tm, Tx in Hend. cbn in Hend.
  split; [rewrite Hend; set_solver|].
  split; [exact Hwait|].
  split; [apply warning_shown, Herr|].
  repeat split; assumption.
Qed.

Lemma refused_early_stops_nothing_witness :
  let p := play [StartClicked; DisplayAnswered 0 (onGetDisplayMedia micDenied)]
             (mounted (chrome 0)) in
  let w' := world (turn (MicrophoneAnswered 0 micDenied) p) in
  ended (host w') = ended (host (world p)) /\
  warning (render (app w')) = Some "Permission denied".
Proof.
  pose proof (refused_early_stops_nothing (chrome 0)
    [StartClicked; DisplayAnswered 0 (onGetDisplayMedia micDenied)]
    (MicrophoneAnswered 0 micDenied) 0 micDenied
    {| videoTracks := [1%nat]; audioTracks := [2%nat] |}
    {| message := Some "Permission denied" |} eq_refl
    (or_intror (conj eq_refl (conj eq_refl eq_refl)))) as H.
  cbv zeta in H. destruct H as (H1 & _ & H2 & _). split; [exact H1 | exact H2].
Defined.

(** X10.  As long as calls of [startRecording] do not overlap, however a
    call fails the page then shows a non-empty message (the text of
    [failureText] for the exception that was logged), Start is enabled
    again, Stop is disabled, no preview or Download is on screen and no
    timer is left running; and a start that follows at once, if the browser
    grants everything, records with the message cleared. *)
Theorem failed_start_recoverable (b : Browser) (ts : list Turn) (t : Turn) :
  let p := play ts (mounted b) in
  serial ts (mounted b) = true ->
  waiting p <> [] ->
  let p' := turn t p in
  waiting p' = [] ->
  isRecording (app (world p')) = false ->
  (exists e, In (ConsoleError e) (trace (world p')) /\
             warning (render (app (world p'))) = Some (failureText e) /\
             failureText e <> "") /\
  startDisabled (render (app (world p'))) = false /\
  stopDisabled (render (app (world p'))) = true /\
  downloadShown (render (app (world p'))) = false /\
  tickRef (app (world p')) = None /\
  forall r2 ds ms dest,
    granted r2 ds ms dest -> onRecorderStart r2 = None ->
    let p'' := turn (Meanwhile (Start r2)) p' in
    isRecording (app (world p'')) = true /\ warning (render (app (world p''))) = None.
Proof.
  intros p Hs Hbusy p' Hdone Hno.
  pose proof (reached_orderly b ts Hs) as Ho. fold p in Ho.
  assert (Hset : settles (world p) (world p') /\
                 previewURL (app (world p)) = "" /\ isSupported (app (world p)) = true).
  { destruct t as [|k a|k r|e]; subst p'; cbn [turn] in *.
    - destruct (startClicked (world p)) as [[[|]|] ?]; cbn [waiting] in Hdone;
        try apply app_eq_nil in Hdone as [? _]; contradiction.
    - destruct (waiting p !! k) as [[|ds]|] eqn:Hk; try contradiction.
      destruct (orderly_waiting p k _ Ho Hk) as (Hw & -> & Hrec & Hprev & Hsup).
      revert Hdone Hno. unfold displayAnswered. destruct a as [e|ds]; js.
      + rewrite refused_run. cbn [fst snd world]. intros _ _.
        split; [apply refused_settles | auto].
      + cbn [waiting]. rewrite Hw. cbn. discriminate.
    - destruct (waiting p !! k) as [[|ds]|] eqn:Hk; try contradiction.
      destruct (orderly_waiting p k _ Ho Hk) as (Hw & -> & Hrec & Hprev & Hsup).
      cbn [world]. split; [apply mic_settles | auto].
    - cbn [waiting] in Hdone. contradiction. }
  destruct Hset as (Hset & Hprev & Hsup).
  destruct (settles_idle _ _ Hset Hno) as (Hf & _ & _ & _ & _ & (e & Herr & Hlog) & _).
  destruct Hf as (_ & Htick & _).
  destruct Hset as [(Hp' & Hs' & _) _].
  rewrite Hprev in Hp'. rewrite Hsup in Hs'.
  split.
  { exists e. split; [exact Hlog|]. split; [apply warning_shown, Herr|].
    pose proof (failureText_truthy e) as Htr. destruct (failureText e); [discriminate|].
    discriminate. }
  cbn [render startDisabled stopDisabled downloadShown]. rewrite Hs', Hno, Hp'.
  do 3 (split; [reflexivity|]). split; [exact Htick|].
  intros r2 ds ms dest Hg Hok. cbn [turn world].
  change (step (Start r2) (world p')) with (exec (startRecording r2) (world p')).
  destruct (start_through (world p') r2 ds ms dest Hs' Hno Hg Hok) as (_ & Hyes & _).
  split; [exact Hyes|].
  destruct (start_success (world p') r2 Hno Hyes) as (? & ? & ? & ? & Hst).
  destruct Hst as (_ & _ & _ & _ & _ & _ & _ & _ & _ & _ & Herr2 & _).
  cbn [render warning]. rewrite Herr2. reflexivity.
Qed.

Lemma failed_start_recoverable_witness :
  let p' := play [StartClicked; DisplayAnswered 0 (onGetDisplayMedia micDenied);
                  MicrophoneAnswered 0 micDenied] (mounted (chrome 0)) in
  startDisabled (render (app (world p'))) = false /\
  isRecording (app (world (turn (Meanwhile (Start everything)) p'))) = true.
Proof.
  pose proof (failed_start_recoverable (chrome 0)
                [StartClicked; DisplayAnswered 0 (onGetDisplayMedia micDenied)]
                (MicrophoneAnswered 0 micDenied) eq_refl) as H.
  cbv zeta in H.
  destruct H as (_ & Hstart & _ & _ & _ & Hretry);
    [vm_compute; discriminate | reflexivity | reflexivity |].
  split; [exact Hstart|].
  apply (Hretry everything
    {| videoTracks := [1%nat]; audioTracks := [2%nat] |}
    {| videoTracks := []; audioTracks := [3%nat] |}
    {| videoTracks := []; audioTracks := [4%nat] |}).
  - repeat split; reflexivity.
  - reflexivity.
Defined.

(** X11.  A click on Start that gets past the guard gives up the previous
    recording's preview before the browser has answered anything: the
    handle is revoked in the turn of the click.  As long as calls do not
    overlap, for as long as the call is suspended no preview and no Download
    button is on screen, and the download action offers nothing even though
    the segments of the previous recording are still retained. *)
Theorem start_discards_preview (b : Browser) (ts : list Turn) :
  serial ts (mounted b) = true ->
  let p := play ts (mounted b) in
  (waiting p = [] ->
   isSupported (app (world p)) = true ->
   isRecording (app (world p)) = false ->
   let p1 := turn StartClicked p in
   waiting p1 = [AtDisplay] /\
   previewURL (app (world p1)) = "" /\
   chunksRef (app (world p1)) = chunksRef (app (world p)) /\
   (previewURL (app (world p)) <> "" ->
    (previewURL (app (world p)) ∉ objectURLs (host (world p1))) /\
    In (RevokeObjectURL (previewURL (app (world p)))) (trace (world p1)))) /\
  (waiting p <> [] ->
   previewURL (app (world p)) = "" /\
   downloadShown (render (app (world p))) = false /\
   exec handleDownload (world p) = world p).
Proof.
  intros Hs p. pose proof (reached_orderly b ts Hs) as Ho. fold p in Ho. split.
  - intros Hw Hsup Hrec. cbn [turn]. rewrite click_passed by assumption.
    cbn [waiting world]. rewrite Hw.
    destruct (clicked_fields (world p)) as (_ & _ & Hp & _ & _ & Hc & _ & _ & _ & _ & _
      & _ & _ & _ & _ & _ & _ & _ & Hu & Htr).
    split; [reflexivity|]. split; [exact Hp|]. split; [exact Hc|].
    intros Hne. unfold staleRevoked in Htr.
    destruct (previewURL (app (world p))) as [|c s] eqn:E; [congruence|].
    cbn [truthy] in Hu, Htr. split; [rewrite Hu; set_solver|].
    rewrite Htr. cbn. auto.
  - intros Hbusy. destruct Ho as (Hc & _). unfold calm in Hc.
    destruct (waiting p) as [|x [|y l]]; [congruence| |contradiction].
    destruct Hc as (_ & Hp & _).
    split; [exact Hp|]. split; [cbn [render downloadShown]; rewrite Hp; reflexivity|].
    apply download_nothing. auto.
Qed.

Lemma start_discards_preview_witness :
  let p := play [Meanwhile (Start everything); Meanwhile (DataAvailable (segment 1000));
                 Meanwhile Stop; Meanwhile RecorderStopped; StartClicked]
             (mounted (chrome 1700000000000)) in
  chunksRef (app (world p)) =
    [{| blob_size := 1000; blob_type := "video/webm;codecs=vp9,opus" |}] /\
  exec handleDownload (world p) = world p.
Proof.
  split; [vm_compute; reflexivity|].
  refine (proj2 (proj2 (proj2 (start_discards_preview (chrome 1700000000000)
    [Meanwhile (Start everything); Meanwhile (DataAvailable (segment 1000));
     Meanwhile Stop; Meanwhile RecorderStopped; StartClicked] _) _))).
  - reflexivity.
  - vm_compute. discriminate.
Defined.

(** X17.  Preview handles do not leak as long as calls of [startRecording]
    do not overlap.  In such a run without downloads, from a page that
    started with no object URL registered, the only URL registered at any
    moment is the one of the preview on screen, and none when no preview is
    shown: every handle a stop callback creates is revoked by the next
    click on Start that gets past the guard. *)
Theorem preview_handles_never_leak (b : Browser) (ts : list Turn) :
  objectURLs b = ∅ ->
  serial ts (mounted b) = true ->
  forallb noDownloadTurn ts = true ->
  let w := world (play ts (mounted b)) in
  objectURLs (host w) =
    if downloadShown (render (app w)) then {[previewURL (app w)]} else ∅.
Proof.
  intros Hb Hs Hnd w.
  apply (onlyPreview_play ts (mounted b)); [apply orderly_mounted | | exact Hs | exact Hnd].
  unfold onlyPreview, mounted, boot, step, handler, probe. go. exact Hb.
Qed.

Lemma preview_handles_never_leak_witness :
  "blob:2" ∉ objectURLs (host (world (play
     (single ++ [Meanwhile (DataAvailable (segment 1000)); Meanwhile Stop;
                 Meanwhile RecorderStopped]
      ++ single ++ [Meanwhile Stop; Meanwhile RecorderStopped])%list
     (mounted (chrome 1700000000000))))).
Proof.
  rewrite (preview_handles_never_leak (chrome 1700000000000)
    (single ++ [Meanwhile (DataAvailable (segment 1000)); Meanwhile Stop;
                Meanwhile RecorderStopped]
     ++ single ++ [Meanwhile Stop; Meanwhile RecorderStopped])%list eq_refl eq_refl eq_refl).
  match goal with |- _ ∉ (if ?c then _ else _) =>
    replace c with true by (vm_compute; reflexivity) end.
  match goal with |- _ ∉ {[ ?u ]} =>
    replace u with "blob:4" by (vm_compute; reflexivity) end.
  intros H. apply elem_of_singleton in H. discriminate H.
Defined.


